(** * Sudoku-Solver-AR: the puzzle finder and the cached puzzle solver

    A shallow embedding of [PuzzleFinder.cpp] (peak extraction from a Hough
    accumulator, clustering by angle, the evenly-spaced search, the pairing
    of axes and the corner extraction), of [CachedPuzzleSolver.cpp] ([Solve],
    [GetLastUsedSolution] and [DigitsToGame]) and of the cells of [Game.cpp],
    with the properties of the specification stated over it, followed by
    further properties of the same code.

    Unsigned integers are [Z] with the wrap-around written out, the
    accumulator buffer is a [list byte], single and double precision
    numbers are the Standard Library's [spec_float] at precision 24 and 53. *)

From Stdlib Require Import ZArith List Bool Lia.
From Stdlib Require Import Strings.Byte.
From Stdlib Require Import Floats.SpecFloat.
Import ListNotations.
Local Open Scope Z_scope.

(** ** Machine integers *)

Definition u32 (z : Z) : Z := z mod 2 ^ 32.
Definition u16 (z : Z) : Z := z mod 2 ^ 16.
(** [static_cast<int>] of an [unsigned int]. *)
Definition s32 (z : Z) : Z := if z <? 2 ^ 31 then z else z - 2 ^ 32.

(** [for(unsigned int i = 0; i < n; i++)]: the values [i] takes. *)
Definition range (n : Z) : list Z := map Z.of_nat (seq 0 (Z.to_nat n)).

(** ** Floating point: binary32 ([float]) and binary64 ([double]) *)

Definition float := spec_float.
Definition double := spec_float.

Module F32.
Definition prec : Z := 24.
Definition emax : Z := 128.
Definition of_Z (z : Z) : float := binary_normalize prec emax z 0 false.
Definition add : float -> float -> float := SFadd prec emax.
Definition sub : float -> float -> float := SFsub prec emax.
Definition mul : float -> float -> float := SFmul prec emax.
Definition div : float -> float -> float := SFdiv prec emax.
Definition zero : float := S754_zero false.
End F32.

Module F64.
Definition prec : Z := 53.
Definition emax : Z := 1024.
Definition of_Z (z : Z) : double := binary_normalize prec emax z 0 false.
Definition add : double -> double -> double := SFadd prec emax.
Definition sub : double -> double -> double := SFsub prec emax.
Definition mul : double -> double -> double := SFmul prec emax.
Definition div : double -> double -> double := SFdiv prec emax.
End F64.

(** Conversion between the two formats: the value is rounded to nearest
    even in the target format (exact from [float] to [double]). *)
Definition convert (prec emax : Z) (x : spec_float) : spec_float :=
  match x with
  | S754_finite s m e => binary_normalize prec emax (cond_Zopp s (Zpos m)) e s
  | _ => x
  end.
Definition to_double (x : float) : double := convert F64.prec F64.emax x.
Definition to_float (x : double) : float := convert F32.prec F32.emax x.

(** [fabsf], [<] and [>] on floats. *)
Definition fabsf (x : float) : float := SFabs x.
Definition flt (x y : spec_float) : bool := SFltb x y.
Definition fgt (x y : spec_float) : bool := SFltb y x.

(** [fmod]/[fmodf]: the remainder of the truncated division, computed
    exactly; it has the sign of [x]. *)
Definition SFfmod (prec emax : Z) (x y : spec_float) : spec_float :=
  match x, y with
  | S754_nan, _ | _, S754_nan => S754_nan
  | S754_infinity _, _ => S754_nan
  | _, S754_zero _ => S754_nan
  | S754_zero _, _ => x
  | S754_finite _ _ _, S754_infinity _ => x
  | S754_finite sx mx ex, S754_finite _ my ey =>
      let e := Z.min ex ey in
      let X := Zpos mx * 2 ^ (ex - e) in
      let Y := Zpos my * 2 ^ (ey - e) in
      binary_normalize prec emax (cond_Zopp sx (X mod Y)) e sx
  end.
Definition fmodf (x y : float) : float := SFfmod F32.prec F32.emax x y.
Definition fmod (x y : double) : double := SFfmod F64.prec F64.emax x y.

(** [std::lround]: to the nearest integer, halfway cases away from zero.
    The result for an infinity or a NaN is unspecified in C; it is 0 here. *)
Definition lround (x : spec_float) : Z :=
  match x with
  | S754_finite s m e =>
      let r := if 0 <=? e then Zpos m * 2 ^ e
               else (2 * Zpos m + 2 ^ (- e)) / 2 ^ (- e + 1) in
      cond_Zopp s r
  | _ => 0
  end.

(** [M_PI] and [M_PI_2] of [<cmath>]: the doubles nearest to pi and pi/2. *)
Definition M_PI : double := S754_finite false 7074237752028440 (-51).
Definition M_PI_2 : double := S754_finite false 7074237752028440 (-52).

(** [static constexpr float DELTA_THETA = M_PI / 12.0f]. *)
Definition DELTA_THETA : float := to_float (F64.div M_PI (to_double (F32.of_Z 12))).

(** ** Data model *)

(** [Line] (Hesse normal form) and [Point] (a corner in pixel space), as
    [PuzzleFinder.cpp] builds them: [{theta,rho}] and [{x,y}]. *)
Record Line := mkLine { theta : float; rho : float }.
Record Point := mkPoint { Point_x : float; Point_y : float }.

(** [Image], through the members [PuzzleFinder.cpp] uses: [width * height]
    pixels of 3 bytes; the first two bytes of a pixel are its vote count,
    read as an [unsigned short] (little endian). *)
Record Image := mkImage { width : Z; height : Z; data : list byte }.

Definition byte_at (d : list byte) (i : Z) : Z :=
  Z.of_N (Byte.to_N (nth (Z.to_nat i) d x00)).

(** [*reinterpret_cast<const unsigned short*>(&data[index])]; a read past
    the end of the buffer, undefined in the source, yields zero bytes. *)
Definition read_ushort (d : list byte) (index : Z) : Z :=
  byte_at d index + 256 * byte_at d (index + 1).

(** The external functions [PuzzleFinder.cpp] calls: [hypotf] and [cos]
    of the C library, [std::sort], and the helpers of [Geometry.h]. *)
Class Libm := {
  hypotf : float -> float -> float;
  cos : float -> spec_float
}.

Class Geometry := {
  MeanTheta : list Line -> float;
  DifferenceTheta : float -> float -> float;
  (** [IntersectLines(line1,line2,x,y)]: [x] and [y] are in-out references. *)
  IntersectLines : Line -> Line -> float * float -> float * float
}.

Class StdSort := {
  std_sort : (Line -> Line -> bool) -> list Line -> list Line
}.

(** ** FindLines *)

Section FindLines.
Context {libm : Libm}.

Definition radius_of (img : Image) : Z :=
  Z.min 1 (lround (F32.div (F32.of_Z (Z.max (width img) (height img))) (F32.of_Z 96))).

(** The vote of pixel number [x], as the scan for the maximum reads it. *)
Definition pixel_vote (img : Image) (x : Z) : Z :=
  let index := u32 (x * 3) in
  read_ushort (data img) index.

Definition maximumValue_of (img : Image) : Z :=
  fold_left (fun maximumValue x => Z.max maximumValue (pixel_vote img x))
            (range (u32 (width img * height img))) 0.

Definition minimumValue_of (img : Image) : Z :=
  u16 (maximumValue_of img * 3 / 4).

Definition ExtractValue (img : Image) (x y : Z) : Z :=
  if (width img <=? x) || (height img <=? y) then 0
  else
    let index := u32 ((y * width img + x) * 3) in
    read_ushort (data img) index.

(** [for(int n = -radius; n < radius + 1; n++)]. *)
Definition window (radius : Z) : list Z :=
  map (fun k => - radius + k) (range (2 * radius + 1)).

(** The two neighbourhood loops: [peak] stays true unless some neighbour
    other than the pixel itself reads a value above the pixel's. *)
Definition is_peak (img : Image) (x y : Z) : bool :=
  let radius := radius_of img in
  let value := ExtractValue img x y in
  forallb (fun ny =>
    forallb (fun nx =>
      if (nx =? 0) && (ny =? 0) then true
      else negb (value <? ExtractValue img (u32 (s32 x + nx)) (u32 (s32 y + ny))))
      (window radius))
    (window radius).

Definition raw_theta (img : Image) (x : Z) : float :=
  to_float (F64.mul (to_double (F32.div (F32.of_Z x) (F32.of_Z (width img)))) M_PI).

Definition raw_rho (targetWidth targetHeight : Z) (img : Image) (y : Z) : float :=
  let rMultiplier := F32.div (F32.of_Z (height img)) (F32.of_Z 2) in
  let maxR := hypotf (F32.of_Z targetWidth) (F32.of_Z targetHeight) in
  F32.div (F32.mul (F32.sub (F32.of_Z y) rMultiplier) maxR) rMultiplier.

(** "Make sure rho is always in a positive form". *)
Definition normalize_line (theta0 rho0 : float) : Line :=
  if flt rho0 F32.zero
  then mkLine (fmodf (to_float (F64.add (to_double theta0) M_PI))
                     (to_float (F64.mul (F64.of_Z 2) M_PI)))
              (F32.mul rho0 (F32.of_Z (-1)))
  else mkLine theta0 rho0.

Definition line_of_peak (targetWidth targetHeight : Z) (img : Image) (x y : Z) : Line :=
  normalize_line (raw_theta img x) (raw_rho targetWidth targetHeight img y).

(** The body of the scan at pixel [(x,y)]. *)
Definition scan_pixel (targetWidth targetHeight : Z) (img : Image)
           (minimumValue y : Z) (lines : list Line) (x : Z) : list Line :=
  let value := ExtractValue img x y in
  if value <? minimumValue then lines
  else if is_peak img x y
       then lines ++ [line_of_peak targetWidth targetHeight img x y]
       else lines.

Definition FindLines (targetWidth targetHeight : Z) (img : Image)
           (lines : list Line) : list Line :=
  let lines := @nil Line in
  let minimumValue := minimumValue_of img in
  if minimumValue =? 0 then lines
  else
    fold_left (fun lines y =>
      fold_left (scan_pixel targetWidth targetHeight img minimumValue y)
                (range (width img)) lines)
      (range (height img)) lines.
End FindLines.

(** ** ClusterizeLinesByTheta *)

Section Clusterize.
Context {geometry : Geometry}.

(** The angle-flipped twin: [{fmod(theta + M_PI, 2.0f * M_PI), rho * -1.0f}]. *)
Definition alternativeTheta_of (theta0 : float) : float :=
  to_float (fmod (F64.add (to_double theta0) M_PI)
                 (F64.mul (to_double (F32.of_Z 2)) M_PI)).

Definition twin (line : Line) : Line :=
  mkLine (alternativeTheta_of (theta line)) (F32.mul (rho line) (F32.of_Z (-1))).

(** The search for an existing cluster; [None] is [foundCluster == false]. *)
Fixpoint find_cluster (line : Line) (lineClusters : list (list Line))
  : option (list (list Line)) :=
  match lineClusters with
  | [] => None
  | lineCluster :: rest =>
      let meanTheta := MeanTheta lineCluster in
      if flt (DifferenceTheta (theta line) meanTheta) DELTA_THETA
      then Some ((lineCluster ++ [line]) :: rest)
      else if flt (DifferenceTheta (alternativeTheta_of (theta line)) meanTheta) DELTA_THETA
      then Some ((lineCluster ++ [twin line]) :: rest)
      else option_map (cons lineCluster) (find_cluster line rest)
  end.

Definition cluster_line (lineClusters : list (list Line)) (line : Line)
  : list (list Line) :=
  match find_cluster line lineClusters with
  | Some lineClusters' => lineClusters'
  | None => lineClusters ++ [[line]]
  end.

Definition ClusterizeLinesByTheta (lines : list Line)
           (lineClusters : list (list Line)) : list (list Line) :=
  let lineClusters := @nil (list Line) in
  fold_left cluster_line lines lineClusters.
End Clusterize.

(** ** FindPossiblePuzzleLines *)

Definition DELTA_THRESHOLD : float := F32.of_Z 15.

Definition default_Line : Line := mkLine F32.zero F32.zero.

(** [lineCluster[i]]; an index past the end is undefined in the source. *)
Definition at_index (l : list Line) (i : Z) : Line := nth (Z.to_nat i) l default_Line.

(** [__builtin_popcount] of a 32-bit value. *)
Definition popcount (x : Z) : Z :=
  fold_right (fun i count => Z.b2z (Z.testbit x i) + count) 0 (range 32).

(** The loop of [GetSetBitIndexes] from bit [x] on, with [outputIndex]
    indexes already written: it stops once four are found. *)
Fixpoint set_bits_from (value : Z) (xs : list Z) (outputIndex : nat) : list Z :=
  match xs with
  | [] => []
  | x :: xs' =>
      if (outputIndex <? 4)%nat
      then if Z.testbit value x
           then x :: set_bits_from value xs' (S outputIndex)
           else set_bits_from value xs' outputIndex
      else []
  end.

(** The indexes of the first four set bits, lowest first. *)
Definition GetSetBitIndexes (value : Z) : list Z :=
  set_bits_from value (range 32) 0.

Definition combination (lineCluster : list Line) (x : Z) : list Line :=
  let indexes := GetSetBitIndexes x in
  map (fun k => at_index lineCluster (nth k indexes 0)) [0; 1; 2; 3]%nat.

Definition range_of (c : list Line) : float :=
  F32.sub (rho (at_index c 3)) (rho (at_index c 0)).

Definition evenly_spaced (c : list Line) : bool :=
  let line0 := at_index c 0 in
  let line1 := at_index c 1 in
  let line2 := at_index c 2 in
  let line3 := at_index c 3 in
  let range := F32.sub (rho line3) (rho line0) in
  let mean := F32.div range (F32.of_Z 3) in
  let delta0 := F32.sub (rho line1) (rho line0) in
  let delta1 := F32.sub (rho line2) (rho line1) in
  let delta2 := F32.sub (rho line3) (rho line2) in
  flt (fabsf (F32.sub delta0 mean)) DELTA_THRESHOLD &&
  flt (fabsf (F32.sub delta1 mean)) DELTA_THRESHOLD &&
  flt (fabsf (F32.sub delta2 mean)) DELTA_THRESHOLD.

(** One iteration of the subset loop; the state is
    [(largestEvenlySpacedLinesRange, largestEvenlySpacedLines)]. *)
Definition subset_step (lineCluster : list Line) (x : Z)
           (st : float * list Line) : float * list Line :=
  if negb (popcount x =? 4) then st
  else
    let c := combination lineCluster x in
    let range := range_of c in
    if flt range (fst st) then st
    else if evenly_spaced c then (range, c) else st.

(** [for(unsigned int x = first; x < first + n; x++)] over the state. *)
Fixpoint subset_loop (lineCluster : list Line) (n : nat) (x : Z)
         (st : float * list Line) : float * list Line :=
  match n with
  | O => st
  | S n' => subset_loop lineCluster n' (x + 1) (subset_step lineCluster x st)
  end.

Definition finalSubset_of (size : Z) : Z := u32 (15 * 2 ^ (size - 4)).

Definition search_cluster (lineCluster : list Line) : float * list Line :=
  subset_loop lineCluster (Z.to_nat (finalSubset_of (Z.of_nat (length lineCluster)) + 1))
              0 (F32.zero, []).

(** The body of the loop over the clusters: the axis it appends, if any. *)
Definition candidate_axis (lineCluster : list Line) : list (list Line) :=
  let size := Z.of_nat (length lineCluster) in
  if size <? 4 then []
  else if 32 <? size then []
  else
    let largestEvenlySpacedLines := snd (search_cluster lineCluster) in
    match largestEvenlySpacedLines with
    | [] => []
    | _ => [largestEvenlySpacedLines]
    end.

Definition search_clusters (lineClusters : list (list Line)) : list (list Line) :=
  fold_left (fun possiblePuzzleLineClusters lineCluster =>
               possiblePuzzleLineClusters ++ candidate_axis lineCluster)
            lineClusters [].

Definition by_abs_rho (lhs rhs : Line) : bool := flt (fabsf (rho lhs)) (fabsf (rho rhs)).

Section FindPossiblePuzzleLines.
Context {sorter : StdSort}.

Definition sort_clusters (lineClusters : list (list Line)) : list (list Line) :=
  map (std_sort by_abs_rho) lineClusters.

(** Returns the clusters as sorted in place, and the candidate axes. *)
Definition FindPossiblePuzzleLines (lineClusters : list (list Line))
           (possiblePuzzleLineClusters : list (list Line))
  : list (list Line) * list (list Line) :=
  let lineClusters := sort_clusters lineClusters in
  (lineClusters, search_clusters lineClusters).
End FindPossiblePuzzleLines.

(** ** FindPuzzles *)

Section FindPuzzles.
Context {libm : Libm} {geometry : Geometry}.

Definition axis_theta (lines : list Line) : float := theta (at_index lines 0).

Definition orthogonal (theta0 theta1 : float) : bool :=
  flt (fabsf (F32.sub (to_float M_PI_2) (DifferenceTheta theta0 theta1))) DELTA_THETA.

Definition order_pair (lines0 lines1 : list Line) : list Line * list Line :=
  if fgt (cos (axis_theta lines0)) (cos (axis_theta lines1))
  then (lines0, lines1) else (lines1, lines0).

Definition axis_at (l : list (list Line)) (i : Z) : list Line := nth (Z.to_nat i) l [].

Definition FindPuzzles (possiblePuzzleLineClusters : list (list Line))
           (puzzleLines : list (list Line * list Line))
  : list (list Line * list Line) :=
  let puzzleLines := @nil (list Line * list Line) in
  let size := Z.of_nat (length possiblePuzzleLineClusters) in
  if size <? 2 then puzzleLines
  else
    fold_left (fun puzzleLines y =>
      let lines0 := axis_at possiblePuzzleLineClusters y in
      let theta0 := axis_theta lines0 in
      fold_left (fun puzzleLines x =>
        let lines1 := axis_at possiblePuzzleLineClusters x in
        let theta1 := axis_theta lines1 in
        if orthogonal theta0 theta1
        then puzzleLines ++ [order_pair lines0 lines1]
        else puzzleLines)
        (map (fun k => y + 1 + k) (range (size - (y + 1)))) puzzleLines)
      (range size) puzzleLines.
End FindPuzzles.

(** ** PuzzleFinder::Find *)

(** The scratch buffers the detector keeps between calls. *)
Record PuzzleFinder := mkPuzzleFinder {
  lines : list Line;
  lineClusters : list (list Line);
  possiblePuzzleLineClusters : list (list Line);
  puzzleLines : list (list Line * list Line)
}.

Section Find.
Context {libm : Libm} {geometry : Geometry} {sorter : StdSort}.

(** [IntersectLines] on coordinates that start as [0.0f], and the point
    pushed. *)
Definition corner (line1 line2 : Line) : Point :=
  let intersection := IntersectLines line1 line2 (F32.zero, F32.zero) in
  let intersectionX := fst intersection in
  let intersectionY := snd intersection in
  mkPoint intersectionX intersectionY.

(** The four corners: [y] over the second axis, [x] over the first. *)
Definition corners (puzzleLines1 puzzleLines2 : list Line) (puzzlePoints : list Point)
  : list Point :=
  fold_left (fun puzzlePoints y =>
    fold_left (fun puzzlePoints x =>
      puzzlePoints ++ [corner (at_index puzzleLines1 x) (at_index puzzleLines2 y)])
      [0; 3] puzzlePoints)
    [0; 3] puzzlePoints.

(** The four stages, each filling its scratch buffer. *)
Definition run_stages (self : PuzzleFinder) (targetWidth targetHeight : Z)
           (houghTransformFrame : Image) : PuzzleFinder :=
  let lines' := FindLines targetWidth targetHeight houghTransformFrame (lines self) in
  let lineClusters' := ClusterizeLinesByTheta lines' (lineClusters self) in
  let found := FindPossiblePuzzleLines lineClusters' (possiblePuzzleLineClusters self) in
  let puzzleLines' := FindPuzzles (snd found) (puzzleLines self) in
  mkPuzzleFinder lines' (fst found) (snd found) puzzleLines'.

(** Returns the result, the detector with its buffers as the call leaves
    them, and the caller's point list. *)
Definition Find (self : PuzzleFinder) (targetWidth targetHeight : Z)
           (houghTransformFrame : Image) (puzzlePoints : list Point)
  : bool * PuzzleFinder * list Point :=
  let self' := run_stages self targetWidth targetHeight houghTransformFrame in
  match puzzleLines self' with
  | [] => (false, self', puzzlePoints)
  | puzzle :: _ =>
      let puzzleLines1 := fst puzzle in
      let puzzleLines2 := snd puzzle in
      let puzzlePoints := @nil Point in
      (true, self', corners puzzleLines1 puzzleLines2 puzzlePoints)
  end.
End Find.

(** ** Reference instances of the external functions

    Used to run the model on concrete inputs. *)

Module Reference.

(** [hypotf]: the correctly rounded square root of the exact sum of squares. *)
Definition hypotf_exact (x y : float) : float :=
  match x, y with
  | S754_infinity _, _ | _, S754_infinity _ => S754_infinity false
  | S754_nan, _ | _, S754_nan => S754_nan
  | S754_zero _, _ => SFabs y
  | _, S754_zero _ => SFabs x
  | S754_finite _ mx ex, S754_finite _ my ey =>
      let e := Z.min ex ey in
      let X := Zpos mx * 2 ^ (ex - e) in
      let Y := Zpos my * 2 ^ (ey - e) in
      match X * X + Y * Y with
      | Zpos m => SFsqrt F32.prec F32.emax (S754_finite false m (2 * e))
      | _ => S754_nan
      end
  end.

(** A finite float as the fraction [n / 2 ^ k]. *)
Definition fraction (s : bool) (m : positive) (e : Z) : Z * Z :=
  if 0 <=? e then (cond_Zopp s (Zpos m * 2 ^ e), 0) else (cond_Zopp s (Zpos m), - e).

(** The sum of [c_j * x ^ j / j!] for [j = first, first + 2, ...] ([terms]
    of them, signs alternating), as a numerator over [fact * 2 ^ (k * last)]. *)
Fixpoint series (terms : nat) (n k : Z) (j : Z) (sign : Z) (last : Z) (num den : Z) : Z * Z :=
  match terms with
  | O => (num, den)
  | S t =>
      (* den is j'! for the previous exponent j'; move to j *)
      let den' := if j <=? 1 then den else den * j * (j - 1) in
      let num' := (if j <=? 1 then num else num * j * (j - 1))
                  + sign * n ^ j * 2 ^ (k * (last - j)) in
      series t n k (j + 2) (- sign) last num' den'
  end.

Definition quotient (num den : Z) (k last : Z) : spec_float :=
  match num, den with
  | Z0, _ => S754_zero false
  | Zpos a, Zpos b => SFdiv F32.prec F32.emax (S754_finite false a (- (k * last))) (S754_finite false b 0)
  | Zneg a, Zpos b => SFdiv F32.prec F32.emax (S754_finite true a (- (k * last))) (S754_finite false b 0)
  | _, _ => S754_nan
  end.

(** [cos] and [sin]: 24 terms of the Maclaurin series, summed exactly and
    rounded once. *)
Definition cos_series (x : float) : spec_float :=
  match x with
  | S754_zero _ => F32.of_Z 1
  | S754_finite s m e =>
      let '(n, k) := fraction s m e in
      let '(num, den) := series 24 n k 0 1 46 0 1 in
      quotient num den k 46
  | _ => S754_nan
  end.

Definition sin_series (x : float) : spec_float :=
  match x with
  | S754_zero _ => x
  | S754_finite s m e =>
      let '(n, k) := fraction s m e in
      let '(num, den) := series 24 n k 1 1 47 0 1 in
      quotient num den k 47
  | _ => S754_nan
  end.

#[export] Instance libm : Libm := {| hypotf := hypotf_exact; cos := cos_series |}.

(** [std::sort]: a stable insertion sort. *)
Fixpoint insert (lt : Line -> Line -> bool) (x : Line) (l : list Line) : list Line :=
  match l with
  | [] => [x]
  | y :: l' => if lt x y then x :: l else y :: insert lt x l'
  end.

Definition insertion_sort (lt : Line -> Line -> bool) (l : list Line) : list Line :=
  fold_left (fun acc x => insert lt x acc) l [].

#[export] Instance sorter : StdSort := {| std_sort := insertion_sort |}.

(** Modelled from the spec: the helpers of [Geometry.h], which is not among
    the sources. [MeanTheta] is "the arithmetic mean of its members'
    thetas (no circular-wraparound correction)". *)
Definition mean_theta (lines : list Line) : float :=
  F32.div (fold_left (fun sum line => F32.add sum (theta line)) lines F32.zero)
          (F32.of_Z (Z.of_nat (length lines))).

(** Modelled from the spec: "circularAngleDistance(a, b) -> float in [0, pi]". *)
Definition difference_theta (theta1 theta2 : float) : float :=
  let twoPi := to_float (F64.mul (F64.of_Z 2) M_PI) in
  let difference := fmodf (fabsf (F32.sub theta1 theta2)) twoPi in
  if fgt difference (to_float M_PI) then F32.sub twoPi difference else difference.

(** Modelled from the spec: "Intersection of two Hesse-normal-form lines is
    a closed-form linear solve"; parallel lines leave [x] and [y] alone. *)
Definition intersect_lines (line1 line2 : Line) (xy : float * float) : float * float :=
  let c1 := cos_series (theta line1) in
  let s1 := sin_series (theta line1) in
  let c2 := cos_series (theta line2) in
  let s2 := sin_series (theta line2) in
  let determinant := F32.sub (F32.mul c1 s2) (F32.mul s1 c2) in
  if SFeqb determinant F32.zero then xy
  else (F32.div (F32.sub (F32.mul (rho line1) s2) (F32.mul (rho line2) s1)) determinant,
        F32.div (F32.sub (F32.mul (rho line2) c1) (F32.mul (rho line1) c2)) determinant).

#[export] Instance geometry : Geometry :=
  {| MeanTheta := mean_theta; DifferenceTheta := difference_theta;
     IntersectLines := intersect_lines |}.

End Reference.

(** * The cached puzzle solver *)

(** ** Game: the 9 by 9 grid *)

Module Game.
Definition WIDTH : Z := 9.
Definition HEIGHT : Z := 9.
Definition MAX_VALUE : Z := 9.
Definition EMPTY_VALUE : Z := 0.

(** The [state] member: the cells, row by row, as [Index] numbers them. *)
Record t := mk { state : list Z }.

Definition Index (x y : Z) : Z := y * WIDTH + x.

(** [std::fill(state.begin(),state.end(),EMPTY_VALUE)]. *)
Definition Clear (game : t) : t := mk (map (fun _ => EMPTY_VALUE) (state game)).

(** [Game::Game() : state() { Clear(); }], over the [state] member as
    [state()] leaves it. *)
Definition construct (state0 : list Z) : t := Clear (mk state0).

(** Modelled from the spec: the cells of a new game. The specification has
    "a 9x9 grid of digits 0-9 (0 = empty)", that is [WIDTH * HEIGHT] cells,
    the cells 0 to 80 that [Game.cpp] indexes. The [Game.h] among the
    sources declares [std::vector<unsigned char> state] instead, which
    [state()] leaves without any cell: with that header every [Set] and
    [Get] inside the grid would fall outside the vector. The properties
    that need the number of cells take it as a hypothesis. *)
Definition create : t := construct (repeat 0 (Z.to_nat (WIDTH * HEIGHT))).

Fixpoint store (l : list Z) (i : nat) (value : Z) : list Z :=
  match l, i with
  | [], _ => []
  | _ :: l', O => value :: l'
  | v :: l', S i' => v :: store l' i' value
  end.

Definition Set_ (game : t) (x y value : Z) : bool * t :=
  if (WIDTH <=? x) || (HEIGHT <=? y) || (MAX_VALUE <? value) then (false, game)
  else (true, mk (store (state game) (Z.to_nat (Index x y)) value)).

Definition Get (game : t) (x y : Z) : Z :=
  if (WIDTH <=? x) || (HEIGHT <=? y) then EMPTY_VALUE
  else nth (Z.to_nat (Index x y)) (state game) 0.
End Game.

(** ** Reads of a vector that may fall outside it *)

(** A computation that reads [std::vector] elements with [operator[]]:
    either it read past the end (undefined behaviour in the source) or it
    finished with a value. *)
Inductive outcome (A : Type) : Type :=
| OutOfBounds : outcome A
| Done : A -> outcome A.
Arguments OutOfBounds {A}.
Arguments Done {A} _.

Definition bind {A B : Type} (m : outcome A) (k : A -> outcome B) : outcome B :=
  match m with
  | OutOfBounds => OutOfBounds
  | Done a => k a
  end.

(** [digits[index]]. *)
Definition element (digits : list Z) (index : Z) : outcome Z :=
  match nth_error digits (Z.to_nat index) with
  | Some digit => Done digit
  | None => OutOfBounds
  end.

(** ** DigitsToGame and CachedPuzzleSolver::Solve *)

(** The inner loop of [DigitsToGame]: row [y]. *)
Definition store_row (digits : list Z) (y : Z) (xs : list Z) (game : outcome Game.t)
  : outcome Game.t :=
  fold_left (fun game x =>
    let index := y * 9 + x in
    bind game (fun game =>
    bind (element digits index) (fun digit =>
    Done (snd (Game.Set_ game x y digit)))))
    xs game.

Definition DigitsToGame (digits : list Z) : outcome Game.t :=
  fold_left (fun game y => store_row digits y (range 9) game)
            (range 9) (Done Game.create).

(** [Solvable] and [Solve] of [Solve.h]; [Solve] fills the game in place. *)
Class Solver := {
  Solvable : Game.t -> bool;
  Solve : Game.t -> bool * Game.t
}.

(** [solvedPuzzles] is the map from digits to solutions, [lastUsedSolution]
    the entry used last, if any. *)
Record CachedPuzzleSolver := mkCachedPuzzleSolver {
  solvedPuzzles : list (list Z * list Z);
  lastUsedSolution : option (list Z * list Z)
}.

Definition digits_eqb (a b : list Z) : bool :=
  if list_eq_dec Z.eq_dec a b then true else false.

(** [solvedPuzzles.find(digits)]. *)
Definition find_solved (digits : list Z) (solved : list (list Z * list Z))
  : option (list Z * list Z) :=
  find (fun entry => digits_eqb (fst entry) digits) solved.

(** [std::accumulate] with a lambda whose accumulator is an [unsigned char]. *)
Definition count_nonZeroDigits (digits : list Z) : Z :=
  fold_left (fun previous digit => previous mod 256 + (if 0 <? digit then 1 else 0))
            digits 0.

(** The cells of a solved game, row by row. *)
Definition cells (game : Game.t) : list Z :=
  fold_left (fun solution y =>
    fold_left (fun solution x => solution ++ [Game.Get game x y]) (range 9) solution)
    (range 9) [].

Section CachedSolve.
Context {solver : Solver}.

(** Returns the result, the solver with its cache, and [solution]. *)
Definition CachedPuzzleSolver_Solve (self : CachedPuzzleSolver)
           (digits : list Z) (solution : list Z)
  : outcome (bool * CachedPuzzleSolver * list Z) :=
  bind (DigitsToGame digits) (fun game =>
  if negb (Z.of_nat (length digits) =? 81) then Done (false, self, solution)
  else if existsb (fun digit => 9 <? digit) digits then Done (false, self, solution)
  else if negb (Solvable game) then Done (false, self, solution)
  else
    let nonZeroDigits := count_nonZeroDigits digits in
    if nonZeroDigits <? 21 then Done (false, self, solution)
    else
      match find_solved digits (solvedPuzzles self) with
      | Some entry =>
          Done (true, mkCachedPuzzleSolver (solvedPuzzles self) (Some entry), snd entry)
      | None =>
          let solved := Solve game in
          if negb (fst solved) then Done (false, self, solution)
          else
            let solution := cells (snd solved) in
            let entry := (digits, solution) in
            Done (true,
                  mkCachedPuzzleSolver (solvedPuzzles self ++ [entry]) (Some entry),
                  solution)
      end).
End CachedSolve.

(** [CachedPuzzleSolver::CachedPuzzleSolver()]: nothing is solved yet and
    [lastUsedSolution] is [solvedPuzzles.end()]. *)
Definition CachedPuzzleSolver_new : CachedPuzzleSolver :=
  mkCachedPuzzleSolver [] None.

(** [CachedPuzzleSolver::GetLastUsedSolution]: the result and [solution]. *)
Definition GetLastUsedSolution (self : CachedPuzzleSolver) (solution : list Z)
  : bool * list Z :=
  match lastUsedSolution self with
  | None => (false, solution)
  | Some entry => (true, snd entry)
  end.

(** ** Concrete inputs *)

(** A pixel holding [vote]: two bytes of vote, one unused byte. *)
Definition byte_of (z : Z) : byte :=
  match Byte.of_N (Z.to_N (z mod 256)) with Some b => b | None => x00 end.

Definition pixel (vote : Z) : list byte :=
  [byte_of vote; byte_of (vote / 256); x00].

Definition image_of_votes (w h : Z) (votes : list Z) : Image :=
  mkImage w h (flat_map pixel votes).

(** A blank accumulator of 192 by 96 pixels. *)
Definition blank_192x96 : Image := image_of_votes 192 96 (repeat 0 (192 * 96)).

(** Two pixels with votes 2 and 1. *)
Definition votes_2_1 : Image := image_of_votes 2 1 [2; 1].

(** 48 pixels in a row, the first two with the same vote. *)
Definition plateau_48x1 : Image := image_of_votes 48 1 ([4; 4] ++ repeat 0 46).

(** Four pixels, a single vote at [(1,0)]. *)
Definition single_peak_2x2 : Image := image_of_votes 2 2 [0; 4; 0; 0].

(** Lines at 0, 29, 31, 60 and 90 pixels: two evenly spaced combinations
    of the same range 90. *)
Definition tied_cluster : list Line :=
  map (fun r => mkLine F32.zero (F32.of_Z r)) [0; 29; 31; 60; 90].

(** Two axes of four lines, at angles 0 and pi/2. *)
Definition axis_0 : list Line :=
  map (fun r => mkLine F32.zero (F32.of_Z r)) [10; 40; 70; 100].
Definition axis_90 : list Line :=
  map (fun r => mkLine (to_float M_PI_2) (F32.of_Z r)) [10; 40; 70; 100].

(** An accumulator of 2 by 50 pixels with eight peaks: at angle 0 and at
    angle pi/2, rows 26, 29, 32 and 35 (rho 10, 40, 70 and 100 for a
    target of 150 by 200). *)
Definition planted_grid : Image :=
  image_of_votes 2 50
    (flat_map (fun y => if existsb (Z.eqb y) [26; 29; 32; 35] then [9; 9] else [0; 0])
              (range 50)).

(** Four pixels without a vote. *)
Definition blank_2x2 : Image := image_of_votes 2 2 [0; 0; 0; 0].

(** A detector whose buffers are empty. *)
Definition fresh : PuzzleFinder := mkPuzzleFinder [] [] [] [].

(** A detector whose buffers hold the remains of an earlier call. *)
Definition used : PuzzleFinder :=
  mkPuzzleFinder tied_cluster [tied_cluster; axis_0] [axis_90] [(axis_0, axis_90)].

(** A grid without an empty cell, row by row. *)
Definition full_grid : list Z :=
  [5; 3; 4; 6; 7; 8; 9; 1; 2;
   6; 7; 2; 1; 9; 5; 3; 4; 8;
   1; 9; 8; 3; 4; 2; 5; 6; 7;
   8; 5; 9; 7; 6; 1; 4; 2; 3;
   4; 2; 6; 8; 5; 3; 7; 9; 1;
   7; 1; 3; 9; 2; 4; 8; 5; 6;
   9; 6; 1; 5; 3; 7; 2; 8; 4;
   2; 8; 7; 4; 1; 9; 6; 3; 5;
   3; 4; 5; 2; 8; 6; 1; 7; 9].

(** A solver to run the model with: every grid passes its feasibility
    check, and it completes only the grids that have no empty cell, which
    it leaves as they are. *)
Definition solver_of_full_grids : Solver :=
  {| Solvable := fun _ => true;
     Solve := fun game => (forallb (fun v => 0 <? v) (Game.state game), game) |}.


(** * The vocabulary of the statements *)

(** ** Order on floats *)

Definition is_nan (x : spec_float) : bool :=
  match x with S754_nan => true | _ => false end.

(** [x <= y] and [x >= y] as the hardware compares them. *)
Definition fle (x y : spec_float) : bool := SFleb x y.
Definition fge (x y : spec_float) : bool := SFleb y x.

(** [r] is a number (not a NaN) of sign [s]. *)
Definition has_sign (s : bool) (r : spec_float) : Prop :=
  match r with
  | S754_zero s' | S754_infinity s' | S754_finite s' _ _ => s' = s
  | S754_nan => False
  end.

(** ** Peaks, radius and angles *)

Section Emitted.
Context {libm : Libm}.

(** What the scan appends at pixel [(x,y)]. *)
Definition emitted (targetWidth targetHeight : Z) (img : Image)
           (minimumValue y x : Z) : list Line :=
  if ExtractValue img x y <? minimumValue then []
  else if is_peak img x y then [line_of_peak targetWidth targetHeight img x y]
       else [].
End Emitted.

(** The radius as the specification words it, for comparison with [radius_of]:
    "Neighborhood radius = max(1, round(max(imgW, imgH) / 96))". *)
Definition radius_per_spec (img : Image) : Z :=
  Z.max 1 (lround (F32.div (F32.of_Z (Z.max (width img) (height img))) (F32.of_Z 96))).

(** The vote at integer coordinates, 0 outside the image. *)
Definition vote_or_zero (img : Image) (X Y : Z) : Z :=
  if (0 <=? X) && (X <? width img) && (0 <=? Y) && (Y <? height img)
  then ExtractValue img X Y else 0.

(** [theta] lies in the half-turn [[0, pi)]. *)
Definition in_half_turn (t : float) : bool :=
  fle F32.zero t && flt t (to_float M_PI).

(** A [float] that is not subnormal and whose exponent is far from the
    ends of the range: a finite one has a mantissa of 24 digits. *)
Definition normal_float (t : float) : Prop :=
  match t with
  | S754_finite _ m e => 2 ^ 23 <= Zpos m < 2 ^ 24 /\ -100 <= e <= 100
  | _ => True
  end.

(** [theta] lies in the other half-turn, [[pi, 2 pi)]. *)
Definition in_second_half_turn (t : float) : bool :=
  fle (to_float M_PI) t && flt t (to_float (F64.mul (F64.of_Z 2) M_PI)).

(** ** Placing a line in the clusters *)

Section Placing.
Context {geometry : Geometry}.

(** [t] is within [DELTA_THETA] of the mean angle of [lineCluster]. *)
Definition near (t : float) (lineCluster : list Line) : bool :=
  flt (DifferenceTheta t (MeanTheta lineCluster)) DELTA_THETA.

(** What placing one line does to the clusters: the first cluster (in
    creation order) that the line or its twin is near gets one more member,
    the line itself if it is near, its twin otherwise; with no such cluster
    a new singleton cluster is added at the end. *)
Inductive placed (line : Line) (clusters clusters' : list (list Line)) : Prop :=
| placed_in_cluster (before : list (list Line)) (c : list Line)
                    (after : list (list Line)) (member : Line) :
    clusters = before ++ c :: after ->
    clusters' = before ++ (c ++ [member]) :: after ->
    (forall c0, In c0 before ->
                near (theta line) c0 = false /\
                near (alternativeTheta_of (theta line)) c0 = false) ->
    (member = line /\ near (theta line) c = true \/
     member = twin line /\ near (theta line) c = false /\
     near (alternativeTheta_of (theta line)) c = true) ->
    placed line clusters clusters'
| placed_alone :
    (forall c0, In c0 clusters ->
                near (theta line) c0 = false /\
                near (alternativeTheta_of (theta line)) c0 = false) ->
    clusters' = clusters ++ [[line]] ->
    placed line clusters clusters'.
End Placing.

(** Every member of the cluster [c] is one of [lines] or the twin of one,
    and its first member is one of [lines] itself. *)
Definition drawn_from (lines : list Line) (c : list Line) : Prop :=
  (exists first rest, c = first :: rest /\ In first lines) /\
  forall member, In member c ->
                 exists line, In line lines /\ (member = line \/ member = twin line).

(** ** Combinations of four lines *)

(** The bit pattern [x] stands for a combination that is evenly spaced. *)
Definition accepted (lineCluster : list Line) (x : Z) : bool :=
  (popcount x =? 4) && evenly_spaced (combination lineCluster x).

(** The range of the combination that [x] stands for. *)
Definition range_at (lineCluster : list Line) (x : Z) : float :=
  range_of (combination lineCluster x).

(** The state of the subset loop once the patterns below [k] are done:
    nothing kept and every evenly spaced combination so far has a negative
    range; or the combination of some [x0] kept, whose range is not below
    that of any evenly spaced combination so far, and is above that of
    every evenly spaced combination met after [x0]. *)
Definition searched (lineCluster : list Line) (k : Z) (st : float * list Line) : Prop :=
  (st = (F32.zero, []) /\
   forall x, 0 <= x < k -> accepted lineCluster x = true ->
             flt (range_at lineCluster x) F32.zero = true)
  \/
  (exists x0, 0 <= x0 < k /\ accepted lineCluster x0 = true /\
     st = (range_at lineCluster x0, combination lineCluster x0) /\
     flt (range_at lineCluster x0) F32.zero = false /\
     forall x, 0 <= x < k -> accepted lineCluster x = true ->
       fle (range_at lineCluster x) (range_at lineCluster x0) = true /\
       (x0 < x -> flt (range_at lineCluster x) (range_at lineCluster x0) = true)).

(** Strictly increasing lists of integers. *)
Fixpoint increasing (l : list Z) : Prop :=
  match l with
  | [] => True
  | x :: l' => (forall y, In y l' -> x < y) /\ increasing l'
  end.

(** The bit pattern of four indexes. *)
Definition pattern (i0 i1 i2 i3 : Z) : Z := 2 ^ i0 + 2 ^ i1 + 2 ^ i2 + 2 ^ i3.

(** The lines of a cluster at four indexes. *)
Definition lines_at (lineCluster : list Line) (i0 i1 i2 i3 : Z) : list Line :=
  [at_index lineCluster i0; at_index lineCluster i1;
   at_index lineCluster i2; at_index lineCluster i3].

(** Four increasing indexes into a cluster of [n] lines. *)
Definition chosen (n i0 i1 i2 i3 : Z) : Prop :=
  0 <= i0 < i1 /\ i1 < i2 /\ i2 < i3 /\ i3 < n.

(** No pixel of the accumulator holds a vote. *)
Definition all_zero_votes (img : Image) : Prop :=
  forall i, 0 <= i < u32 (width img * height img) -> pixel_vote img i = 0.

(** ** Grids and the cache *)

(** A game of [WIDTH * HEIGHT] cells. *)
Definition full_size (game : Game.t) : Prop :=
  length (Game.state game) = 81%nat.

(** The cell a digit leaves: [Game::Set] refuses a digit above [MAX_VALUE],
    and the cell stays empty. *)
Definition cell_of_digit (digit : Z) : Z := if 9 <? digit then 0 else digit.

(** The two loops of [DigitsToGame], over the game that [Game game;]
    constructed. *)
Definition store_digits (digits : list Z) (game : Game.t) : outcome Game.t :=
  fold_left (fun game y => store_row digits y (range 9) game) (range 9) (Done game).

(** The body of the two loops of [DigitsToGame] at cell number [index],
    which is cell [(index mod 9, index / 9)]. *)
Definition store_cell (digits : list Z) (game : outcome Game.t) (index : Z)
  : outcome Game.t :=
  bind game (fun game =>
  bind (element digits index) (fun digit =>
  Done (snd (Game.Set_ game (index mod 9) (index / 9) digit)))).

(** The digits that pass the checks of [CachedPuzzleSolver::Solve]. *)
Definition checked_digits (digits : list Z) : Prop :=
  length digits = 81%nat /\
  (forall digit, In digit digits -> digit <= 9) /\
  21 <= count_nonZeroDigits digits.


(** * Properties *)

(** ** Order on floats: lemmas *)

Ltac cases_compare :=
  repeat match goal with
  | |- context [Z.compare ?a ?b] => destruct (Z.compare_spec a b)
  | |- context [Pos.compare_cont Eq ?a ?b] =>
      change (Pos.compare_cont Eq a b) with (Pos.compare a b);
      destruct (Pos.compare_spec a b)
  | H : context [Z.compare ?a ?b] |- _ => destruct (Z.compare_spec a b)
  | H : context [Pos.compare_cont Eq ?a ?b] |- _ =>
      change (Pos.compare_cont Eq a b) with (Pos.compare a b) in H;
      destruct (Pos.compare_spec a b)
  end.

Lemma flt_not_nan (x y : spec_float) :
  flt x y = true -> is_nan x = false /\ is_nan y = false.
Proof. destruct x, y; cbn; intuition congruence. Qed.

Lemma flt_fle (x y : spec_float) : flt x y = true -> fle x y = true.
Proof. unfold flt, fle, SFltb, SFleb. destruct (SFcompare x y) as [[]|]; congruence. Qed.

(** Without a NaN, [not (x < y)] is [y <= x]. *)
Lemma not_flt_fle (x y : spec_float) :
  is_nan x = false -> is_nan y = false -> flt x y = false -> fle y x = true.
Proof.
  unfold flt, fle, SFltb, SFleb.
  destruct x as [[]|[]| |[] mx ex], y as [[]|[]| |[] my ey]; simpl;
    try congruence; intros _ _;
    cases_compare; simpl; subst; try congruence; try lia.
Qed.

Lemma fle_flt_false (x y : spec_float) : fle y x = true -> flt x y = false.
Proof.
  unfold flt, fle, SFltb, SFleb.
  destruct x as [[]|[]| |[] mx ex], y as [[]|[]| |[] my ey]; simpl;
    try congruence;
    cases_compare; simpl; subst; try congruence; try lia.
Qed.

Lemma fle_refl (x : spec_float) : is_nan x = false -> fle x x = true.
Proof.
  unfold fle, SFleb.
  destruct x as [[]|[]| |[] mx ex]; simpl; try congruence; intros _;
    rewrite Z.compare_refl;
    change (Pos.compare_cont Eq mx mx) with (Pos.compare mx mx);
    rewrite Pos.compare_refl; reflexivity.
Qed.

Lemma fle_trans (x y z : spec_float) :
  fle x y = true -> fle y z = true -> fle x z = true.
Proof.
  unfold fle, SFleb.
  destruct x as [[]|[]| |[] mx ex], y as [[]|[]| |[] my ey], z as [[]|[]| |[] mz ez];
    simpl; try congruence;
    cases_compare; simpl; subst; try congruence; try lia.
Qed.

Lemma flt_fle_trans (x y z : spec_float) :
  flt x y = true -> fle y z = true -> flt x z = true.
Proof.
  unfold flt, fle, SFltb, SFleb.
  destruct x as [[]|[]| |[] mx ex], y as [[]|[]| |[] my ey], z as [[]|[]| |[] mz ez];
    simpl; try congruence;
    cases_compare; simpl; subst; try congruence; try lia.
Qed.

(** ** Rounding never invents a sign or a NaN *)

Lemma shr_1_nonneg (mrs : shr_record) : 0 <= shr_m mrs -> 0 <= shr_m (shr_1 mrs).
Proof.
  destruct mrs as [m r s]; simpl.
  destruct m as [|[p|p|]|[p|p|]]; simpl; lia.
Qed.

Lemma iter_shr_1_nonneg (p : positive) :
  forall mrs, 0 <= shr_m mrs -> 0 <= shr_m (iter_pos shr_1 p mrs).
Proof.
  induction p as [p IH|p IH|]; simpl; intros mrs Hm.
  - apply IH, IH, shr_1_nonneg, Hm.
  - apply IH, IH, Hm.
  - apply shr_1_nonneg, Hm.
Qed.

Lemma shr_nonneg (mrs : shr_record) (e n : Z) :
  0 <= shr_m mrs -> 0 <= shr_m (fst (shr mrs e n)).
Proof.
  intros Hm. destruct n as [|p|p]; simpl; auto using iter_shr_1_nonneg.
Qed.

Lemma shr_fexp_nonneg (prec emax m e : Z) (l : location) :
  0 <= m -> 0 <= shr_m (fst (shr_fexp prec emax m e l)).
Proof.
  intros Hm. unfold shr_fexp. apply shr_nonneg.
  destruct l as [|[]]; simpl; exact Hm.
Qed.

Lemma round_nearest_even_nonneg (m : Z) (l : location) :
  0 <= m -> 0 <= round_nearest_even m l.
Proof.
  intros Hm. destruct l as [|[]]; simpl; try lia.
  destruct (Z.even m); lia.
Qed.

Lemma binary_round_aux_sign (prec emax : Z) (sx : bool) (mx ex : Z) (lx : location) :
  0 <= mx -> has_sign sx (binary_round_aux prec emax sx mx ex lx).
Proof.
  intros Hm. unfold binary_round_aux.
  pose proof (shr_fexp_nonneg prec emax mx ex lx Hm) as H1.
  destruct (shr_fexp prec emax mx ex lx) as [mrs' e']; simpl in H1.
  pose proof (shr_fexp_nonneg prec emax _ e' loc_Exact
                (round_nearest_even_nonneg _ (loc_of_shr_record mrs') H1)) as H2.
  destruct (shr_fexp prec emax (round_nearest_even (shr_m mrs') (loc_of_shr_record mrs')) e' loc_Exact)
    as [mrs'' e'']; simpl in H2.
  destruct (shr_m mrs'') as [|m|m]; simpl; try reflexivity; try lia.
  destruct (e'' <=? emax - prec); reflexivity.
Qed.

Lemma has_sign_false_not_negative (r : spec_float) :
  has_sign false r -> flt r F32.zero = false /\ fle F32.zero r = true.
Proof. destruct r as [s|s| |s m e]; simpl; intros Hs; subst; try tauto; split; reflexivity. Qed.

(** [rho *= -1.0f] on a negative [rho] gives a number that is not negative. *)
Lemma negated_negative (r : float) :
  flt r F32.zero = true -> has_sign false (F32.mul r (F32.of_Z (-1))).
Proof.
  destruct r as [s|s| |s m e]; cbn; try discriminate.
  - destruct s; [reflexivity | discriminate].
  - destruct s; [intros _ | discriminate].
    apply (binary_round_aux_sign F32.prec F32.emax false). lia.
Qed.

(** ** Loops as list functions *)

Lemma in_range (n x : Z) : In x (range n) <-> 0 <= x < n.
Proof.
  unfold range. rewrite in_map_iff. split.
  - intros (k & <- & Hk). apply in_seq in Hk. lia.
  - intros Hx. exists (Z.to_nat x). split; [lia | apply in_seq; lia].
Qed.

Lemma in_window (r n : Z) : In n (window r) <-> - r <= n <= r.
Proof.
  unfold window. rewrite in_map_iff. split.
  - intros (k & <- & Hk). apply in_range in Hk. lia.
  - intros Hn. exists (n + r). split; [lia | apply in_range; lia].
Qed.

Lemma fold_left_append {A B : Type} (f : B -> list A) (l : list B) :
  forall init, fold_left (fun acc x => acc ++ f x) l init = init ++ flat_map f l.
Proof.
  induction l as [|b l IH]; simpl; intros init.
  - now rewrite app_nil_r.
  - now rewrite IH, app_assoc.
Qed.

Lemma fold_left_ext_in {A B : Type} (f g : A -> B -> A) (l : list B) :
  (forall a b, In b l -> f a b = g a b) ->
  forall init, fold_left f l init = fold_left g l init.
Proof.
  induction l as [|b l IH]; simpl; intros Hfg init; [reflexivity|].
  rewrite Hfg by auto. apply IH. intros; apply Hfg; auto.
Qed.

Lemma fold_left_max_ge (f : Z -> Z) (l : list Z) :
  forall a, a <= fold_left (fun m x => Z.max m (f x)) l a.
Proof.
  induction l as [|x l IH]; simpl; intros a; [lia|].
  specialize (IH (Z.max a (f x))). lia.
Qed.

Lemma fold_left_max_upper (f : Z -> Z) (l : list Z) :
  forall a x, In x l -> f x <= fold_left (fun m x => Z.max m (f x)) l a.
Proof.
  induction l as [|y l IH]; simpl; intros a x Hx; [tauto|].
  destruct Hx as [->|Hx]; [|now apply IH].
  pose proof (fold_left_max_ge f l (Z.max a (f x))). lia.
Qed.

Lemma fold_left_max_attained (f : Z -> Z) (l : list Z) :
  forall a, fold_left (fun m x => Z.max m (f x)) l a = a \/
            exists x, In x l /\ fold_left (fun m x => Z.max m (f x)) l a = f x.
Proof.
  induction l as [|y l IH]; simpl; intros a; [now left|].
  destruct (IH (Z.max a (f y))) as [E|(x & Hx & E)].
  - destruct (Z.max_spec a (f y)) as [[_ M]|[_ M]]; rewrite M in E |- *.
    + right. exists y. auto.
    + now left.
  - right. exists x. auto.
Qed.

(** ** The accumulator *)

Lemma byte_at_bounds (d : list byte) (i : Z) : 0 <= byte_at d i <= 255.
Proof.
  unfold byte_at. pose proof (Byte.to_N_bounded (nth (Z.to_nat i) d x00)). lia.
Qed.

Lemma read_ushort_bounds (d : list byte) (i : Z) : 0 <= read_ushort d i <= 65535.
Proof.
  unfold read_ushort.
  pose proof (byte_at_bounds d i). pose proof (byte_at_bounds d (i + 1)). lia.
Qed.

Lemma maximumValue_bounds (img : Image) : 0 <= maximumValue_of img <= 65535.
Proof.
  unfold maximumValue_of. split; [apply fold_left_max_ge|].
  destruct (fold_left_max_attained (pixel_vote img) (range (u32 (width img * height img))) 0)
    as [E|(x & _ & E)]; rewrite E; [lia|].
  apply read_ushort_bounds.
Qed.

Lemma minimumValue_floor (img : Image) :
  minimumValue_of img = maximumValue_of img * 3 / 4.
Proof.
  unfold minimumValue_of, u16. pose proof (maximumValue_bounds img).
  apply Z.mod_small. split.
  - apply Z.div_pos; lia.
  - apply Z.div_lt_upper_bound; lia.
Qed.

Lemma radius_le_1 (img : Image) : radius_of img <= 1.
Proof. unfold radius_of. lia. Qed.

Lemma lround_nonneg (x : spec_float) : has_sign false x -> 0 <= lround x.
Proof.
  destruct x as [s|s| |s m e]; unfold lround; intros Hs; try lia.
  simpl in Hs. subst s. unfold cond_Zopp.
  destruct (Z.leb_spec 0 e).
  - apply Z.mul_nonneg_nonneg; [lia|]. apply Z.pow_nonneg. lia.
  - apply Z.div_pos.
    + assert (0 <= 2 ^ (- e)) by (apply Z.pow_nonneg; lia). lia.
    + apply Z.pow_pos_nonneg; lia.
Qed.

Lemma of_Z_sign (z : Z) : 0 <= z -> has_sign false (F32.of_Z z).
Proof.
  intros Hz. unfold F32.of_Z, binary_normalize.
  destruct z as [|p|p]; [reflexivity | | lia].
  unfold binary_round.
  destruct (shl_align p 0 (fexp F32.prec F32.emax (Z.pos (digits2_pos p) + 0))) as [mz ez].
  apply binary_round_aux_sign. lia.
Qed.

Lemma div_sign (x : float) (m : positive) (e : Z) :
  has_sign false x -> has_sign false (F32.div x (S754_finite false m e)).
Proof.
  destruct x as [s|s| |s mx ex]; simpl; intros Hs; subst; try reflexivity; try contradiction.
  unfold F32.div, SFdiv.
  destruct (SFdiv_core_binary F32.prec F32.emax (Z.pos mx) ex (Z.pos m) e)
    as [[mz ez] lz] eqn:E.
  apply binary_round_aux_sign. unfold SFdiv_core_binary in E.
  match type of E with
  | (let '(q, r) := Z.div_eucl ?a ?b in _) = _ =>
      assert (Ha : 0 <= a);
      [| pose proof (Z.div_pos a b Ha ltac:(lia)) as Hq; unfold Z.div in Hq;
         destruct (Z.div_eucl a b) as [q r]; injection E as <- _ _; exact Hq]
  end.
  destruct (ex - e - _) as [|p|p]; try lia.
  apply Z.shiftl_nonneg. lia.
Qed.

Lemma radius_nonneg (img : Image) :
  0 <= width img -> 0 <= height img -> 0 <= radius_of img.
Proof.
  intros Hw Hh. unfold radius_of. apply Z.min_glb; [lia|].
  apply lround_nonneg.
  change (F32.of_Z 96) with (S754_finite false 12582912 (-17)).
  apply div_sign, of_Z_sign. lia.
Qed.

(** ** FindLines: which pixels become lines *)

Section FindLinesFacts.
Context {libm : Libm}.

Lemma scan_pixel_emitted tw th img minimumValue y lines x :
  scan_pixel tw th img minimumValue y lines x
  = lines ++ emitted tw th img minimumValue y x.
Proof.
  unfold scan_pixel, emitted.
  destruct (ExtractValue img x y <? minimumValue); [now rewrite app_nil_r|].
  destruct (is_peak img x y); [reflexivity | now rewrite app_nil_r].
Qed.

Lemma FindLines_flat_map tw th img lines0 :
  FindLines tw th img lines0 =
  if minimumValue_of img =? 0 then []
  else flat_map (fun y => flat_map (emitted tw th img (minimumValue_of img) y)
                                   (range (width img)))
                (range (height img)).
Proof.
  unfold FindLines. destruct (minimumValue_of img =? 0); [reflexivity|].
  rewrite <- (app_nil_l (flat_map _ _)), <- fold_left_append.
  apply fold_left_ext_in. intros acc y _.
  rewrite <- fold_left_append.
  apply fold_left_ext_in. intros acc' x _. apply scan_pixel_emitted.
Qed.

Lemma In_FindLines tw th img lines0 line :
  In line (FindLines tw th img lines0) <->
  minimumValue_of img <> 0 /\
  exists x y, 0 <= x < width img /\ 0 <= y < height img /\
              minimumValue_of img <= ExtractValue img x y /\
              is_peak img x y = true /\
              line = line_of_peak tw th img x y.
Proof.
  rewrite FindLines_flat_map.
  destruct (Z.eqb_spec (minimumValue_of img) 0) as [E|E].
  - simpl. split; [tauto | intros [A _]; contradiction].
  - rewrite in_flat_map. split.
    + intros (y & Hy & Hin). apply in_flat_map in Hin as (x & Hx & Hin).
      apply in_range in Hy, Hx. unfold emitted in Hin.
      destruct (Z.ltb_spec (ExtractValue img x y) (minimumValue_of img)); [destruct Hin|].
      destruct (is_peak img x y) eqn:P; [|destruct Hin].
      destruct Hin as [<-|[]]. split; [exact E|]. exists x, y. auto.
    + intros (_ & x & y & Hx & Hy & Hv & P & ->).
      exists y. split; [now apply in_range|].
      apply in_flat_map. exists x. split; [now apply in_range|].
      unfold emitted.
      destruct (Z.ltb_spec (ExtractValue img x y) (minimumValue_of img)); [lia|].
      rewrite P. now left.
Qed.
End FindLinesFacts.

(** ** C3: the neighbourhood radius *)

(** C3. The source takes [std::min(1l, lround(...))]: on a 192 by 96
    accumulator the radius is 1 where the specified [max(1, round(192/96))]
    is 2, and every accumulator gets the radius 0 or 1. *)
Theorem radius_of_capped_at_one :
  radius_of blank_192x96 = 1 /\
  radius_per_spec blank_192x96 = 2 /\
  (forall img : Image, radius_of img <= 1) /\
  (forall img : Image, 0 <= width img -> 0 <= height img -> 0 <= radius_of img).
Proof.
  split; [unfold radius_of; cbn [width height blank_192x96 image_of_votes];
          vm_compute; reflexivity|].
  split; [unfold radius_per_spec; cbn [width height blank_192x96 image_of_votes];
          vm_compute; reflexivity|].
  split; [exact radius_le_1 | exact radius_nonneg].
Qed.

(** ** C5: the acceptance threshold *)

Section Threshold.
Context {libm : Libm}.

(** C5, as the code has it. [maximumValue_of] is the largest vote of the
    accumulator; the threshold is [floor (3 * V_max / 4)] in integer
    arithmetic; when that is 0 (so in particular when [V_max = 0]) no line
    is returned; otherwise the returned lines are those of the peaks whose
    vote is at least the threshold. *)
Theorem threshold_is_floor_of_three_quarters
        (targetWidth targetHeight : Z) (img : Image) (lines0 : list Line) :
  (forall i, 0 <= i < u32 (width img * height img) ->
             pixel_vote img i <= maximumValue_of img) /\
  (maximumValue_of img = 0 \/
   exists i, 0 <= i < u32 (width img * height img) /\
             pixel_vote img i = maximumValue_of img) /\
  minimumValue_of img = maximumValue_of img * 3 / 4 /\
  (maximumValue_of img = 0 -> FindLines targetWidth targetHeight img lines0 = []) /\
  (maximumValue_of img * 3 / 4 = 0 ->
   FindLines targetWidth targetHeight img lines0 = []) /\
  (forall line,
      In line (FindLines targetWidth targetHeight img lines0) <->
      maximumValue_of img * 3 / 4 <> 0 /\
      exists x y, 0 <= x < width img /\ 0 <= y < height img /\
                  maximumValue_of img * 3 / 4 <= ExtractValue img x y /\
                  is_peak img x y = true /\
                  line = line_of_peak targetWidth targetHeight img x y).
Proof.
  assert (Hzero : maximumValue_of img * 3 / 4 = 0 ->
                  FindLines targetWidth targetHeight img lines0 = []).
  { intros E. unfold FindLines. rewrite minimumValue_floor, E. reflexivity. }
  split; [|split; [|split; [|split; [|split]]]].
  - intros i Hi. unfold maximumValue_of.
    apply (fold_left_max_upper (pixel_vote img)). now apply in_range.
  - unfold maximumValue_of.
    destruct (fold_left_max_attained (pixel_vote img)
                (range (u32 (width img * height img))) 0) as [E|(i & Hi & E)].
    + now left.
    + right. exists i. split; [now apply in_range | now rewrite E].
  - apply minimumValue_floor.
  - intros E. apply Hzero. now rewrite E.
  - exact Hzero.
  - intros line. rewrite In_FindLines, minimumValue_floor. reflexivity.
Qed.
End Threshold.

(** The threshold facts on a blank accumulator, where the maximum is 0. *)
Lemma threshold_is_floor_of_three_quarters_witness :
  FindLines (libm := Reference.libm) 300 400 blank_2x2 [] = [].
Proof.
  apply (proj1 (proj2 (proj2 (proj2 (threshold_is_floor_of_three_quarters
                  (libm := Reference.libm) 300 400 blank_2x2 []))))).
  vm_compute. reflexivity.
Defined.

(** C5, counterexample. With votes 2 and 1 the maximum is 2 and the
    threshold is 1, not 1.5: the pixel with vote 1 is below three quarters
    of the maximum and still becomes a line. *)
Lemma threshold_is_not_three_quarters :
  maximumValue_of votes_2_1 = 2 /\
  minimumValue_of votes_2_1 = 1 /\
  4 * minimumValue_of votes_2_1 <> 3 * maximumValue_of votes_2_1 /\
  ExtractValue votes_2_1 1 0 = 1 /\
  4 * ExtractValue votes_2_1 1 0 < 3 * maximumValue_of votes_2_1 /\
  In (line_of_peak (libm := Reference.libm) 3 4 votes_2_1 1 0)
     (FindLines (libm := Reference.libm) 3 4 votes_2_1 []).
Proof.
  split; [vm_compute; reflexivity|].
  split; [vm_compute; reflexivity|].
  split; [vm_compute; congruence|].
  split; [vm_compute; reflexivity|].
  split; [vm_compute; reflexivity|].
  vm_compute. right. left. reflexivity.
Qed.

(** ** C4: which pixels are peaks *)

(** Reading a neighbour through the two casts: a coordinate below 0 wraps
    to a huge unsigned value and reads 0, like any coordinate past the edge. *)
Lemma neighbour_read (img : Image) (x y nx ny : Z) :
  0 <= x < width img -> 0 <= y < height img ->
  width img <= 2 ^ 31 -> height img <= 2 ^ 31 ->
  -1 <= nx <= 1 -> -1 <= ny <= 1 ->
  ExtractValue img (u32 (s32 x + nx)) (u32 (s32 y + ny))
  = vote_or_zero img (x + nx) (y + ny).
Proof.
  intros Hx Hy Hw Hh Hnx Hny.
  assert (Hs : forall v n w, 0 <= v < w -> w <= 2 ^ 31 -> -1 <= n <= 1 ->
                 (v + n < 0 /\ u32 (s32 v + n) = 2 ^ 32 - 1) \/
                 (0 <= v + n /\ u32 (s32 v + n) = v + n)).
  { intros v n w Hv Hw' Hn. unfold s32, u32.
    destruct (Z.ltb_spec v (2 ^ 31)); [|lia].
    destruct (Z_lt_le_dec (v + n) 0) as [Hneg|Hpos].
    - left. split; [lia|]. replace (v + n) with (-1) by lia. reflexivity.
    - right. split; [lia|]. apply Z.mod_small. lia. }
  unfold vote_or_zero, ExtractValue.
  destruct (Hs x nx _ Hx Hw Hnx) as [[Hx1 ->]|[Hx1 ->]];
    destruct (Hs y ny _ Hy Hh Hny) as [[Hy1 ->]|[Hy1 ->]];
    repeat match goal with
           | |- context [Z.leb ?a ?b] => destruct (Z.leb_spec a b); try lia
           | |- context [Z.ltb ?a ?b] => destruct (Z.ltb_spec a b); try lia
           end; simpl; try reflexivity.
Qed.

(** C4, as the code has it. A pixel is a peak iff no neighbour within the
    square radius, the pixel itself apart, has a strictly greater vote
    (neighbours outside the image count as 0): a neighbour with an equal
    vote does not stop it from being a peak. *)
Theorem peak_iff_no_greater_neighbour (img : Image) (x y : Z) :
  0 <= x < width img -> 0 <= y < height img ->
  width img <= 2 ^ 31 -> height img <= 2 ^ 31 ->
  (is_peak img x y = true <->
   forall nx ny,
     - radius_of img <= nx <= radius_of img ->
     - radius_of img <= ny <= radius_of img ->
     ~ (nx = 0 /\ ny = 0) ->
     vote_or_zero img (x + nx) (y + ny) <= ExtractValue img x y).
Proof.
  intros Hx Hy Hw Hh. pose proof (radius_le_1 img) as Hr.
  unfold is_peak. rewrite forallb_forall. split.
  - intros Hall nx ny Hnx Hny Hne.
    specialize (Hall ny (proj2 (in_window _ _) Hny)).
    rewrite forallb_forall in Hall.
    specialize (Hall nx (proj2 (in_window _ _) Hnx)).
    destruct (Z.eqb_spec nx 0) as [Ex|Ex]; destruct (Z.eqb_spec ny 0) as [Ey|Ey];
      simpl in Hall; try tauto;
      rewrite neighbour_read in Hall by lia;
      apply negb_true_iff, Z.ltb_ge in Hall; exact Hall.
  - intros Hall ny Hny. apply forallb_forall. intros nx Hnx.
    apply in_window in Hny, Hnx.
    destruct (Z.eqb_spec nx 0) as [Ex|Ex]; destruct (Z.eqb_spec ny 0) as [Ey|Ey];
      simpl; try reflexivity;
      rewrite neighbour_read by lia;
      apply negb_true_iff, Z.ltb_ge, Hall; lia.
Qed.

(** The characterisation at the first pixel of [plateau_48x1]. *)
Lemma peak_iff_no_greater_neighbour_witness :
  is_peak plateau_48x1 0 0 = true <->
  forall nx ny,
    - radius_of plateau_48x1 <= nx <= radius_of plateau_48x1 ->
    - radius_of plateau_48x1 <= ny <= radius_of plateau_48x1 ->
    ~ (nx = 0 /\ ny = 0) ->
    vote_or_zero plateau_48x1 (0 + nx) (0 + ny) <= ExtractValue plateau_48x1 0 0.
Proof.
  apply (peak_iff_no_greater_neighbour plateau_48x1 0 0);
    vm_compute; intuition congruence.
Defined.

(** C4, counterexample. In [plateau_48x1] the radius is 1 and the first two
    pixels hold the same vote, at the threshold or above; the first pixel is
    a peak although its right neighbour is not strictly smaller. *)
Lemma equal_neighbour_is_still_a_peak :
  radius_of plateau_48x1 = 1 /\
  minimumValue_of plateau_48x1 <= ExtractValue plateau_48x1 0 0 /\
  vote_or_zero plateau_48x1 (0 + 1) (0 + 0) = ExtractValue plateau_48x1 0 0 /\
  is_peak plateau_48x1 0 0 = true /\
  is_peak plateau_48x1 1 0 = true.
Proof.
  split; [vm_compute; reflexivity|].
  split; [vm_compute; congruence|].
  split; [vm_compute; reflexivity|].
  split; vm_compute; reflexivity.
Qed.

(** ** Rounding to nearest: the mantissa kept and the bits dropped *)

Lemma digits2_pos_bounds (p : positive) :
  2 ^ (Zpos (digits2_pos p) - 1) <= Zpos p < 2 ^ Zpos (digits2_pos p).
Proof.
  induction p as [p IH|p IH|]; cbn [digits2_pos].
  - rewrite Pos2Z.inj_succ. change (Zpos p~1) with (2 * Zpos p + 1).
    replace (Z.succ (Zpos (digits2_pos p)) - 1) with (Z.succ (Zpos (digits2_pos p) - 1)) by lia.
    rewrite !Z.pow_succ_r by lia.
    set (a := 2 ^ (Zpos (digits2_pos p) - 1)) in *.
    set (b := 2 ^ Zpos (digits2_pos p)) in *. clearbody a b. lia.
  - rewrite Pos2Z.inj_succ. change (Zpos p~0) with (2 * Zpos p).
    replace (Z.succ (Zpos (digits2_pos p)) - 1) with (Z.succ (Zpos (digits2_pos p) - 1)) by lia.
    rewrite !Z.pow_succ_r by lia.
    set (a := 2 ^ (Zpos (digits2_pos p) - 1)) in *.
    set (b := 2 ^ Zpos (digits2_pos p)) in *. clearbody a b. lia.
  - cbn. lia.
Qed.

Lemma Zdigits2_bounds (m : Z) :
  0 < m -> 0 < Zdigits2 m /\ 2 ^ (Zdigits2 m - 1) <= m < 2 ^ Zdigits2 m.
Proof.
  destruct m as [|p|p]; try lia. intros _. cbn [Zdigits2].
  split; [lia|apply digits2_pos_bounds].
Qed.

Lemma digits_unique (m k : Z) :
  0 < m -> 2 ^ (k - 1) <= m < 2 ^ k -> Zdigits2 m = k.
Proof.
  intros Hm Hk. destruct (Zdigits2_bounds m Hm) as [Hd Hb].
  assert (0 < k).
  { destruct (Z.lt_trichotomy k 0) as [H|[H|H]]; [|subst k; cbn in Hk; lia|exact H].
    rewrite (Z.pow_neg_r 2 k H) in Hk. lia. }
  destruct (Z.lt_trichotomy (Zdigits2 m) k) as [H1|[H1|H1]]; [|exact H1|].
  - assert (2 ^ Zdigits2 m <= 2 ^ (k - 1)) by (apply Z.pow_le_mono_r; lia). lia.
  - assert (2 ^ k <= 2 ^ (Zdigits2 m - 1)) by (apply Z.pow_le_mono_r; lia). lia.
Qed.

Lemma shr_1_spec (mrs : shr_record) :
  0 <= shr_m mrs ->
  shr_m (shr_1 mrs) = shr_m mrs / 2 /\
  shr_r (shr_1 mrs) = Z.odd (shr_m mrs) /\
  shr_s (shr_1 mrs) = shr_r mrs || shr_s mrs.
Proof.
  destruct mrs as [m r s]. cbn [shr_m shr_r shr_s]. intros Hm.
  destruct m as [|p|p]; [| |lia].
  - cbn. auto.
  - destruct p as [p|p|]; cbn [shr_1 shr_m shr_r shr_s].
    + split; [|split; reflexivity].
      change (Zpos p~1) with (2 * Zpos p + 1).
      apply (Z.div_unique _ _ _ 1); lia.
    + split; [|split; reflexivity].
      change (Zpos p~0) with (2 * Zpos p).
      apply (Z.div_unique _ _ _ 0); lia.
    + split; [|split]; reflexivity.
Qed.

Lemma iter_pos_nat {A : Type} (f : A -> A) (p : positive) :
  forall x, iter_pos f p x = Nat.iter (Pos.to_nat p) f x.
Proof.
  induction p as [p IH|p IH|]; intros x; cbn [iter_pos].
  - rewrite !IH. change (f x) with (Nat.iter 1 f x).
    rewrite <- !Nat.iter_add. f_equal. lia.
  - rewrite !IH. rewrite <- Nat.iter_add. f_equal. lia.
  - reflexivity.
Qed.

Lemma low_bits_zero (m a : Z) :
  0 < a ->
  (m mod (a * 2) =? 0) = negb (Z.odd (m / a)) && (m mod a =? 0).
Proof.
  intros Ha. rewrite Z.rem_mul_r by lia.
  pose proof (Z.mod_pos_bound m a Ha) as Hr.
  pose proof (Z.mod_pos_bound (m / a) 2 ltac:(lia)) as Hq.
  rewrite <- Z.negb_even, negb_involutive.
  rewrite (Zmod_even (m / a)) in Hq |- *.
  destruct (Z.even (m / a)); cbn [andb].
  - rewrite Z.mul_0_r, Z.add_0_r. reflexivity.
  - apply Z.eqb_neq. lia.
Qed.

Lemma shr_iter_spec (mrs : shr_record) (n : nat) :
  0 <= shr_m mrs ->
  shr_m (Nat.iter (S n) shr_1 mrs) = shr_m mrs / 2 ^ Z.of_nat (S n) /\
  shr_r (Nat.iter (S n) shr_1 mrs) = Z.odd (shr_m mrs / 2 ^ Z.of_nat n) /\
  shr_s (Nat.iter (S n) shr_1 mrs)
  = negb (shr_m mrs mod 2 ^ Z.of_nat n =? 0) || (shr_r mrs || shr_s mrs).
Proof.
  intros Hm. induction n as [|n IH].
  - change (Nat.iter 1 shr_1 mrs) with (shr_1 mrs).
    destruct (shr_1_spec mrs Hm) as (E1 & E2 & E3).
    rewrite E1, E2, E3. change (2 ^ Z.of_nat 1) with 2. change (2 ^ Z.of_nat 0) with 1.
    rewrite Z.div_1_r, Z.mod_1_r. auto.
  - destruct IH as (I1 & I2 & I3).
    change (Nat.iter (S (S n)) shr_1 mrs) with (shr_1 (Nat.iter (S n) shr_1 mrs)).
    assert (H0 : 0 <= shr_m (Nat.iter (S n) shr_1 mrs)).
    { rewrite I1. apply Z.div_pos; [exact Hm|]. apply Z.pow_pos_nonneg; lia. }
    destruct (shr_1_spec _ H0) as (E1 & E2 & E3).
    rewrite E1, E2, E3, I1, I2, I3.
    assert (Hp : 0 < 2 ^ Z.of_nat n) by (apply Z.pow_pos_nonneg; lia).
    assert (Hp' : 0 < 2 ^ Z.of_nat (S n)) by (apply Z.pow_pos_nonneg; lia).
    split; [|split; [reflexivity|]].
    + rewrite Z.div_div by lia. f_equal.
      rewrite (Nat2Z.inj_succ (S n)), Z.pow_succ_r by lia. lia.
    + rewrite (Nat2Z.inj_succ n), Z.pow_succ_r by lia.
      rewrite (Z.mul_comm 2), low_bits_zero by exact Hp.
      destruct (Z.odd (shr_m mrs / 2 ^ Z.of_nat n));
        destruct (shr_m mrs mod 2 ^ Z.of_nat n =? 0);
        destruct (shr_r mrs); destruct (shr_s mrs); reflexivity.
Qed.

Section RoundToNearest.
Variables prec emax : Z.
Hypothesis Hprec : 1 < prec.
Hypothesis Hemax : prec < emax.

Lemma fexp_normal (e : Z) : emin prec emax <= e - prec -> fexp prec emax e = e - prec.
Proof. unfold fexp. lia. Qed.

(** The first shift of [binary_round_aux], on a mantissa of at least [prec]
    digits in the normal range: the mantissa kept, the round bit and the
    sticky bit. *)
Lemma first_shift (mx ex : Z) (lx : location) :
  0 < mx -> prec <= Zdigits2 mx ->
  emin prec emax <= Zdigits2 mx + ex - prec ->
  exists r s,
    shr_fexp prec emax mx ex lx
    = (Build_shr_record (mx / 2 ^ (Zdigits2 mx - prec)) r s, Zdigits2 mx + ex - prec) /\
    (Zdigits2 mx = prec -> shr_record_of_loc mx lx = Build_shr_record mx r s) /\
    (prec < Zdigits2 mx ->
     r = Z.odd (mx / 2 ^ (Zdigits2 mx - prec - 1)) /\
     (mx mod 2 ^ (Zdigits2 mx - prec - 1) <> 0 -> s = true) /\
     (lx = loc_Exact -> mx mod 2 ^ (Zdigits2 mx - prec - 1) = 0 -> s = false)).
Proof.
  intros Hmx Hd Hmin. set (d := Zdigits2 mx) in *.
  unfold shr_fexp. fold d. rewrite fexp_normal by lia.
  replace (d + ex - prec - ex) with (d - prec) by lia.
  destruct (d - prec) as [|p|p] eqn:En; [| |lia].
  - exists (shr_r (shr_record_of_loc mx lx)), (shr_s (shr_record_of_loc mx lx)).
    cbn [shr]. rewrite Z.div_1_r.
    assert (Em : shr_m (shr_record_of_loc mx lx) = mx) by (destruct lx as [|[]]; reflexivity).
    split; [|split].
    + f_equal; [|lia]. destruct (shr_record_of_loc mx lx) as [m r s].
      cbn [shr_m shr_r shr_s] in *. rewrite Em. reflexivity.
    + intros _. destruct (shr_record_of_loc mx lx) as [m r s].
      cbn [shr_m shr_r shr_s] in *. rewrite Em. reflexivity.
    + intros Hlt. lia.
  - cbn [shr]. rewrite iter_pos_nat.
    destruct (Pos2Nat.is_succ p) as [n En'].
    rewrite En'.
    assert (Em : shr_m (shr_record_of_loc mx lx) = mx) by (destruct lx as [|[]]; reflexivity).
    destruct (shr_iter_spec (shr_record_of_loc mx lx) n ltac:(rewrite Em; lia))
      as (I1 & I2 & I3).
    rewrite Em in I1, I2, I3.
    assert (Esn : Z.of_nat (S n) = Zpos p) by (rewrite <- En'; apply positive_nat_Z).
    assert (En0 : Z.of_nat n = Zpos p - 1) by lia.
    rewrite Esn in I1. rewrite En0 in I2, I3.
    replace (d - prec - 1) with (Zpos p - 1) by lia.
    exists (shr_r (Nat.iter (S n) shr_1 (shr_record_of_loc mx lx))),
           (shr_s (Nat.iter (S n) shr_1 (shr_record_of_loc mx lx))).
    split; [|split].
    + f_equal; [|lia].
      destruct (Nat.iter (S n) shr_1 (shr_record_of_loc mx lx)) as [m r s].
      cbn [shr_m shr_r shr_s] in *. rewrite I1. reflexivity.
    + intros E. lia.
    + intros _. split; [exact I2|]. rewrite I3. split.
      * intros Hne. apply Z.eqb_neq in Hne. rewrite Hne. reflexivity.
      * intros -> Hz. apply Z.eqb_eq in Hz. rewrite Hz. reflexivity.
Qed.

Lemma kept_mantissa_bounds (mx : Z) :
  0 < mx -> prec <= Zdigits2 mx ->
  2 ^ (prec - 1) <= mx / 2 ^ (Zdigits2 mx - prec) < 2 ^ prec.
Proof.
  intros Hmx Hd. destruct (Zdigits2_bounds mx Hmx) as [_ Hb].
  set (d := Zdigits2 mx) in *.
  assert (Hp : 0 < 2 ^ (d - prec)) by (apply Z.pow_pos_nonneg; lia).
  split.
  - apply Z.div_le_lower_bound; [exact Hp|].
    rewrite <- Z.pow_add_r by lia. replace (d - prec + (prec - 1)) with (d - 1) by lia.
    apply Hb.
  - apply Z.div_lt_upper_bound; [exact Hp|].
    rewrite <- Z.pow_add_r by lia. replace (d - prec + prec) with d by lia.
    apply Hb.
Qed.

Lemma round_nearest_even_cases (m : Z) (r s : bool) :
  (round_nearest_even m (loc_of_shr_record (Build_shr_record m r s)) = m /\
   (r = false \/ (s = false /\ Z.even m = true)))
  \/
  (round_nearest_even m (loc_of_shr_record (Build_shr_record m r s)) = m + 1 /\
   r = true /\ (s = true \/ Z.even m = false)).
Proof.
  destruct r, s; cbn [loc_of_shr_record round_nearest_even]; auto.
  destruct (Z.even m); auto.
Qed.

(** The second shift of [binary_round_aux]: nothing, or one bit when the
    rounded mantissa reached [2 ^ prec]. *)
Lemma second_shift (sx : bool) (m2 e1 : Z) :
  2 ^ (prec - 1) <= m2 <= 2 ^ prec ->
  emin prec emax <= e1 -> e1 + 1 <= emax - prec ->
  (m2 < 2 ^ prec /\
   (let '(mrs'', e'') := shr_fexp prec emax m2 e1 loc_Exact in
    match shr_m mrs'' with
    | Z0 => S754_zero sx
    | Zpos m => if e'' <=? emax - prec then S754_finite sx m e'' else S754_infinity sx
    | Zneg _ => S754_nan
    end) = S754_finite sx (Z.to_pos m2) e1)
  \/
  (m2 = 2 ^ prec /\
   (let '(mrs'', e'') := shr_fexp prec emax m2 e1 loc_Exact in
    match shr_m mrs'' with
    | Z0 => S754_zero sx
    | Zpos m => if e'' <=? emax - prec then S754_finite sx m e'' else S754_infinity sx
    | Zneg _ => S754_nan
    end) = S754_finite sx (Z.to_pos (2 ^ (prec - 1))) (e1 + 1)).
Proof.
  intros Hm2 Hmin Hmax.
  assert (Hpos : 0 < 2 ^ (prec - 1)) by (apply Z.pow_pos_nonneg; lia).
  assert (Hdouble : 2 ^ prec = 2 * 2 ^ (prec - 1)).
  { replace prec with (Z.succ (prec - 1)) at 1 by lia. apply Z.pow_succ_r. lia. }
  destruct (Z.eq_dec m2 (2 ^ prec)) as [E|Hne].
  - right. split; [exact E|].
    assert (Ed : Zdigits2 m2 = prec + 1).
    { apply digits_unique; [lia|].
      replace (prec + 1 - 1) with prec by lia.
      replace (prec + 1) with (Z.succ prec) by lia. rewrite Z.pow_succ_r by lia. lia. }
    unfold shr_fexp. rewrite Ed, fexp_normal by lia.
    replace (prec + 1 + e1 - prec - e1) with 1 by lia.
    cbn [shr iter_pos shr_record_of_loc].
    destruct (shr_1_spec (Build_shr_record m2 false false) ltac:(cbn; lia)) as (E1 & _).
    cbn [shr_m] in E1. rewrite E1, E, Hdouble.
    rewrite Z.mul_comm, Z.div_mul by lia.
    destruct (2 ^ (prec - 1)) as [|q|q] eqn:Eq; [lia| |lia].
    destruct (Z.leb_spec (e1 + 1) (emax - prec)); [reflexivity|lia].
  - left. split; [lia|].
    assert (Ed : Zdigits2 m2 = prec) by (apply digits_unique; lia).
    unfold shr_fexp. rewrite Ed, fexp_normal by lia.
    replace (prec + e1 - prec - e1) with 0 by lia.
    cbn [shr shr_record_of_loc shr_m].
    destruct m2 as [|q|q]; [lia| |lia].
    destruct (Z.leb_spec e1 (emax - prec)); [reflexivity|lia].
Qed.

(** [binary_round_aux] in the normal range: the result is a number whose
    mantissa has [prec] digits; it is the mantissa kept, or the next one
    when the bits dropped say so. *)
Lemma round_aux_char (sx : bool) (mx ex : Z) (lx : location) :
  0 < mx -> prec <= Zdigits2 mx ->
  emin prec emax <= Zdigits2 mx + ex - prec ->
  Zdigits2 mx + ex - prec + 1 <= emax - prec ->
  exists r s m2,
    (Zdigits2 mx = prec -> shr_record_of_loc mx lx = Build_shr_record mx r s) /\
    (prec < Zdigits2 mx ->
     r = Z.odd (mx / 2 ^ (Zdigits2 mx - prec - 1)) /\
     (mx mod 2 ^ (Zdigits2 mx - prec - 1) <> 0 -> s = true) /\
     (lx = loc_Exact -> mx mod 2 ^ (Zdigits2 mx - prec - 1) = 0 -> s = false)) /\
    m2 = round_nearest_even (mx / 2 ^ (Zdigits2 mx - prec))
           (loc_of_shr_record (Build_shr_record (mx / 2 ^ (Zdigits2 mx - prec)) r s)) /\
    ((m2 < 2 ^ prec /\
      binary_round_aux prec emax sx mx ex lx
      = S754_finite sx (Z.to_pos m2) (Zdigits2 mx + ex - prec))
     \/
     (m2 = 2 ^ prec /\
      binary_round_aux prec emax sx mx ex lx
      = S754_finite sx (Z.to_pos (2 ^ (prec - 1))) (Zdigits2 mx + ex - prec + 1))).
Proof.
  intros Hmx Hd Hmin Hmax.
  destruct (first_shift mx ex lx Hmx Hd Hmin) as (r & s & Hfirst & H0 & Hn).
  pose proof (kept_mantissa_bounds mx Hmx Hd) as Hkept.
  set (m1 := mx / 2 ^ (Zdigits2 mx - prec)) in *.
  set (m2 := round_nearest_even m1 (loc_of_shr_record (Build_shr_record m1 r s))).
  exists r, s, m2. split; [exact H0|]. split; [exact Hn|]. split; [reflexivity|].
  assert (Hm2 : 2 ^ (prec - 1) <= m2 <= 2 ^ prec).
  { unfold m2. destruct (round_nearest_even_cases m1 r s) as [[E _]|[E _]]; rewrite E; lia. }
  unfold binary_round_aux. rewrite Hfirst. cbn [shr_m]. fold m2.
  exact (second_shift sx m2 _ Hm2 Hmin Hmax).
Qed.

Lemma round_aux_finite (sx : bool) (mx ex : Z) (lx : location) :
  0 < mx -> prec <= Zdigits2 mx ->
  emin prec emax <= Zdigits2 mx + ex - prec ->
  Zdigits2 mx + ex - prec + 1 <= emax - prec ->
  exists m e,
    binary_round_aux prec emax sx mx ex lx = S754_finite sx m e /\
    2 ^ (prec - 1) <= Zpos m < 2 ^ prec /\
    Zdigits2 mx + ex - prec <= e <= Zdigits2 mx + ex - prec + 1.
Proof.
  intros Hmx Hd Hmin Hmax.
  destruct (round_aux_char sx mx ex lx Hmx Hd Hmin Hmax)
    as (r & s & m2 & _ & _ & Em2 & Hres).
  pose proof (kept_mantissa_bounds mx Hmx Hd) as Hkept.
  assert (Hpos : 0 < 2 ^ (prec - 1)) by (apply Z.pow_pos_nonneg; lia).
  assert (Hdouble : 2 ^ prec = 2 * 2 ^ (prec - 1)).
  { replace prec with (Z.succ (prec - 1)) at 1 by lia. apply Z.pow_succ_r. lia. }
  assert (Hm2 : 2 ^ (prec - 1) <= m2).
  { rewrite Em2.
    destruct (round_nearest_even_cases (mx / 2 ^ (Zdigits2 mx - prec)) r s)
      as [[E _]|[E _]]; rewrite E; lia. }
  destruct Hres as [[Hlt E]|[Heq E]].
  - exists (Z.to_pos m2), (Zdigits2 mx + ex - prec). split; [exact E|].
    rewrite Z2Pos.id by lia. lia.
  - exists (Z.to_pos (2 ^ (prec - 1))), (Zdigits2 mx + ex - prec + 1). split; [exact E|].
    rewrite Z2Pos.id by lia. lia.
Qed.

(** Rounding stays at or below a number [K * 2 ^ E] of the format when the
    value is below the midpoint between that number and the next one. *)
Lemma round_aux_upper (sx : bool) (mx ex : Z) (lx : location) (K E : Z)
      (m : positive) (e : Z) :
  0 < mx -> prec <= Zdigits2 mx ->
  emin prec emax <= Zdigits2 mx + ex - prec ->
  Zdigits2 mx + ex - prec + 1 <= emax - prec ->
  2 ^ (prec - 1) <= K < 2 ^ prec ->
  (Zdigits2 mx + ex - prec < E \/
   (Zdigits2 mx + ex - prec = E /\
    ((Zdigits2 mx = prec /\
      mx + match lx with loc_Exact => 0 | _ => 1 end <= K) \/
     (prec < Zdigits2 mx /\ mx < (2 * K + 1) * 2 ^ (Zdigits2 mx - prec - 1))))) ->
  binary_round_aux prec emax sx mx ex lx = S754_finite sx m e ->
  e < E \/ (e = E /\ Zpos m <= K).
Proof.
  intros Hmx Hd Hmin Hmax HK Hbound Eres.
  destruct (round_aux_char sx mx ex lx Hmx Hd Hmin Hmax)
    as (r & s & m2 & H0 & Hn & Em2 & Hres).
  pose proof (kept_mantissa_bounds mx Hmx Hd) as Hkept.
  set (d := Zdigits2 mx) in *. set (m1 := mx / 2 ^ (d - prec)) in *.
  assert (Hpos : 0 < 2 ^ (prec - 1)) by (apply Z.pow_pos_nonneg; lia).
  assert (Hm2 : 2 ^ (prec - 1) <= m2).
  { rewrite Em2. destruct (round_nearest_even_cases m1 r s) as [[E' _]|[E' _]];
      rewrite E'; lia. }
  destruct Hbound as [Hlt | [HeqE Hcase]].
  - destruct Hres as [[_ E1]|[_ E1]]; rewrite E1 in Eres; injection Eres as <- <-.
    + left. lia.
    + destruct (Z.eq_dec (d + ex - prec + 1) E) as [E'|Hne]; [|left; lia].
      right. split; [exact E'|]. rewrite Z2Pos.id by lia. lia.
  - assert (Hle : m2 <= K).
    { rewrite Em2. destruct Hcase as [[Hd0 Hmx0] | [Hdn Hmxn]].
      - assert (Em1 : m1 = mx).
        { unfold m1. rewrite Hd0, Z.sub_diag. apply Z.div_1_r. }
        specialize (H0 Hd0).
        destruct (round_nearest_even_cases m1 r s) as [[E' _]|[E' [Hr _]]]; rewrite E'.
        + destruct lx as [|c]; lia.
        + destruct lx as [|[]]; cbn in H0; injection H0 as <- <-; try discriminate Hr; lia.
      - destruct (Hn Hdn) as (Er & _ & _).
        assert (Hh : 0 < 2 ^ (d - prec - 1)) by (apply Z.pow_pos_nonneg; lia).
        set (h := 2 ^ (d - prec - 1)) in *.
        assert (Em1 : m1 = mx / h / 2).
        { unfold m1, h. rewrite Z.div_div by lia. f_equal.
          replace (d - prec) with (Z.succ (d - prec - 1)) at 1 by lia.
          rewrite Z.pow_succ_r by lia. lia. }
        assert (Hm' : mx / h <= 2 * K).
        { assert (mx / h < 2 * K + 1); [|lia].
          apply Z.div_lt_upper_bound; [exact Hh|]. lia. }
        pose proof (Z.div_mod (mx / h) 2 ltac:(lia)) as Hdm.
        rewrite Zmod_odd, <- Em1, <- Er in Hdm.
        destruct (round_nearest_even_cases m1 r s) as [[E' _]|[E' [Hr _]]]; rewrite E'.
        + destruct r; lia.
        + rewrite Hr in Hdm. lia. }
    destruct Hres as [[_ E1]|[Habs _]]; [|lia].
    rewrite E1 in Eres; injection Eres as <- <-. right.
    split; [exact HeqE|]. rewrite Z2Pos.id by lia. exact Hle.
Qed.

(** Rounding stays at or above a number [K * 2 ^ E] of the format when the
    value is above the midpoint between the number before it and that
    number. *)
Lemma round_aux_lower (sx : bool) (mx ex : Z) (lx : location) (K E : Z)
      (m : positive) (e : Z) :
  0 < mx -> prec <= Zdigits2 mx ->
  emin prec emax <= Zdigits2 mx + ex - prec ->
  Zdigits2 mx + ex - prec + 1 <= emax - prec ->
  2 ^ (prec - 1) <= K < 2 ^ prec ->
  (E < Zdigits2 mx + ex - prec \/
   (Zdigits2 mx + ex - prec = E /\
    ((Zdigits2 mx = prec /\ K <= mx) \/
     (prec < Zdigits2 mx /\ (2 * K - 1) * 2 ^ (Zdigits2 mx - prec - 1) < mx)))) ->
  binary_round_aux prec emax sx mx ex lx = S754_finite sx m e ->
  E < e \/ (e = E /\ K <= Zpos m).
Proof.
  intros Hmx Hd Hmin Hmax HK Hbound Eres.
  destruct (round_aux_char sx mx ex lx Hmx Hd Hmin Hmax)
    as (r & s & m2 & H0 & Hn & Em2 & Hres).
  pose proof (kept_mantissa_bounds mx Hmx Hd) as Hkept.
  set (d := Zdigits2 mx) in *. set (m1 := mx / 2 ^ (d - prec)) in *.
  assert (Hpos : 0 < 2 ^ (prec - 1)) by (apply Z.pow_pos_nonneg; lia).
  assert (Hm2 : m1 <= m2).
  { rewrite Em2. destruct (round_nearest_even_cases m1 r s) as [[E' _]|[E' _]];
      rewrite E'; lia. }
  destruct Hbound as [Hlt | [HeqE Hcase]].
  - left. destruct Hres as [[_ E1]|[_ E1]]; rewrite E1 in Eres; injection Eres as <- <-; lia.
  - assert (Hge : K <= m2).
    { destruct Hcase as [[Hd0 Hmx0] | [Hdn Hmxn]].
      - assert (Em1 : m1 = mx).
        { unfold m1. rewrite Hd0, Z.sub_diag. apply Z.div_1_r. }
        lia.
      - destruct (Hn Hdn) as (Er & Hs & _).
        assert (Hh : 0 < 2 ^ (d - prec - 1)) by (apply Z.pow_pos_nonneg; lia).
        set (h := 2 ^ (d - prec - 1)) in *.
        assert (Em1 : m1 = mx / h / 2).
        { unfold m1, h. rewrite Z.div_div by lia. f_equal.
          replace (d - prec) with (Z.succ (d - prec - 1)) at 1 by lia.
          rewrite Z.pow_succ_r by lia. lia. }
        assert (Hm' : 2 * K - 1 <= mx / h).
        { apply Z.div_le_lower_bound; [exact Hh|]. lia. }
        pose proof (Z.div_mod (mx / h) 2 ltac:(lia)) as Hdm.
        rewrite Zmod_odd, <- Em1, <- Er in Hdm.
        destruct (Z_le_gt_dec K m1) as [Hk|Hk]; [lia|].
        assert (Em' : mx / h = 2 * K - 1) by (destruct r; lia).
        assert (Hr : r = true) by (destruct r; [reflexivity|lia]).
        assert (Hst : s = true).
        { apply Hs. pose proof (Z.div_mod mx h ltac:(lia)) as Hdm'.
          rewrite Em' in Hdm'. lia. }
        rewrite Em2.
        destruct (round_nearest_even_cases m1 r s) as [[_ [Hr'|[Hs' _]]]|[E' _]].
        + congruence.
        + congruence.
        + rewrite E'. rewrite Hr in Hdm. lia. }
    destruct Hres as [[_ E1]|[Heq E1]]; rewrite E1 in Eres; injection Eres as <- <-.
    + right. split; [exact HeqE|]. rewrite Z2Pos.id by lia. exact Hge.
    + left. lia.
Qed.

(** Rounding a mantissa of exactly [prec] digits that is exact changes
    nothing. *)
Lemma round_aux_exact (sx : bool) (mx : positive) (ex : Z) :
  Zdigits2 (Zpos mx) = prec ->
  emin prec emax <= ex -> ex + 1 <= emax - prec ->
  binary_round_aux prec emax sx (Zpos mx) ex loc_Exact = S754_finite sx mx ex.
Proof.
  intros Hd Hmin Hmax.
  destruct (round_aux_char sx (Zpos mx) ex loc_Exact ltac:(lia) ltac:(lia)
              ltac:(lia) ltac:(lia)) as (r & s & m2 & H0 & _ & Em2 & Hres).
  specialize (H0 Hd). cbn in H0. injection H0 as <- <-.
  rewrite Hd, Z.sub_diag, Z.div_1_r in Em2. cbn in Em2.
  destruct (Zdigits2_bounds (Zpos mx) ltac:(lia)) as [_ Hb]. rewrite Hd in Hb.
  destruct Hres as [[_ E]|[Habs _]]; [|lia].
  rewrite E, Em2. cbn [Z.to_pos]. f_equal. lia.
Qed.

(** Rounding an exact value whose dropped bits are all zero just drops
    them. *)
Lemma round_aux_zeros (sx : bool) (mx ex : Z) :
  0 < mx -> prec <= Zdigits2 mx ->
  emin prec emax <= Zdigits2 mx + ex - prec ->
  Zdigits2 mx + ex - prec + 1 <= emax - prec ->
  mx mod 2 ^ (Zdigits2 mx - prec) = 0 ->
  binary_round_aux prec emax sx mx ex loc_Exact
  = S754_finite sx (Z.to_pos (mx / 2 ^ (Zdigits2 mx - prec))) (Zdigits2 mx + ex - prec).
Proof.
  intros Hmx Hd Hmin Hmax Hzeros.
  destruct (round_aux_char sx mx ex loc_Exact Hmx Hd Hmin Hmax)
    as (r & s & m2 & H0 & Hn & Em2 & Hres).
  pose proof (kept_mantissa_bounds mx Hmx Hd) as Hkept.
  set (d := Zdigits2 mx) in *. set (m1 := mx / 2 ^ (d - prec)) in *.
  assert (Ers : r = false /\ s = false).
  { destruct (Z.eq_dec d prec) as [E|Hne].
    - specialize (H0 E). cbn in H0. injection H0 as <- <-. auto.
    - destruct (Hn ltac:(lia)) as (Er & _ & Hs).
      assert (Hh : 0 < 2 ^ (d - prec - 1)) by (apply Z.pow_pos_nonneg; lia).
      assert (E2 : 2 ^ (d - prec) = 2 ^ (d - prec - 1) * 2).
      { replace (d - prec) with (Z.succ (d - prec - 1)) at 1 by lia.
        rewrite Z.pow_succ_r by lia. lia. }
      rewrite E2 in Hzeros. apply Z.eqb_eq in Hzeros.
      rewrite low_bits_zero in Hzeros by exact Hh.
      apply andb_true_iff in Hzeros as [Hodd Hlow].
      apply negb_true_iff in Hodd. apply Z.eqb_eq in Hlow.
      split; [rewrite Er; exact Hodd|apply Hs; [reflexivity|exact Hlow]]. }
  destruct Ers as [-> ->]. cbn in Em2.
  destruct Hres as [[_ E]|[Habs _]]; [|lia].
  rewrite E, Em2. reflexivity.
Qed.

(** [binary_normalize] of a mantissa with [prec] digits or more goes
    straight to the rounding. *)
Lemma binary_normalize_long (mx : positive) (ex : Z) :
  prec <= Zdigits2 (Zpos mx) ->
  emin prec emax <= Zdigits2 (Zpos mx) + ex - prec ->
  binary_normalize prec emax (Zpos mx) ex false
  = binary_round_aux prec emax false (Zpos mx) ex loc_Exact.
Proof.
  intros Hd Hmin. cbn [binary_normalize Zdigits2] in *. unfold binary_round.
  rewrite fexp_normal by lia. unfold shl_align.
  destruct (Zpos (digits2_pos mx) + ex - prec - ex) as [|q|q] eqn:E; try reflexivity. lia.
Qed.

(** [binary_normalize] of a shorter mantissa pads it to [prec] digits. *)
Lemma binary_normalize_short (mx : positive) (ex : Z) :
  Zdigits2 (Zpos mx) < prec ->
  emin prec emax <= Zdigits2 (Zpos mx) + ex - prec ->
  Zdigits2 (Zpos mx) + ex - prec + 1 <= emax - prec ->
  binary_normalize prec emax (Zpos mx) ex false
  = S754_finite false (Z.to_pos (Zpos mx * 2 ^ (prec - Zdigits2 (Zpos mx))))
                (Zdigits2 (Zpos mx) + ex - prec).
Proof.
  intros Hd Hmin Hmax. cbn [binary_normalize]. unfold binary_round.
  change (Zpos (digits2_pos mx)) with (Zdigits2 (Zpos mx)).
  set (d := Zdigits2 (Zpos mx)) in *.
  rewrite fexp_normal by lia. unfold shl_align.
  destruct (d + ex - prec - ex) as [|q|q] eqn:E; try lia.
  assert (Eq : Zpos q = prec - d) by lia.
  assert (Eshift : Zpos (Pos.iter xO mx q) = Zpos mx * 2 ^ (prec - d)).
  { rewrite <- Eq. change (Pos.iter xO mx q) with (shift_pos q mx).
    rewrite shift_pos_correct, Zpower_pos_nat, Zpower_nat_Z, positive_nat_Z. lia. }
  destruct (Zdigits2_bounds (Zpos mx) ltac:(lia)) as [Hd0 Hb]. fold d in Hd0, Hb.
  assert (Hp : 0 < 2 ^ (prec - d)) by (apply Z.pow_pos_nonneg; lia).
  assert (Ed : Zdigits2 (Zpos (Pos.iter xO mx q)) = prec).
  { apply digits_unique; [lia|]. rewrite Eshift.
    assert (E1 : 2 ^ (prec - 1) = 2 ^ (d - 1) * 2 ^ (prec - d))
      by (rewrite <- Z.pow_add_r by lia; f_equal; lia).
    assert (E2 : 2 ^ prec = 2 ^ d * 2 ^ (prec - d))
      by (rewrite <- Z.pow_add_r by lia; f_equal; lia).
    rewrite E1, E2. split.
    - apply Z.mul_le_mono_nonneg_r; lia.
    - apply Z.mul_lt_mono_pos_r; lia. }
  rewrite round_aux_exact by (try exact Ed; lia).
  f_equal. rewrite <- Eshift. reflexivity.
Qed.
End RoundToNearest.

(** ** The angle of a peak: the floating-point steps *)

Lemma finite_lt (m1 m2 : positive) (e1 e2 : Z) :
  e1 < e2 \/ (e1 = e2 /\ Zpos m1 < Zpos m2) ->
  flt (S754_finite false m1 e1) (S754_finite false m2 e2) = true.
Proof.
  intros H. unfold flt, SFltb, SFcompare.
  destruct (Z.compare_spec e1 e2) as [E|L|G]; [|reflexivity|lia].
  change (Pos.compare_cont Eq m1 m2) with (Pos.compare m1 m2).
  destruct (Pos.compare_spec m1 m2); [lia|reflexivity|lia].
Qed.

Lemma finite_le (m1 m2 : positive) (e1 e2 : Z) :
  e1 < e2 \/ (e1 = e2 /\ Zpos m1 <= Zpos m2) ->
  fle (S754_finite false m1 e1) (S754_finite false m2 e2) = true.
Proof.
  intros H. unfold fle, SFleb, SFcompare.
  destruct (Z.compare_spec e1 e2) as [E|L|G]; [|reflexivity|lia].
  change (Pos.compare_cont Eq m1 m2) with (Pos.compare m1 m2).
  destruct (Pos.compare_spec m1 m2); [reflexivity|reflexivity|lia].
Qed.

Lemma shl_align_value (mx : positive) (ex ex' : Z) :
  ex' <= ex -> Zpos (fst (shl_align mx ex ex')) = Zpos mx * 2 ^ (ex - ex').
Proof.
  intros Hle. unfold shl_align.
  destruct (ex' - ex) as [|q|q] eqn:E; cbn [fst]; try lia.
  - replace (ex - ex') with 0 by lia. lia.
  - change (Pos.iter xO mx q) with (shift_pos q mx).
    rewrite shift_pos_correct, Zpower_pos_nat, Zpower_nat_Z, positive_nat_Z.
    replace (ex - ex') with (Zpos q) by lia. lia.
Qed.

(** [static_cast<float>] of a positive integer up to [2 ^ 24] is exact. *)
Lemma of_Z_normal (x : Z) :
  0 < x <= 2 ^ 24 ->
  exists m e,
    F32.of_Z x = S754_finite false m e /\
    2 ^ 23 <= Zpos m < 2 ^ 24 /\ -23 <= e <= 1 /\
    Zpos m * 2 ^ (e + 23) = x * 2 ^ 23.
Proof.
  intros Hx. destruct x as [|p|p]; try lia.
  destruct (Zdigits2_bounds (Zpos p) ltac:(lia)) as [Hd0 Hb].
  set (d := Zdigits2 (Zpos p)) in *.
  assert (Hd25 : d <= 25).
  { destruct (Z_le_gt_dec d 25) as [H|H]; [exact H|].
    assert (2 ^ 25 <= 2 ^ (d - 1)) by (apply Z.pow_le_mono_r; lia). lia. }
  unfold F32.of_Z, F32.prec, F32.emax.
  destruct (Z_lt_le_dec d 24) as [Hshort|Hlong].
  - rewrite (binary_normalize_short 24 128 ltac:(lia) p 0)
      by (fold d; change (emin 24 128) with (-149); lia).
    fold d.
    assert (Hp : 0 < 2 ^ (24 - d)) by (apply Z.pow_pos_nonneg; lia).
    assert (E1 : 2 ^ 23 = 2 ^ (d - 1) * 2 ^ (24 - d))
      by (rewrite <- Z.pow_add_r by lia; f_equal; lia).
    assert (E2 : 2 ^ 24 = 2 ^ d * 2 ^ (24 - d))
      by (rewrite <- Z.pow_add_r by lia; f_equal; lia).
    eexists _, _. split; [reflexivity|]. rewrite Z2Pos.id by lia.
    split; [|split; [lia|]].
    + rewrite E1, E2. split.
      * apply Z.mul_le_mono_nonneg_r; lia.
      * apply Z.mul_lt_mono_pos_r; lia.
    + replace (d + 0 - 24 + 23) with (d - 1) by lia.
      rewrite <- Z.mul_assoc, <- Z.pow_add_r by lia.
      replace (24 - d + (d - 1)) with 23 by lia. reflexivity.
  - destruct (Z.eq_dec d 24) as [E24|Hne].
    + rewrite (binary_normalize_long 24 128 p 0)
        by (fold d; change (emin 24 128) with (-149); lia).
      rewrite (round_aux_exact 24 128 ltac:(lia) false p 0)
        by (try exact E24; change (emin 24 128) with (-149); lia).
      exists p, 0. split; [reflexivity|]. rewrite E24 in Hb.
      split; [exact Hb|]. split; [lia|reflexivity].
    + assert (E25 : d = 25) by lia. rewrite E25 in Hb.
      assert (Ex : Zpos p = 2 ^ 24) by lia. rewrite Ex.
      exists 8388608%positive, 1. split; [vm_compute; reflexivity|].
      split; [lia|]. split; [lia|reflexivity].
Qed.

Lemma div_core_normal (mx mw : positive) (ex ew : Z) :
  2 ^ 23 <= Zpos mx < 2 ^ 24 -> 2 ^ 23 <= Zpos mw < 2 ^ 24 ->
  -100 <= ex - ew ->
  SFdiv_core_binary 24 128 (Zpos mx) ex (Zpos mw) ew
  = (Zpos mx * 2 ^ 24 / Zpos mw, ex - ew - 24,
     new_location (Zpos mw) (Zpos mx * 2 ^ 24 mod Zpos mw)).
Proof.
  intros Hmx Hmw He. unfold SFdiv_core_binary.
  rewrite (digits_unique (Zpos mx) 24) by (change (24 - 1) with 23; lia).
  rewrite (digits_unique (Zpos mw) 24) by (change (24 - 1) with 23; lia).
  replace (24 + ex - (24 + ew)) with (ex - ew) by lia.
  rewrite fexp_normal by (change (emin 24 128) with (-149); lia).
  replace (Z.min (ex - ew - 24) (ex - ew)) with (ex - ew - 24) by lia.
  replace (ex - ew - (ex - ew - 24)) with 24 by lia.
  cbv iota. rewrite Z.shiftl_mul_pow2 by lia.
  unfold Z.div, Z.modulo.
  destruct (Z.div_eucl (Zpos mx * 2 ^ 24) (Zpos mw)) as [q r]. reflexivity.
Qed.

Lemma new_location_inexact (steps r : Z) :
  match new_location steps r with loc_Exact => 0 | _ => 1 end
  = if r =? 0 then 0 else 1.
Proof.
  unfold new_location, new_location_even, new_location_odd.
  destruct (Z.even steps); destruct (r =? 0); reflexivity.
Qed.

(** The quotient of two numbers of 24 digits whose ratio is at most
    [1 - 2 ^ -24] rounds to a number below 1. *)
Lemma div_below_one (mx mw : positive) (ex ew : Z) :
  2 ^ 23 <= Zpos mx < 2 ^ 24 -> 2 ^ 23 <= Zpos mw < 2 ^ 24 ->
  ex <= ew <= ex + 50 ->
  Zpos mx * 2 ^ 24 <= (2 ^ 24 - 1) * Zpos mw * 2 ^ (ew - ex) ->
  exists m e,
    F32.div (S754_finite false mx ex) (S754_finite false mw ew) = S754_finite false m e /\
    2 ^ 23 <= Zpos m < 2 ^ 24 /\
    ex - ew - 24 <= e /\
    (e < -24 \/ (e = -24 /\ Zpos m <= 2 ^ 24 - 1)).
Proof.
  intros Hmx Hmw He Hratio.
  unfold F32.div, F32.prec, F32.emax, SFdiv.
  rewrite div_core_normal by (try assumption; lia).
  cbn [xorb].
  set (q := Zpos mx * 2 ^ 24 / Zpos mw).
  set (r := Zpos mx * 2 ^ 24 mod Zpos mw).
  pose proof (Z.div_mod (Zpos mx * 2 ^ 24) (Zpos mw) ltac:(lia)) as Hdm.
  pose proof (Z.mod_pos_bound (Zpos mx * 2 ^ 24) (Zpos mw) ltac:(lia)) as Hr.
  fold q in Hdm. fold r in Hdm, Hr.
  assert (Hq : 2 ^ 23 <= q < 2 ^ 25).
  { split.
    - apply Z.div_le_lower_bound; [lia|]. nia.
    - apply Z.div_lt_upper_bound; [lia|]. nia. }
  assert (Hd : Zdigits2 q = 24 \/ Zdigits2 q = 25).
  { destruct (Z_lt_le_dec q (2 ^ 24)) as [Hs|Hl].
    - left. apply digits_unique; [lia|]. change (24 - 1) with 23. lia.
    - right. apply digits_unique; [lia|]. change (25 - 1) with 24. lia. }
  assert (Hd' : 24 <= Zdigits2 q <= 25) by lia.
  destruct (round_aux_finite 24 128 ltac:(lia) false q (ex - ew - 24)
              (new_location (Zpos mw) r) ltac:(lia) ltac:(lia)
              ltac:(change (emin 24 128) with (-149); lia) ltac:(lia))
    as (m & e & Eres & Hm & Hrange).
  exists m, e. split; [exact Eres|]. split; [exact Hm|]. split; [lia|].
  apply (round_aux_upper 24 128 ltac:(lia) false q (ex - ew - 24)
          (new_location (Zpos mw) r) (2 ^ 24 - 1) (-24) m e);
    try exact Eres; try lia.
  - change (emin 24 128) with (-149). lia.
  - destruct (Z.eq_dec (ew - ex) 0) as [E0|Hne0].
    + (* same exponent: the quotient is below [2 ^ 24] *)
      rewrite E0 in Hratio. change (2 ^ 0) with 1 in Hratio.
      assert (Hq24 : q <= 2 ^ 24 - 1) by nia.
      destruct Hd as [Hd|Hd]; [|destruct (Zdigits2_bounds q ltac:(lia)) as [_ Hb];
                                 rewrite Hd in Hb; change (25 - 1) with 24 in Hb; lia].
      right. split; [lia|]. left. split; [exact Hd|].
      rewrite new_location_inexact.
      destruct (Z.eqb_spec r 0) as [Er|Er]; [lia|].
      assert (q < 2 ^ 24 - 1) by nia. lia.
    + destruct (Z.eq_dec (ew - ex) 1) as [E1|Hne1].
      * rewrite E1 in Hratio. change (2 ^ 1) with 2 in Hratio.
        assert (Hq25 : q <= 2 ^ 25 - 2) by nia.
        destruct Hd as [Hd|Hd]; [left; lia|].
        right. split; [lia|]. right. split; [lia|].
        rewrite Hd. change (2 ^ (25 - 24 - 1)) with 1. lia.
      * left. lia.
Qed.

(** A [float] of 24 digits converts to [double] without change of value. *)
Lemma to_double_normal (m : positive) (e : Z) :
  2 ^ 23 <= Zpos m < 2 ^ 24 -> -1000 <= e <= 900 ->
  to_double (S754_finite false m e)
  = S754_finite false (Z.to_pos (Zpos m * 2 ^ 29)) (e - 29).
Proof.
  intros Hm He. unfold to_double, convert, F64.prec, F64.emax. cbn [cond_Zopp].
  assert (Hd : Zdigits2 (Zpos m) = 24)
    by (apply digits_unique; [lia|change (24 - 1) with 23; lia]).
  rewrite (binary_normalize_short 53 1024 ltac:(lia) m e)
    by (rewrite Hd; change (emin 53 1024) with (-1074); lia).
  rewrite Hd. f_equal. lia.
Qed.

(** The product of a [double] that is at most [1 - 2 ^ -24] with [M_PI]
    rounds to at most the [float] before that of pi. *)
Lemma mul_pi_below (md : positive) (ed : Z) :
  2 ^ 52 <= Zpos md < 2 ^ 53 -> -900 <= ed ->
  ed < -53 \/ (ed = -53 /\ Zpos md <= (2 ^ 24 - 1) * 2 ^ 29) ->
  exists m e,
    F64.mul (S754_finite false md ed) M_PI = S754_finite false m e /\
    2 ^ 52 <= Zpos m < 2 ^ 53 /\
    ed <= e /\
    (e < -51 \/ (e = -51 /\ Zpos m <= 13176794 * 2 ^ 29)).
Proof.
  intros Hmd Hed Hle.
  unfold F64.mul, F64.prec, F64.emax, M_PI, SFmul. cbn [xorb].
  rewrite Pos2Z.inj_mul.
  set (M := Zpos md * Zpos 7074237752028440).
  assert (HM : 2 ^ 104 <= M < 2 ^ 106) by (unfold M; lia).
  assert (Hd : Zdigits2 M = 105 \/ Zdigits2 M = 106).
  { destruct (Z_lt_le_dec M (2 ^ 105)) as [Hs|Hl].
    - left. apply digits_unique; [lia|]. change (105 - 1) with 104. lia.
    - right. apply digits_unique; [lia|]. change (106 - 1) with 105. lia. }
  assert (Hd' : 105 <= Zdigits2 M <= 106) by lia.
  destruct (round_aux_finite 53 1024 ltac:(lia) false M (ed + -51) loc_Exact
              ltac:(lia) ltac:(lia)
              ltac:(change (emin 53 1024) with (-1074); lia) ltac:(lia))
    as (m & e & Eres & Hm & Hrange).
  exists m, e. split; [exact Eres|]. split; [exact Hm|]. split; [lia|].
  apply (round_aux_upper 53 1024 ltac:(lia) false M (ed + -51) loc_Exact
          (13176794 * 2 ^ 29) (-51) m e); try exact Eres; try lia.
  - change (emin 53 1024) with (-1074). lia.
  - destruct Hle as [Hlt|[Eed Hmd']]; [left; lia|].
    destruct Hd as [Hd|Hd]; [left; lia|].
    right. split; [lia|]. right. split; [lia|].
    rewrite Hd. change (2 ^ (106 - 53 - 1)) with (2 ^ 52). unfold M. lia.
Qed.

(** The conversion of a [double] of 53 digits to [float]: the result, and
    the numbers of the format it stays below or above. *)
Lemma to_float_finite (md : positive) (ed : Z) :
  2 ^ 52 <= Zpos md < 2 ^ 53 -> -170 <= ed <= 60 ->
  exists m e,
    to_float (S754_finite false md ed) = S754_finite false m e /\
    2 ^ 23 <= Zpos m < 2 ^ 24 /\ ed + 29 <= e <= ed + 30.
Proof.
  intros Hmd Hed. unfold to_float, convert, F32.prec, F32.emax. cbn [cond_Zopp].
  assert (Hd : Zdigits2 (Zpos md) = 53)
    by (apply digits_unique; [lia|change (53 - 1) with 52; lia]).
  rewrite (binary_normalize_long 24 128 md ed)
    by (rewrite Hd; change (emin 24 128) with (-149); lia).
  destruct (round_aux_finite 24 128 ltac:(lia) false (Zpos md) ed loc_Exact
              ltac:(lia) ltac:(lia)
              ltac:(rewrite Hd; change (emin 24 128) with (-149); lia)
              ltac:(rewrite Hd; lia))
    as (m & e & Eres & Hm & Hrange).
  rewrite Hd in Hrange. exists m, e. split; [exact Eres|]. split; [exact Hm|]. lia.
Qed.

Lemma to_float_upper (md : positive) (ed : Z) (K E : Z) (m : positive) (e : Z) :
  2 ^ 52 <= Zpos md < 2 ^ 53 -> -170 <= ed <= 60 ->
  2 ^ 23 <= K < 2 ^ 24 ->
  ed + 29 < E \/ (ed + 29 = E /\ Zpos md < (2 * K + 1) * 2 ^ 28) ->
  to_float (S754_finite false md ed) = S754_finite false m e ->
  e < E \/ (e = E /\ Zpos m <= K).
Proof.
  intros Hmd Hed HK Hbound. unfold to_float, convert, F32.prec, F32.emax. cbn [cond_Zopp].
  assert (Hd : Zdigits2 (Zpos md) = 53)
    by (apply digits_unique; [lia|change (53 - 1) with 52; lia]).
  rewrite (binary_normalize_long 24 128 md ed)
    by (rewrite Hd; change (emin 24 128) with (-149); lia).
  intros Eres.
  pose proof (round_aux_upper 24 128 ltac:(lia) false (Zpos md) ed loc_Exact K E m e
                ltac:(lia)) as H.
  rewrite Hd in H. change (emin 24 128) with (-149) in H.
  change (2 ^ (53 - 24 - 1)) with (2 ^ 28) in H.
  apply H; try lia; try assumption.
Qed.

Lemma to_float_lower (md : positive) (ed : Z) (K E : Z) (m : positive) (e : Z) :
  2 ^ 52 <= Zpos md < 2 ^ 53 -> -170 <= ed <= 60 ->
  2 ^ 23 <= K < 2 ^ 24 ->
  E < ed + 29 \/ (ed + 29 = E /\ (2 * K - 1) * 2 ^ 28 < Zpos md) ->
  to_float (S754_finite false md ed) = S754_finite false m e ->
  E < e \/ (e = E /\ K <= Zpos m).
Proof.
  intros Hmd Hed HK Hbound. unfold to_float, convert, F32.prec, F32.emax. cbn [cond_Zopp].
  assert (Hd : Zdigits2 (Zpos md) = 53)
    by (apply digits_unique; [lia|change (53 - 1) with 52; lia]).
  rewrite (binary_normalize_long 24 128 md ed)
    by (rewrite Hd; change (emin 24 128) with (-149); lia).
  intros Eres.
  pose proof (round_aux_lower 24 128 ltac:(lia) false (Zpos md) ed loc_Exact K E m e
                ltac:(lia)) as H.
  rewrite Hd in H. change (emin 24 128) with (-149) in H.
  change (2 ^ (53 - 24 - 1)) with (2 ^ 28) in H.
  apply H; try lia; try assumption.
Qed.

(** The angle computed for column [x] of an accumulator at most [2 ^ 24]
    wide: zero for the first column, and otherwise a number of 24 digits
    that is at most the [float] before that of pi. *)
Lemma raw_theta_below_pi (img : Image) (x : Z) :
  0 <= x < width img -> width img <= 2 ^ 24 ->
  raw_theta img x = S754_zero false \/
  exists m e,
    raw_theta img x = S754_finite false m e /\
    2 ^ 23 <= Zpos m < 2 ^ 24 /\ -100 <= e /\
    (e < -22 \/ (e = -22 /\ Zpos m <= 13176794)).
Proof.
  intros Hx Hw. unfold raw_theta.
  destruct (of_Z_normal (width img) ltac:(lia)) as (mw & ew & Ew & Hmw & Hew & Vw).
  rewrite Ew.
  destruct (Z.eq_dec x 0) as [->|Hx0].
  { left. reflexivity. }
  right.
  destruct (of_Z_normal x ltac:(lia)) as (mx & ex & Ex & Hmx & Hex & Vx).
  rewrite Ex.
  (* the exponents are in order, and the ratio is at most [1 - 2 ^ -24] *)
  assert (Hp : forall k, 0 <= k -> 0 < 2 ^ k) by (intros; apply Z.pow_pos_nonneg; lia).
  assert (Hexw : ex <= ew).
  { destruct (Z_le_gt_dec ex ew) as [H|H]; [exact H|exfalso].
    assert (2 ^ (ew + 23 + 1) <= 2 ^ (ex + 23)) by (apply Z.pow_le_mono_r; lia).
    rewrite Z.pow_add_r in H0 by lia. change (2 ^ 1) with 2 in H0.
    pose proof (Hp (ew + 23) ltac:(lia)). pose proof (Hp (ex + 23) ltac:(lia)).
    nia. }
  assert (Hratio : Zpos mx * 2 ^ 24 <= (2 ^ 24 - 1) * Zpos mw * 2 ^ (ew - ex)).
  { assert (E : 2 ^ (ew + 23) = 2 ^ (ew - ex) * 2 ^ (ex + 23))
      by (rewrite <- Z.pow_add_r by lia; f_equal; lia).
    rewrite E in Vw.
    pose proof (Hp (ex + 23) ltac:(lia)) as Hpx.
    pose proof (Hp (ew - ex) ltac:(lia)) as Hpc.
    apply (Z.mul_le_mono_pos_r _ _ (2 ^ (ex + 23))); [exact Hpx|].
    assert (Hxw : x * 2 ^ 24 <= (2 ^ 24 - 1) * width img) by lia.
    nia. }
  destruct (div_below_one mx mw ex ew Hmx Hmw ltac:(lia) Hratio)
    as (mq & eq & Eq & Hmq & Heq & Hq).
  rewrite Eq, to_double_normal by (try assumption; lia).
  assert (Hmd : 2 ^ 52 <= Zpos mq * 2 ^ 29 < 2 ^ 53) by lia.
  destruct (mul_pi_below (Z.to_pos (Zpos mq * 2 ^ 29)) (eq - 29)
              ltac:(rewrite Z2Pos.id by lia; exact Hmd) ltac:(lia)
              ltac:(rewrite Z2Pos.id by lia; lia))
    as (m3 & e3 & E3 & Hm3 & He3 & H3).
  rewrite E3.
  destruct (to_float_finite m3 e3 Hm3 ltac:(lia)) as (m & e & Eres & Hm & He).
  exists m, e. split; [exact Eres|]. split; [exact Hm|]. split; [lia|].
  apply (to_float_upper m3 e3 13176794 (-22) m e Hm3 ltac:(lia) ltac:(lia));
    [|exact Eres].
  destruct H3 as [Hlt|[E51 Hle]]; [left; lia|].
  right. split; [lia|]. lia.
Qed.

(** Adding [M_PI] to a [double] that is at most the [float] before that of
    pi: the sum is at least [M_PI] and stays below the midpoint that would
    round, as a [float], to the [float] of 2 pi. *)
Lemma add_pi_bounds (md : positive) (ed : Z) :
  2 ^ 52 <= Zpos md < 2 ^ 53 -> -900 <= ed ->
  ed < -51 \/ (ed = -51 /\ Zpos md <= 13176794 * 2 ^ 29) ->
  exists m e,
    F64.add (S754_finite false md ed) M_PI = S754_finite false m e /\
    2 ^ 52 <= Zpos m < 2 ^ 53 /\
    ((e = -51 /\ 7074237752028440 <= Zpos m) \/
     (e = -50 /\ Zpos m <= 13176794 * 2 ^ 28 + 3537118876014220)).
Proof.
  intros Hmd Hed Hle.
  unfold F64.add, F64.prec, F64.emax, M_PI, SFadd.
  replace (Z.min ed (-51)) with ed by lia. cbn [cond_Zopp].
  rewrite !shl_align_value by lia.
  rewrite Z.sub_diag. change (2 ^ 0) with 1. rewrite Z.mul_1_r.
  set (c := -51 - ed). assert (Hc : 0 <= c) by (unfold c; lia).
  assert (HP : 0 < 2 ^ c) by (apply Z.pow_pos_nonneg; lia).
  set (M := Zpos md + 7074237752028440 * 2 ^ c).
  assert (HM : 0 < M) by (unfold M; lia).
  assert (EM : M = Zpos (Z.to_pos M)) by (rewrite Z2Pos.id by lia; reflexivity).
  assert (Hlow : 2 ^ (52 + c) <= M).
  { rewrite Z.pow_add_r by lia. unfold M. lia. }
  assert (Hhigh : M < 2 ^ (54 + c)).
  { rewrite Z.pow_add_r by lia. unfold M. lia. }
  assert (Hd : (Zdigits2 M = 53 + c /\ M < 2 ^ 53 * 2 ^ c) \/
               (Zdigits2 M = 54 + c /\ 2 ^ 53 * 2 ^ c <= M)).
  { destruct (Z_lt_le_dec M (2 ^ 53 * 2 ^ c)) as [Hs|Hl].
    - left. split; [|exact Hs]. apply digits_unique; [lia|].
      replace (53 + c - 1) with (52 + c) by lia.
      split; [exact Hlow|]. rewrite Z.pow_add_r by lia. exact Hs.
    - right. split; [|exact Hl]. apply digits_unique; [lia|].
      replace (54 + c - 1) with (53 + c) by lia.
      split; [|exact Hhigh]. rewrite Z.pow_add_r by lia. exact Hl. }
  assert (Hd' : 53 + c <= Zdigits2 M <= 54 + c) by lia.
  rewrite EM.
  rewrite (binary_normalize_long 53 1024 (Z.to_pos M) ed)
    by (rewrite <- EM; change (emin 53 1024) with (-1074); lia).
  rewrite <- EM.
  destruct (round_aux_finite 53 1024 ltac:(lia) false M ed loc_Exact
              ltac:(lia) ltac:(lia)
              ltac:(change (emin 53 1024) with (-1074); lia) ltac:(lia))
    as (m & e & Eres & Hm & Hrange).
  exists m, e. split; [exact Eres|]. split; [exact Hm|].
  (* the power that the mantissa of pi was shifted by *)
  assert (Hc1 : c = 0 \/ (0 < c /\ 2 ^ c = 2 * 2 ^ (c - 1) /\ 0 < 2 ^ (c - 1))).
  { destruct (Z.eq_dec c 0) as [E0|Hne]; [left; exact E0|right].
    split; [lia|]. split; [|apply Z.pow_pos_nonneg; lia].
    replace c with (Z.succ (c - 1)) at 1 by lia. apply Z.pow_succ_r. lia. }
  assert (Hlower : -51 < e \/ (e = -51 /\ 7074237752028440 <= Zpos m)).
  { apply (round_aux_lower 53 1024 ltac:(lia) false M ed loc_Exact
             7074237752028440 (-51) m e); try exact Eres; try lia.
    - change (emin 53 1024) with (-1074). lia.
    - destruct Hd as [[Hd _]|[Hd _]]; [|left; unfold c in Hd; lia].
      right. split; [unfold c in Hd; lia|].
      destruct Hc1 as [E0|(Hc0 & E2 & Hh)].
      + left. split; [lia|]. unfold M. lia.
      + right. split; [lia|]. rewrite Hd.
        replace (53 + c - 53 - 1) with (c - 1) by lia.
        unfold M. rewrite E2. lia. }
  assert (Hupper : e < -50 \/
                   (e = -50 /\ Zpos m <= 13176794 * 2 ^ 28 + 3537118876014220)).
  { apply (round_aux_upper 53 1024 ltac:(lia) false M ed loc_Exact
             (13176794 * 2 ^ 28 + 3537118876014220) (-50) m e);
      try exact Eres; try lia.
    - change (emin 53 1024) with (-1074). lia.
    - destruct Hd as [[Hd _]|[Hd HMl]]; [left; unfold c in Hd; lia|].
      right. split; [unfold c in Hd; lia|]. right. split; [lia|].
      rewrite Hd. replace (54 + c - 53 - 1) with c by lia.
      destruct Hc1 as [E0|(Hc0 & E2 & Hh)].
      + assert (ed = -51) by (unfold c in E0; lia).
        unfold M. rewrite E0. change (2 ^ 0) with 1. lia.
      + unfold M. rewrite E2. lia. }
  destruct Hd as [[Hd _]|[Hd _]]; unfold c in Hd; lia.
Qed.

Lemma two_pi_float :
  to_float (F64.mul (F64.of_Z 2) M_PI) = S754_finite false 13176795 (-21).
Proof. vm_compute. reflexivity. Qed.

Lemma pi_float : to_float M_PI = S754_finite false 13176795 (-22).
Proof. vm_compute. reflexivity. Qed.

(** [fmodf] of a number of 24 digits that is below the [float] of 2 pi, by
    the [float] of 2 pi: the number itself. *)
Lemma fmodf_below (ms : positive) (es : Z) :
  2 ^ 23 <= Zpos ms < 2 ^ 24 ->
  (es = -22 \/ (es = -21 /\ Zpos ms <= 13176794)) ->
  fmodf (S754_finite false ms es) (S754_finite false 13176795 (-21))
  = S754_finite false ms es.
Proof.
  intros Hms Hes. unfold fmodf, SFfmod, F32.prec, F32.emax.
  replace (Z.min es (-21)) with es by lia.
  rewrite Z.sub_diag. change (2 ^ 0) with 1. rewrite Z.mul_1_r.
  assert (Hsmall : Zpos ms mod (13176795 * 2 ^ (-21 - es)) = Zpos ms).
  { apply Z.mod_small. destruct Hes as [->|[-> Hle]].
    - change (2 ^ (-21 - -22)) with 2. lia.
    - change (2 ^ (-21 - -21)) with 1. lia. }
  change (Zpos 13176795 * 2 ^ (-21 - es)) with (13176795 * 2 ^ (-21 - es)).
  rewrite Hsmall. cbn [cond_Zopp].
  assert (Hd : Zdigits2 (Zpos ms) = 24)
    by (apply digits_unique; [lia|change (24 - 1) with 23; lia]).
  rewrite (binary_normalize_long 24 128 ms es)
    by (rewrite Hd; change (emin 24 128) with (-149); lia).
  apply (round_aux_exact 24 128 ltac:(lia) false ms es Hd);
    [change (emin 24 128) with (-149); lia|lia].
Qed.

(** The angle of a flipped line: [fmodf(theta + M_PI, 2 * M_PI)] for an
    angle [theta] that is zero or a number of 24 digits at most the [float]
    before that of pi is at least the [float] of pi and below that of
    2 pi. *)
Lemma flipped_theta_bounds (m : positive) (e : Z) :
  2 ^ 23 <= Zpos m < 2 ^ 24 -> -100 <= e ->
  (e < -22 \/ (e = -22 /\ Zpos m <= 13176794)) ->
  exists m' e',
    fmodf (to_float (F64.add (to_double (S754_finite false m e)) M_PI))
          (to_float (F64.mul (F64.of_Z 2) M_PI))
    = S754_finite false m' e' /\
    2 ^ 23 <= Zpos m' < 2 ^ 24 /\
    ((e' = -22 /\ 13176795 <= Zpos m') \/ (e' = -21 /\ Zpos m' <= 13176794)).
Proof.
  intros Hm He Hle.
  rewrite two_pi_float, to_double_normal by (try assumption; lia).
  assert (Hmd : 2 ^ 52 <= Zpos m * 2 ^ 29 < 2 ^ 53) by lia.
  destruct (add_pi_bounds (Z.to_pos (Zpos m * 2 ^ 29)) (e - 29)
              ltac:(rewrite Z2Pos.id by lia; exact Hmd) ltac:(lia)
              ltac:(rewrite Z2Pos.id by lia; lia))
    as (m6 & e6 & E6 & Hm6 & H6).
  rewrite E6.
  destruct (to_float_finite m6 e6 Hm6 ltac:(lia)) as (ms & es & Es & Hms & Hes).
  pose proof (to_float_lower m6 e6 13176795 (-22) ms es Hm6 ltac:(lia) ltac:(lia)
                ltac:(lia) Es) as Hlow.
  pose proof (to_float_upper m6 e6 13176794 (-21) ms es Hm6 ltac:(lia) ltac:(lia)
                ltac:(lia) Es) as Hup.
  rewrite Es.
  assert (Hcases : (es = -22 /\ 13176795 <= Zpos ms) \/
                   (es = -21 /\ Zpos ms <= 13176794)) by lia.
  rewrite fmodf_below by (try exact Hms; lia).
  exists ms, es. split; [reflexivity|]. split; [exact Hms|exact Hcases].
Qed.

Lemma raw_theta_in_half_turn (img : Image) (x : Z) :
  0 <= x < width img -> width img <= 2 ^ 24 ->
  in_half_turn (raw_theta img x) = true.
Proof.
  intros Hx Hw. unfold in_half_turn. rewrite pi_float.
  destruct (raw_theta_below_pi img x Hx Hw) as [E|(m & e & E & Hm & He & Hle)];
    rewrite E; [reflexivity|].
  apply andb_true_iff. split; [reflexivity|].
  apply finite_lt. lia.
Qed.

Lemma flipped_theta_in_second_half_turn (img : Image) (x : Z) :
  0 <= x < width img -> width img <= 2 ^ 24 ->
  in_second_half_turn
    (fmodf (to_float (F64.add (to_double (raw_theta img x)) M_PI))
           (to_float (F64.mul (F64.of_Z 2) M_PI))) = true /\
  in_half_turn
    (fmodf (to_float (F64.add (to_double (raw_theta img x)) M_PI))
           (to_float (F64.mul (F64.of_Z 2) M_PI))) = false.
Proof.
  intros Hx Hw.
  destruct (raw_theta_below_pi img x Hx Hw) as [E|(m & e & E & Hm & He & Hle)];
    rewrite E; [split; vm_compute; reflexivity|].
  destruct (flipped_theta_bounds m e Hm He Hle) as (m' & e' & E' & Hm' & Hcases).
  rewrite E'. unfold in_second_half_turn, in_half_turn. rewrite pi_float, two_pi_float.
  split.
  - apply andb_true_iff. split; [apply finite_le|apply finite_lt]; lia.
  - apply andb_false_iff. right.
    apply fle_flt_false. apply finite_le. lia.
Qed.

(** ** The twin of a line: the floating-point steps *)

Lemma minus_one_float : F32.of_Z (-1) = S754_finite true 8388608 (-23).
Proof. vm_compute. reflexivity. Qed.

(** [rho * -1.0f] negates [rho] exactly. *)
Lemma negation_exact (r : float) :
  normal_float r -> F32.mul r (F32.of_Z (-1)) = SFopp r.
Proof.
  intros Hr. rewrite minus_one_float.
  destruct r as [s|s| |s m e]; [destruct s; reflexivity|destruct s; reflexivity|reflexivity|].
  destruct Hr as [Hm He].
  unfold F32.mul, F32.prec, F32.emax, SFmul, SFopp.
  rewrite Pos2Z.inj_mul. change (Zpos 8388608) with (2 ^ 23).
  set (M := Zpos m * 2 ^ 23).
  assert (HM : 2 ^ 46 <= M < 2 ^ 47) by (unfold M; lia).
  assert (Hd : Zdigits2 M = 47)
    by (apply digits_unique; [lia|change (47 - 1) with 46; exact HM]).
  rewrite (round_aux_zeros 24 128 ltac:(lia) (xorb s true) M (e + -23))
    by (try (rewrite Hd; change (emin 24 128) with (-149); lia);
        try lia;
        rewrite Hd; change (2 ^ (47 - 24)) with (2 ^ 23); unfold M;
        apply Z.mod_mul; lia).
  rewrite Hd. change (2 ^ (47 - 24)) with (2 ^ 23). unfold M.
  rewrite Z.div_mul by lia. cbn [Z.to_pos].
  replace (47 + (e + -23) - 24) with e by lia.
  destruct s; reflexivity.
Qed.

Lemma two_pi_double :
  F64.mul (to_double (F32.of_Z 2)) M_PI = S754_finite false 7074237752028440 (-50).
Proof. vm_compute. reflexivity. Qed.

(** [fmod] of a [double] below 2 pi by 2 pi: the number itself. *)
Lemma fmod_below (m6 : positive) (e6 : Z) :
  2 ^ 52 <= Zpos m6 < 2 ^ 53 ->
  (e6 = -51 \/ (e6 = -50 /\ Zpos m6 <= 13176794 * 2 ^ 28 + 3537118876014220)) ->
  fmod (S754_finite false m6 e6) (S754_finite false 7074237752028440 (-50))
  = S754_finite false m6 e6.
Proof.
  intros Hm6 He6. unfold fmod, SFfmod, F64.prec, F64.emax.
  replace (Z.min e6 (-50)) with e6 by lia.
  rewrite Z.sub_diag. change (2 ^ 0) with 1. rewrite Z.mul_1_r.
  assert (Hsmall : Zpos m6 mod (7074237752028440 * 2 ^ (-50 - e6)) = Zpos m6).
  { apply Z.mod_small. destruct He6 as [->|[-> Hle]].
    - change (2 ^ (-50 - -51)) with 2. lia.
    - change (2 ^ (-50 - -50)) with 1. lia. }
  change (Zpos 7074237752028440 * 2 ^ (-50 - e6))
    with (7074237752028440 * 2 ^ (-50 - e6)).
  rewrite Hsmall. cbn [cond_Zopp].
  assert (Hd : Zdigits2 (Zpos m6) = 53)
    by (apply digits_unique; [lia|change (53 - 1) with 52; lia]).
  rewrite (binary_normalize_long 53 1024 m6 e6)
    by (rewrite Hd; change (emin 53 1024) with (-1074); lia).
  apply (round_aux_exact 53 1024 ltac:(lia) false m6 e6 Hd);
    [change (emin 53 1024) with (-1074); lia|lia].
Qed.

Lemma alternativeTheta_bounds (m : positive) (e : Z) :
  2 ^ 23 <= Zpos m < 2 ^ 24 -> -100 <= e ->
  (e < -22 \/ (e = -22 /\ Zpos m <= 13176794)) ->
  exists m' e',
    alternativeTheta_of (S754_finite false m e) = S754_finite false m' e' /\
    2 ^ 23 <= Zpos m' < 2 ^ 24 /\
    ((e' = -22 /\ 13176795 <= Zpos m') \/ (e' = -21 /\ Zpos m' <= 13176794)).
Proof.
  intros Hm He Hle. unfold alternativeTheta_of.
  rewrite two_pi_double, to_double_normal by (try assumption; lia).
  assert (Hmd : 2 ^ 52 <= Zpos m * 2 ^ 29 < 2 ^ 53) by lia.
  destruct (add_pi_bounds (Z.to_pos (Zpos m * 2 ^ 29)) (e - 29)
              ltac:(rewrite Z2Pos.id by lia; exact Hmd) ltac:(lia)
              ltac:(rewrite Z2Pos.id by lia; lia))
    as (m6 & e6 & E6 & Hm6 & H6).
  rewrite E6, fmod_below by (try exact Hm6; lia).
  destruct (to_float_finite m6 e6 Hm6 ltac:(lia)) as (ms & es & Es & Hms & Hes).
  pose proof (to_float_lower m6 e6 13176795 (-22) ms es Hm6 ltac:(lia) ltac:(lia)
                ltac:(lia) Es) as Hlow.
  pose proof (to_float_upper m6 e6 13176794 (-21) ms es Hm6 ltac:(lia) ltac:(lia)
                ltac:(lia) Es) as Hup.
  exists ms, es. split; [exact Es|]. split; [exact Hms|]. lia.
Qed.

Lemma finite_lt_inv (s : bool) (m1 m2 : positive) (e1 e2 : Z) :
  flt (S754_finite s m1 e1) (S754_finite false m2 e2) = true ->
  s = true \/ e1 < e2 \/ (e1 = e2 /\ Zpos m1 < Zpos m2).
Proof.
  destruct s; [left; reflexivity|right]. revert H. unfold flt, SFltb, SFcompare.
  destruct (Z.compare_spec e1 e2) as [E|L|G]; try discriminate; [|left; exact L].
  change (Pos.compare_cont Eq m1 m2) with (Pos.compare m1 m2).
  destruct (Pos.compare_spec m1 m2); try discriminate. intros _. right. lia.
Qed.

(** The twin of a line whose angle is in [[0, pi)] has its angle in
    [[pi, 2 pi)]. *)
Lemma twin_theta_in_second_half_turn (t : float) :
  normal_float t -> in_half_turn t = true ->
  in_second_half_turn (alternativeTheta_of t) = true /\
  in_half_turn (alternativeTheta_of t) = false.
Proof.
  intros Hn Hin. unfold in_half_turn in Hin. rewrite pi_float in Hin.
  apply andb_true_iff in Hin as [Hge Hlt].
  destruct t as [s|s| |s m e].
  - destruct s; split; vm_compute; reflexivity.
  - destruct s; discriminate.
  - discriminate.
  - destruct Hn as [Hm He].
    destruct s; [discriminate Hge|].
    apply finite_lt_inv in Hlt as [Habs|Hlt]; [discriminate Habs|].
    destruct (alternativeTheta_bounds m e Hm ltac:(lia) ltac:(lia))
      as (m' & e' & E' & Hm' & Hcases).
    rewrite E'. unfold in_second_half_turn, in_half_turn.
    rewrite pi_float, two_pi_float. split.
    + apply andb_true_iff. split; [apply finite_le|apply finite_lt]; lia.
    + apply andb_false_iff. right. apply fle_flt_false. apply finite_le. lia.
Qed.

(** ** C2: the stored form of a line *)

Section StoredLines.
Context {libm : Libm}.

Lemma normalize_line_rho (theta0 rho0 : float) :
  flt (rho (normalize_line theta0 rho0)) F32.zero = false /\
  (is_nan rho0 = false -> fle F32.zero (rho (normalize_line theta0 rho0)) = true).
Proof.
  unfold normalize_line. destruct (flt rho0 F32.zero) eqn:Hneg; simpl.
  - destruct (has_sign_false_not_negative _ (negated_negative _ Hneg)). auto.
  - split; [exact Hneg|]. intros Hnan. apply not_flt_fle; auto.
Qed.

(** C2, as the code has it. Every stored line comes from a peak pixel
    [(x,y)], and its [rho] is never negative ([>= 0] whenever the raw [rho]
    is a number). When the raw [rho] is not negative the line is the raw
    [(theta, rho)], and [theta] is in [[0, pi)]. When the raw [rho] is
    negative the line is [(fmodf(theta + pi, 2 pi), rho * -1)]: its [rho]
    is the raw one negated (exactly, for a raw [rho] that is not
    subnormal), and its [theta] is in [[pi, 2 pi)], outside [[0, pi)]. The
    bounds on [theta] are for accumulators at most [2 ^ 24] pixels wide,
    the widths whose columns a [float] tells apart. *)
Theorem stored_line_has_rho_not_negative
        (targetWidth targetHeight : Z) (img : Image) (lines0 : list Line) (line : Line) :
  In line (FindLines targetWidth targetHeight img lines0) ->
  flt (rho line) F32.zero = false /\
  exists x y,
    0 <= x < width img /\ 0 <= y < height img /\ is_peak img x y = true /\
    (is_nan (raw_rho targetWidth targetHeight img y) = false ->
     fge (rho line) F32.zero = true) /\
    (flt (raw_rho targetWidth targetHeight img y) F32.zero = false ->
     line = mkLine (raw_theta img x) (raw_rho targetWidth targetHeight img y) /\
     (width img <= 2 ^ 24 -> in_half_turn (theta line) = true)) /\
    (flt (raw_rho targetWidth targetHeight img y) F32.zero = true ->
     line = mkLine (fmodf (to_float (F64.add (to_double (raw_theta img x)) M_PI))
                          (to_float (F64.mul (F64.of_Z 2) M_PI)))
                   (F32.mul (raw_rho targetWidth targetHeight img y) (F32.of_Z (-1))) /\
     (normal_float (raw_rho targetWidth targetHeight img y) ->
      rho line = SFopp (raw_rho targetWidth targetHeight img y)) /\
     (width img <= 2 ^ 24 ->
      in_second_half_turn (theta line) = true /\ in_half_turn (theta line) = false)).
Proof.
  intros Hin. apply In_FindLines in Hin as (_ & x & y & Hx & Hy & _ & P & ->).
  unfold line_of_peak.
  destruct (normalize_line_rho (raw_theta img x) (raw_rho targetWidth targetHeight img y))
    as [Hnot Hge].
  split; [exact Hnot|]. exists x, y.
  split; [exact Hx|]. split; [exact Hy|]. split; [exact P|].
  split; [exact Hge|].
  unfold normalize_line.
  split; intros E; rewrite E.
  - split; [reflexivity|]. intros Hw. cbn [theta].
    apply raw_theta_in_half_turn; assumption.
  - split; [reflexivity|]. split.
    + intros Hn. cbn [rho]. apply negation_exact. exact Hn.
    + intros Hw. cbn [theta].
      apply flipped_theta_in_second_half_turn; assumption.
Qed.
End StoredLines.

(** The line stored for the peak of [single_peak_2x2], target 3 by 4. *)
Lemma stored_line_has_rho_not_negative_witness :
  flt (rho (line_of_peak (libm := Reference.libm) 3 4 single_peak_2x2 1 0)) F32.zero = false /\
  exists x y,
    0 <= x < width single_peak_2x2 /\ 0 <= y < height single_peak_2x2 /\
    is_peak single_peak_2x2 x y = true /\
    (is_nan (raw_rho (libm := Reference.libm) 3 4 single_peak_2x2 y) = false ->
     fge (rho (line_of_peak (libm := Reference.libm) 3 4 single_peak_2x2 1 0)) F32.zero = true) /\
    (flt (raw_rho (libm := Reference.libm) 3 4 single_peak_2x2 y) F32.zero = false ->
     line_of_peak (libm := Reference.libm) 3 4 single_peak_2x2 1 0
     = mkLine (raw_theta single_peak_2x2 x)
              (raw_rho (libm := Reference.libm) 3 4 single_peak_2x2 y) /\
     (width single_peak_2x2 <= 2 ^ 24 ->
      in_half_turn (theta (line_of_peak (libm := Reference.libm) 3 4 single_peak_2x2 1 0))
      = true)) /\
    (flt (raw_rho (libm := Reference.libm) 3 4 single_peak_2x2 y) F32.zero = true ->
     line_of_peak (libm := Reference.libm) 3 4 single_peak_2x2 1 0
     = mkLine (fmodf (to_float (F64.add (to_double (raw_theta single_peak_2x2 x)) M_PI))
                     (to_float (F64.mul (F64.of_Z 2) M_PI)))
              (F32.mul (raw_rho (libm := Reference.libm) 3 4 single_peak_2x2 y) (F32.of_Z (-1))) /\
     (normal_float (raw_rho (libm := Reference.libm) 3 4 single_peak_2x2 y) ->
      rho (line_of_peak (libm := Reference.libm) 3 4 single_peak_2x2 1 0)
      = SFopp (raw_rho (libm := Reference.libm) 3 4 single_peak_2x2 y)) /\
     (width single_peak_2x2 <= 2 ^ 24 ->
      in_second_half_turn
        (theta (line_of_peak (libm := Reference.libm) 3 4 single_peak_2x2 1 0)) = true /\
      in_half_turn
        (theta (line_of_peak (libm := Reference.libm) 3 4 single_peak_2x2 1 0)) = false)).
Proof.
  apply (stored_line_has_rho_not_negative (libm := Reference.libm) 3 4 single_peak_2x2 []).
  vm_compute. left. reflexivity.
Defined.

(** The bound on the width is needed: in an accumulator of [2 ^ 24 + 1]
    columns the angle of the last column rounds to the [float] of pi. *)
Lemma last_column_reaches_pi_beyond_2_24 :
  raw_theta (mkImage (2 ^ 24 + 1) 1 []) (2 ^ 24) = to_float M_PI /\
  in_half_turn (raw_theta (mkImage (2 ^ 24 + 1) 1 []) (2 ^ 24)) = false.
Proof. split; vm_compute; reflexivity. Qed.

(** C2, counterexample. The peak at [(1,0)] of [single_peak_2x2] has raw
    [theta = pi/2] and a negative raw [rho]; the stored line has
    [theta = 3 pi/2], above 4, outside the half-turn [[0, pi)]. *)
Lemma flipped_line_leaves_half_turn :
  In (line_of_peak (libm := Reference.libm) 3 4 single_peak_2x2 1 0)
     (FindLines (libm := Reference.libm) 3 4 single_peak_2x2 []) /\
  flt (raw_rho (libm := Reference.libm) 3 4 single_peak_2x2 0) F32.zero = true /\
  in_half_turn (raw_theta single_peak_2x2 1) = true /\
  in_half_turn (theta (line_of_peak (libm := Reference.libm) 3 4 single_peak_2x2 1 0)) = false /\
  flt (F32.of_Z 4) (theta (line_of_peak (libm := Reference.libm) 3 4 single_peak_2x2 1 0)) = true.
Proof.
  split; [vm_compute; left; reflexivity|].
  split; [vm_compute; reflexivity|].
  split; [vm_compute; reflexivity|].
  split; vm_compute; reflexivity.
Qed.

(** ** C6: every line joins exactly one cluster *)

Section ClusterFacts.
Context {geometry : Geometry}.

Lemma find_cluster_none (line : Line) (clusters : list (list Line)) :
  find_cluster line clusters = None ->
  forall c0, In c0 clusters ->
             near (theta line) c0 = false /\
             near (alternativeTheta_of (theta line)) c0 = false.
Proof.
  induction clusters as [|c rest IH]; simpl; intros E c0 Hin; [destruct Hin|].
  fold (near (theta line) c) in E.
  fold (near (alternativeTheta_of (theta line)) c) in E.
  destruct (near (theta line) c) eqn:N1; [discriminate|].
  destruct (near (alternativeTheta_of (theta line)) c) eqn:N2; [discriminate|].
  destruct (find_cluster line rest); [discriminate|].
  destruct Hin as [<-|Hin]; auto.
Qed.

Lemma find_cluster_some (line : Line) (clusters clusters' : list (list Line)) :
  find_cluster line clusters = Some clusters' ->
  exists before c after member,
    clusters = before ++ c :: after /\
    clusters' = before ++ (c ++ [member]) :: after /\
    (forall c0, In c0 before ->
                near (theta line) c0 = false /\
                near (alternativeTheta_of (theta line)) c0 = false) /\
    (member = line /\ near (theta line) c = true \/
     member = twin line /\ near (theta line) c = false /\
     near (alternativeTheta_of (theta line)) c = true).
Proof.
  revert clusters'.
  induction clusters as [|c rest IH]; simpl; intros clusters' E; [discriminate|].
  fold (near (theta line) c) in E.
  fold (near (alternativeTheta_of (theta line)) c) in E.
  destruct (near (theta line) c) eqn:N1.
  { injection E as <-. exists [], c, rest, line. simpl. intuition. }
  destruct (near (alternativeTheta_of (theta line)) c) eqn:N2.
  { injection E as <-. exists [], c, rest, (twin line). simpl. intuition. }
  destruct (find_cluster line rest) as [rest'|]; [|discriminate].
  injection E as <-.
  destruct (IH rest' eq_refl) as (before & c1 & after & member & -> & -> & Hb & Hm).
  exists (c :: before), c1, after, member.
  split; [reflexivity|]. split; [reflexivity|]. split; [|exact Hm].
  intros c0 [<-|Hin]; [split; assumption | now apply Hb].
Qed.

Lemma cluster_line_placed (clusters : list (list Line)) (line : Line) :
  placed line clusters (cluster_line clusters line).
Proof.
  unfold cluster_line. destruct (find_cluster line clusters) as [clusters'|] eqn:E.
  - destruct (find_cluster_some _ _ _ E) as (before & c & after & member & H1 & H2 & H3 & H4).
    exact (placed_in_cluster _ _ _ before c after member H1 H2 H3 H4).
  - apply placed_alone; [now apply find_cluster_none | reflexivity].
Qed.

Lemma placed_count (line : Line) (clusters clusters' : list (list Line)) :
  placed line clusters clusters' ->
  length (concat clusters') = S (length (concat clusters)).
Proof.
  intros [before c after member -> -> _ _| _ ->];
    repeat (rewrite ?concat_app, ?length_app; simpl); lia.
Qed.

Lemma Clusterize_snoc (prefix : list Line) (line : Line) (buf buf' : list (list Line)) :
  ClusterizeLinesByTheta (prefix ++ [line]) buf
  = cluster_line (ClusterizeLinesByTheta prefix buf') line.
Proof. unfold ClusterizeLinesByTheta. now rewrite fold_left_app. Qed.

(** C6. Placing the next input line adds exactly one member, the line or
    its twin, to exactly one cluster (or starts a singleton cluster), and
    after clustering the clusters hold as many lines as were given. The
    twin of a line is [(fmod(theta + M_PI, 2.0f * M_PI), rho * -1.0f)], and
    its angle is the one tested against the mean of a cluster: its [rho] is
    that of the line negated (exactly, for a [rho] that is not subnormal),
    and when the angle of the line is in [[0, pi)] the angle of its twin is
    in [[pi, 2 pi)]. *)
Theorem each_line_joins_exactly_one_cluster (buf : list (list Line)) :
  (forall (prefix : list Line) (line : Line),
      placed line (ClusterizeLinesByTheta prefix buf)
                  (ClusterizeLinesByTheta (prefix ++ [line]) buf)) /\
  (forall lines : list Line,
      length (concat (ClusterizeLinesByTheta lines buf)) = length lines) /\
  (forall line : Line,
      twin line
      = mkLine (to_float (fmod (F64.add (to_double (theta line)) M_PI)
                               (F64.mul (to_double (F32.of_Z 2)) M_PI)))
               (F32.mul (rho line) (F32.of_Z (-1))) /\
      alternativeTheta_of (theta line) = theta (twin line) /\
      (normal_float (rho line) -> rho (twin line) = SFopp (rho line)) /\
      (normal_float (theta line) -> in_half_turn (theta line) = true ->
       in_second_half_turn (theta (twin line)) = true /\
       in_half_turn (theta (twin line)) = false)).
Proof.
  split; [|split].
  - intros prefix line. rewrite (Clusterize_snoc prefix line buf buf).
    apply cluster_line_placed.
  - intros lines. induction lines as [|line prefix IH] using rev_ind; [reflexivity|].
    rewrite (Clusterize_snoc prefix line buf buf).
    rewrite (placed_count _ _ _ (cluster_line_placed _ line)), IH, length_app.
    simpl. lia.
  - intros line. split; [reflexivity|]. split; [reflexivity|]. split.
    + intros Hn. unfold twin. cbn [rho]. apply negation_exact. exact Hn.
    + intros Hn Hin. unfold twin. cbn [theta].
      apply twin_theta_in_second_half_turn; assumption.
Qed.
End ClusterFacts.

(** ** C7: the evenly-spaced search *)

Lemma is_nan_sub_r (x y : float) : is_nan (F32.sub x y) = false -> is_nan y = false.
Proof.
  destruct y as [s|s| |s m e]; try reflexivity.
  destruct x; intros E; discriminate E.
Qed.

Lemma is_nan_div_l (x y : float) : is_nan (F32.div x y) = false -> is_nan x = false.
Proof.
  destruct x as [s|s| |s m e]; try reflexivity.
  destruct y; intros E; discriminate E.
Qed.

Lemma is_nan_fabsf (x : float) : is_nan (fabsf x) = is_nan x.
Proof. destruct x; reflexivity. Qed.

Lemma evenly_spaced_range_not_nan (c : list Line) :
  evenly_spaced c = true -> is_nan (range_of c) = false.
Proof.
  unfold evenly_spaced, range_of. intros E.
  apply andb_prop in E as [E _]. apply andb_prop in E as [E _].
  apply flt_not_nan in E as [E _]. rewrite is_nan_fabsf in E.
  apply is_nan_sub_r in E. now apply is_nan_div_l in E.
Qed.

Lemma accepted_range_not_nan (lineCluster : list Line) (x : Z) :
  accepted lineCluster x = true -> is_nan (range_at lineCluster x) = false.
Proof.
  unfold accepted. intros E. apply andb_prop in E as [_ E].
  now apply evenly_spaced_range_not_nan.
Qed.

Lemma searched_step (lineCluster : list Line) (k : Z) (st : float * list Line) :
  0 <= k -> searched lineCluster k st ->
  searched lineCluster (k + 1) (subset_step lineCluster k st).
Proof.
  intros Hk Inv. unfold subset_step.
  destruct (Z.eqb_spec (popcount k) 4) as [Hpop|Hpop]; simpl.
  2:{ (* not a combination: nothing changes *)
    assert (Hrej : accepted lineCluster k = false).
    { unfold accepted. now apply Z.eqb_neq in Hpop as ->. }
    destruct Inv as [[-> Hall]|(x0 & Hx0 & A0 & -> & N0 & Hall)].
    - left. split; [reflexivity|]. intros x Hx Ax.
      destruct (Z.eq_dec x k) as [->|]; [congruence | apply Hall; [lia | assumption]].
    - right. exists x0. repeat split; try assumption; try lia;
        destruct (Z.eq_dec x k) as [->|]; try congruence; apply Hall; (lia || assumption). }
  fold (range_at lineCluster k).
  assert (Hacc : accepted lineCluster k = evenly_spaced (combination lineCluster k)).
  { unfold accepted. now apply Z.eqb_eq in Hpop as ->. }
  destruct Inv as [[-> Hall]|(x0 & Hx0 & A0 & -> & N0 & Hall)]; simpl.
  - (* nothing kept so far *)
    destruct (flt (range_at lineCluster k) F32.zero) eqn:Hlt.
    + left. split; [reflexivity|]. intros x Hx Ax.
      destruct (Z.eq_dec x k) as [->|]; [assumption | apply Hall; [lia | assumption]].
    + destruct (evenly_spaced (combination lineCluster k)) eqn:Hev.
      * right. exists k. rewrite Hacc.
        split; [lia|]. split; [reflexivity|]. split; [reflexivity|]. split; [assumption|].
        intros x Hx Ax. destruct (Z.eq_dec x k) as [->|Hne].
        -- split; [|lia]. apply fle_refl. apply accepted_range_not_nan. now rewrite Hacc.
        -- split; [|lia]. assert (Hx' : 0 <= x < k) by lia.
           pose proof (Hall x Hx' Ax) as Hneg.
           apply flt_fle. apply (flt_fle_trans _ F32.zero); [assumption|].
           apply not_flt_fle; [|reflexivity|assumption].
           apply accepted_range_not_nan. now rewrite Hacc.
      * left. split; [reflexivity|]. intros x Hx Ax.
        destruct (Z.eq_dec x k) as [->|]; [congruence | apply Hall; [lia | assumption]].
  - (* the combination of x0 is kept *)
    pose proof (accepted_range_not_nan _ _ A0) as Nan0.
    destruct (flt (range_at lineCluster k) (range_at lineCluster x0)) eqn:Hlt.
    + right. exists x0. split; [lia|]. split; [assumption|]. split; [reflexivity|].
      split; [assumption|]. intros x Hx Ax.
      destruct (Z.eq_dec x k) as [->|Hne]; [|apply Hall; [lia | assumption]].
      split; [now apply flt_fle | intros _; assumption].
    + destruct (evenly_spaced (combination lineCluster k)) eqn:Hev.
      * assert (Ak : accepted lineCluster k = true) by now rewrite Hacc.
        pose proof (accepted_range_not_nan _ _ Ak) as Nank.
        assert (Hle : fle (range_at lineCluster x0) (range_at lineCluster k) = true)
          by now apply not_flt_fle.
        right. exists k. split; [lia|]. split; [assumption|]. split; [reflexivity|].
        split.
        { apply fle_flt_false. apply (fle_trans _ (range_at lineCluster x0)); [|assumption].
          now apply not_flt_fle. }
        intros x Hx Ax. destruct (Z.eq_dec x k) as [->|Hne].
        -- split; [now apply fle_refl | lia].
        -- split; [|lia]. assert (Hx' : 0 <= x < k) by lia.
           destruct (Hall x Hx' Ax) as [Hxle _].
           now apply (fle_trans _ (range_at lineCluster x0)).
      * right. exists x0. split; [lia|]. split; [assumption|]. split; [reflexivity|].
        split; [assumption|]. intros x Hx Ax.
        destruct (Z.eq_dec x k) as [->|Hne]; [congruence | apply Hall; [lia | assumption]].
Qed.

Lemma searched_loop (lineCluster : list Line) (n : nat) :
  forall k st, 0 <= k -> searched lineCluster k st ->
               searched lineCluster (k + Z.of_nat n) (subset_loop lineCluster n k st).
Proof.
  induction n as [|n IH]; intros k st Hk Inv.
  - simpl. now rewrite Z.add_0_r.
  - cbn [subset_loop]. replace (k + Z.of_nat (S n)) with (k + 1 + Z.of_nat n) by lia.
    apply IH; [lia|]. now apply searched_step.
Qed.

Lemma finalSubset_nonneg (size : Z) : 0 <= finalSubset_of size.
Proof. unfold finalSubset_of, u32. apply Z.mod_pos_bound. lia. Qed.

Lemma search_cluster_searched (lineCluster : list Line) :
  searched lineCluster (finalSubset_of (Z.of_nat (length lineCluster)) + 1)
           (search_cluster lineCluster).
Proof.
  unfold search_cluster.
  pose proof (finalSubset_nonneg (Z.of_nat (length lineCluster))) as Hf.
  pose proof (searched_loop lineCluster
                (Z.to_nat (finalSubset_of (Z.of_nat (length lineCluster)) + 1))
                0 (F32.zero, []) (Z.le_refl 0)) as L.
  rewrite Z2Nat.id, Z.add_0_l in L by lia. apply L.
  left. split; [reflexivity|]. intros x Hx. lia.
Qed.

(** *** Bit patterns and the lines they select *)

Lemma set_bits_from_firstn (value : Z) (xs : list Z) :
  forall outputIndex, (outputIndex <= 4)%nat ->
    set_bits_from value xs outputIndex
    = firstn (4 - outputIndex) (filter (Z.testbit value) xs).
Proof.
  induction xs as [|x xs IH]; intros k Hk; cbn [set_bits_from filter].
  - now rewrite firstn_nil.
  - destruct (Nat.ltb_spec k 4) as [Hlt|Hge].
    + destruct (Z.testbit value x).
      * rewrite IH by lia. replace (4 - k)%nat with (S (4 - S k)) by lia. reflexivity.
      * now apply IH.
    + replace (4 - k)%nat with 0%nat by lia. reflexivity.
Qed.

Lemma popcount_length (value : Z) :
  popcount value = Z.of_nat (length (filter (Z.testbit value) (range 32))).
Proof.
  unfold popcount. induction (range 32) as [|x xs IH]; simpl; [reflexivity|].
  rewrite IH. destruct (Z.testbit value x); simpl length; simpl Z.b2z; lia.
Qed.

Lemma GetSetBitIndexes_filter (value : Z) :
  popcount value = 4 ->
  GetSetBitIndexes value = filter (Z.testbit value) (range 32).
Proof.
  intros Hp. unfold GetSetBitIndexes. rewrite set_bits_from_firstn by lia.
  apply firstn_all2. rewrite popcount_length in Hp. lia.
Qed.

Lemma increasing_map_of_nat (l : list nat) :
  (forall a b l1 l2, l = l1 ++ a :: l2 -> In b l2 -> (a < b)%nat) ->
  increasing (map Z.of_nat l).
Proof.
  induction l as [|a l IH]; simpl; intros Hl; [exact I|]. split.
  - intros y Hy. apply in_map_iff in Hy as (b & <- & Hb).
    apply inj_lt. exact (Hl a b [] l eq_refl Hb).
  - apply IH. intros a' b l1 l2 -> Hb. exact (Hl a' b (a :: l1) l2 eq_refl Hb).
Qed.

Lemma seq_increasing (len start : nat) (a b : nat) (l1 l2 : list nat) :
  seq start len = l1 ++ a :: l2 -> In b l2 -> (a < b)%nat.
Proof.
  revert start l1. induction len as [|len IH]; intros start l1 E Hb; simpl in E.
  - destruct l1; discriminate.
  - destruct l1 as [|c l1]; simpl in E; injection E as E1 E2.
    + subst. apply in_seq in Hb. lia.
    + exact (IH _ _ E2 Hb).
Qed.

Lemma range_increasing (n : Z) : increasing (range n).
Proof.
  unfold range. apply increasing_map_of_nat.
  intros a b l1 l2 E Hb. exact (seq_increasing _ _ _ _ _ _ E Hb).
Qed.

Lemma filter_increasing (f : Z -> bool) (l : list Z) :
  increasing l -> increasing (filter f l).
Proof.
  induction l as [|x l IH]; simpl; [tauto|]. intros [Hx Hl].
  destruct (f x); simpl; auto. split; auto.
  intros y Hy. apply filter_In in Hy as [Hy _]. auto.
Qed.

Lemma bits_above (x n i : Z) : 0 <= x < 2 ^ n -> 0 <= n <= i -> Z.testbit x i = false.
Proof.
  intros Hx Hi. destruct (Z.eq_dec x 0) as [->|Hne]; [apply Z.bits_0|].
  apply Z.bits_above_log2; [lia|].
  assert (Z.log2 x < n) by (apply Z.log2_lt_pow2; lia). lia.
Qed.

Lemma finalSubset_value (n : Z) : 4 <= n <= 32 -> finalSubset_of n = 15 * 2 ^ (n - 4).
Proof.
  intros Hn. unfold finalSubset_of, u32. apply Z.mod_small.
  assert (0 < 2 ^ (n - 4)) by (apply Z.pow_pos_nonneg; lia).
  assert (2 ^ (n - 4) <= 2 ^ 28) by (apply Z.pow_le_mono_r; lia).
  change (2 ^ 32) with (16 * 2 ^ 28). lia.
Qed.

Lemma finalSubset_below_pow2 (n : Z) : 4 <= n <= 32 -> finalSubset_of n < 2 ^ n.
Proof.
  intros Hn. rewrite finalSubset_value by lia.
  replace n with (4 + (n - 4)) at 2 by lia. rewrite Z.pow_add_r by lia.
  assert (0 < 2 ^ (n - 4)) by (apply Z.pow_pos_nonneg; lia).
  change (2 ^ 4) with 16. lia.
Qed.

(** A pattern of the subset loop with four bits set selects the lines at
    four increasing indexes of the cluster. *)
Lemma combination_indexes (lineCluster : list Line) (x : Z) :
  let n := Z.of_nat (length lineCluster) in
  4 <= n <= 32 -> 0 <= x <= finalSubset_of n -> popcount x = 4 ->
  exists i0 i1 i2 i3,
    0 <= i0 < i1 /\ i1 < i2 /\ i2 < i3 /\ i3 < n /\
    GetSetBitIndexes x = [i0; i1; i2; i3] /\
    combination lineCluster x
    = [at_index lineCluster i0; at_index lineCluster i1;
       at_index lineCluster i2; at_index lineCluster i3].
Proof.
  intros n Hn Hx Hp.
  pose proof (GetSetBitIndexes_filter x Hp) as E.
  pose proof (filter_increasing (Z.testbit x) _ (range_increasing 32)) as Hinc.
  pose proof (finalSubset_below_pow2 n Hn) as Hfin.
  assert (Hin : forall i, In i (GetSetBitIndexes x) -> 0 <= i < n).
  { intros i Hi. rewrite E in Hi. apply filter_In in Hi as [Hr Hb].
    apply in_range in Hr. split; [lia|].
    destruct (Z_lt_le_dec i n) as [|Hge]; [assumption|].
    rewrite (bits_above x n i) in Hb by lia. discriminate. }
  rewrite <- E in Hinc. rewrite popcount_length, <- E in Hp.
  unfold combination.
  destruct (GetSetBitIndexes x) as [|i0 [|i1 [|i2 [|i3 [|i4 l]]]]];
    simpl in Hp; try lia.
  exists i0, i1, i2, i3. simpl in Hinc.
  destruct Hinc as (H0 & (H1 & (H2 & _))).
  pose proof (Hin i0 (or_introl eq_refl)).
  pose proof (Hin i3 (or_intror (or_intror (or_intror (or_introl eq_refl))))).
  pose proof (H0 i1 (or_introl eq_refl)).
  pose proof (H1 i2 (or_introl eq_refl)).
  pose proof (H2 i3 (or_introl eq_refl)).
  repeat split; try lia; reflexivity.
Qed.

Lemma add_pow2_testbit (a y i : Z) :
  0 <= a -> Z.testbit y a = false ->
  Z.testbit (2 ^ a + y) i = (a =? i) || Z.testbit y i.
Proof.
  intros Ha Hy.
  assert (Hland : Z.land (2 ^ a) y = 0).
  { apply Z.bits_inj'. intros n _.
    rewrite Z.land_spec, Z.bits_0, Z.pow2_bits_eqb by assumption.
    destruct (Z.eqb_spec a n) as [<-|]; [now rewrite Hy | reflexivity]. }
  rewrite (Z.add_nocarry_lxor _ _ Hland), Z.lxor_spec, Z.pow2_bits_eqb by assumption.
  destruct (Z.eqb_spec a i) as [<-|]; [now rewrite Hy | reflexivity].
Qed.

Lemma pattern_testbit (i0 i1 i2 i3 i : Z) :
  0 <= i0 < i1 -> i1 < i2 -> i2 < i3 ->
  Z.testbit (pattern i0 i1 i2 i3) i
  = (i0 =? i) || ((i1 =? i) || ((i2 =? i) || (i3 =? i))).
Proof.
  intros H0 H1 H2. unfold pattern.
  replace (2 ^ i0 + 2 ^ i1 + 2 ^ i2 + 2 ^ i3)
    with (2 ^ i0 + (2 ^ i1 + (2 ^ i2 + (2 ^ i3 + 0)))) by lia.
  assert (B3 : forall j, Z.testbit (2 ^ i3 + 0) j = (i3 =? j) || false).
  { intros j. rewrite add_pow2_testbit; [now rewrite Z.bits_0 | lia | apply Z.bits_0]. }
  assert (B2 : forall j, Z.testbit (2 ^ i2 + (2 ^ i3 + 0)) j
                         = (i2 =? j) || ((i3 =? j) || false)).
  { intros j. rewrite add_pow2_testbit, B3; [reflexivity | lia |].
    rewrite B3. destruct (Z.eqb_spec i3 i2); [lia | reflexivity]. }
  assert (B1 : forall j, Z.testbit (2 ^ i1 + (2 ^ i2 + (2 ^ i3 + 0))) j
                         = (i1 =? j) || ((i2 =? j) || ((i3 =? j) || false))).
  { intros j. rewrite add_pow2_testbit, B2; [reflexivity | lia |].
    rewrite B2. destruct (Z.eqb_spec i2 i1), (Z.eqb_spec i3 i1); try lia; reflexivity. }
  rewrite add_pow2_testbit, B1; [now rewrite orb_false_r | lia |].
  rewrite B1.
  destruct (Z.eqb_spec i1 i0), (Z.eqb_spec i2 i0), (Z.eqb_spec i3 i0); try lia; reflexivity.
Qed.

(** Two increasing lists with the same elements are equal. *)
Lemma increasing_ext (l1 : list Z) :
  forall l2, increasing l1 -> increasing l2 ->
             (forall x, In x l1 <-> In x l2) -> l1 = l2.
Proof.
  induction l1 as [|a l1 IH]; intros [|b l2] I1 I2 Hin.
  - reflexivity.
  - destruct (proj2 (Hin b) (or_introl eq_refl)).
  - destruct (proj1 (Hin a) (or_introl eq_refl)).
  - destruct I1 as [A1 I1], I2 as [B2 I2].
    assert (Hab : a = b).
    { destruct (proj1 (Hin a) (or_introl eq_refl)) as [E|Ha]; [congruence|].
      destruct (proj2 (Hin b) (or_introl eq_refl)) as [E|Hb]; [congruence|].
      pose proof (A1 b Hb). pose proof (B2 a Ha). lia. }
    subst b. f_equal. apply IH; trivial.
    intros x. split; intros Hx.
    + destruct (proj1 (Hin x) (or_intror Hx)) as [E|Hx2]; [|exact Hx2].
      pose proof (A1 x Hx). lia.
    + destruct (proj2 (Hin x) (or_intror Hx)) as [E|Hx1]; [|exact Hx1].
      pose proof (B2 x Hx). lia.
Qed.

Lemma pattern_set_bits (i0 i1 i2 i3 : Z) :
  0 <= i0 < i1 -> i1 < i2 -> i2 < i3 -> i3 < 32 ->
  filter (Z.testbit (pattern i0 i1 i2 i3)) (range 32) = [i0; i1; i2; i3].
Proof.
  intros H0 H1 H2 H3. apply increasing_ext.
  - apply filter_increasing, range_increasing.
  - simpl. repeat split; try tauto; intros y Hy;
      repeat (destruct Hy as [<-|Hy]; [lia|]); destruct Hy.
  - intros x. rewrite filter_In, in_range, pattern_testbit by assumption.
    simpl. split.
    + intros [_ Hb].
      destruct (Z.eqb_spec i0 x); [tauto|].
      destruct (Z.eqb_spec i1 x); [tauto|].
      destruct (Z.eqb_spec i2 x); [tauto|].
      destruct (Z.eqb_spec i3 x); [tauto | discriminate].
    + intros [<-|[<-|[<-|[<-|[]]]]]; (split; [lia|]);
        rewrite ?Z.eqb_refl, ?orb_true_r; reflexivity.
Qed.

(** Every choice of four increasing indexes below [n <= 32] is met by the
    subset loop, as the pattern with those four bits set. *)
Lemma pattern_enumerated (n i0 i1 i2 i3 : Z) :
  0 <= i0 < i1 -> i1 < i2 -> i2 < i3 -> i3 < n -> n <= 32 ->
  0 <= pattern i0 i1 i2 i3 <= finalSubset_of n /\
  popcount (pattern i0 i1 i2 i3) = 4 /\
  GetSetBitIndexes (pattern i0 i1 i2 i3) = [i0; i1; i2; i3].
Proof.
  intros H0 H1 H2 H3 Hn.
  pose proof (pattern_set_bits i0 i1 i2 i3 H0 H1 H2 ltac:(lia)) as Hbits.
  assert (Hp : popcount (pattern i0 i1 i2 i3) = 4).
  { rewrite popcount_length, Hbits. reflexivity. }
  split; [|split; [exact Hp|]].
  - unfold pattern. rewrite finalSubset_value by lia.
    assert (0 < 2 ^ i0) by (apply Z.pow_pos_nonneg; lia).
    assert (2 ^ i0 <= 2 ^ (n - 4)) by (apply Z.pow_le_mono_r; lia).
    assert (2 ^ i1 <= 2 ^ (n - 3)) by (apply Z.pow_le_mono_r; lia).
    assert (2 ^ i2 <= 2 ^ (n - 2)) by (apply Z.pow_le_mono_r; lia).
    assert (2 ^ i3 <= 2 ^ (n - 1)) by (apply Z.pow_le_mono_r; lia).
    assert (0 < 2 ^ i1) by (apply Z.pow_pos_nonneg; lia).
    assert (0 < 2 ^ i2) by (apply Z.pow_pos_nonneg; lia).
    assert (0 < 2 ^ i3) by (apply Z.pow_pos_nonneg; lia).
    replace (n - 3) with (1 + (n - 4)) in * by lia.
    replace (n - 2) with (2 + (n - 4)) in * by lia.
    replace (n - 1) with (3 + (n - 4)) in * by lia.
    rewrite Z.pow_add_r in * by lia.
    change (2 ^ 1) with 2 in *. change (2 ^ 2) with 4 in *. change (2 ^ 3) with 8 in *.
    lia.
  - rewrite (GetSetBitIndexes_filter _ Hp). exact Hbits.
Qed.

Lemma combination_of_pattern (lineCluster : list Line) (n i0 i1 i2 i3 : Z) :
  0 <= i0 < i1 -> i1 < i2 -> i2 < i3 -> i3 < n -> n <= 32 ->
  combination lineCluster (pattern i0 i1 i2 i3)
  = [at_index lineCluster i0; at_index lineCluster i1;
     at_index lineCluster i2; at_index lineCluster i3].
Proof.
  intros H0 H1 H2 H3 Hn. unfold combination.
  destruct (pattern_enumerated n i0 i1 i2 i3 H0 H1 H2 H3 Hn) as (_ & _ & ->).
  reflexivity.
Qed.

Lemma same_set_bits (x y : Z) :
  0 <= x < 2 ^ 32 -> 0 <= y < 2 ^ 32 ->
  filter (Z.testbit x) (range 32) = filter (Z.testbit y) (range 32) ->
  x = y.
Proof.
  intros Hx Hy E. apply Z.bits_inj'. intros i Hi.
  destruct (Z_lt_le_dec i 32) as [Hlt|Hge].
  - assert (Hr : In i (range 32)) by (apply in_range; lia).
    assert (Hiff : Z.testbit x i = true <-> Z.testbit y i = true).
    { split; intros Hb.
      - assert (Hin : In i (filter (Z.testbit x) (range 32))) by (apply filter_In; auto).
        rewrite E in Hin. apply filter_In in Hin as [_ Hy']. exact Hy'.
      - assert (Hin : In i (filter (Z.testbit y) (range 32))) by (apply filter_In; auto).
        rewrite <- E in Hin. apply filter_In in Hin as [_ Hx']. exact Hx'. }
    destruct (Z.testbit x i), (Z.testbit y i); intuition congruence.
  - rewrite (bits_above x 32 i), (bits_above y 32 i) by lia. reflexivity.
Qed.

Lemma pattern_of_combination (lineCluster : list Line) (x : Z) :
  let n := Z.of_nat (length lineCluster) in
  4 <= n <= 32 -> 0 <= x <= finalSubset_of n -> popcount x = 4 ->
  exists i0 i1 i2 i3,
    chosen n i0 i1 i2 i3 /\ x = pattern i0 i1 i2 i3 /\
    combination lineCluster x = lines_at lineCluster i0 i1 i2 i3.
Proof.
  intros n Hn Hx Hp.
  destruct (combination_indexes lineCluster x Hn Hx Hp)
    as (i0 & i1 & i2 & i3 & H0 & H1 & H2 & H3 & Hidx & Hc).
  exists i0, i1, i2, i3. split; [unfold chosen; auto|]. split; [|exact Hc].
  destruct (pattern_enumerated n i0 i1 i2 i3 H0 H1 H2 H3 (proj2 Hn)) as (Hr & Hp' & Hidx').
  pose proof (finalSubset_below_pow2 n Hn) as Hfin.
  assert (2 ^ n <= 2 ^ 32) by (apply Z.pow_le_mono_r; lia).
  apply same_set_bits; try lia.
  rewrite <- (GetSetBitIndexes_filter x Hp), <- (GetSetBitIndexes_filter _ Hp').
  congruence.
Qed.

Section EvenSpacing.
Context {sorter : StdSort}.

(** C7, as the code has it. The clusters are sorted by [|rho|] and searched
    one by one. A cluster of fewer than 4 or more than 32 lines gives no
    axis. Otherwise, over the choices of four lines at increasing indexes
    (a choice is accepted when [evenly_spaced]): either no axis is kept and
    every accepted choice has a negative range, or the axis kept is an
    accepted choice whose range is not negative and not below the range of
    any accepted choice, and every accepted choice found after it (a
    larger bit pattern) has a strictly smaller range: among accepted
    choices of equal range the last one found is kept. *)
Theorem widest_evenly_spaced_lines_last_on_ties
        (lineClusters buf : list (list Line)) :
  FindPossiblePuzzleLines lineClusters buf
  = (map (std_sort by_abs_rho) lineClusters,
     flat_map candidate_axis (map (std_sort by_abs_rho) lineClusters)) /\
  forall lineCluster : list Line,
    let n := Z.of_nat (length lineCluster) in
    (n < 4 \/ 32 < n -> candidate_axis lineCluster = []) /\
    (4 <= n <= 32 ->
     (candidate_axis lineCluster = [] /\
      forall i0 i1 i2 i3,
        chosen n i0 i1 i2 i3 ->
        evenly_spaced (lines_at lineCluster i0 i1 i2 i3) = true ->
        flt (range_of (lines_at lineCluster i0 i1 i2 i3)) F32.zero = true)
     \/
     (exists j0 j1 j2 j3,
        chosen n j0 j1 j2 j3 /\
        candidate_axis lineCluster = [lines_at lineCluster j0 j1 j2 j3] /\
        evenly_spaced (lines_at lineCluster j0 j1 j2 j3) = true /\
        flt (range_of (lines_at lineCluster j0 j1 j2 j3)) F32.zero = false /\
        forall i0 i1 i2 i3,
          chosen n i0 i1 i2 i3 ->
          evenly_spaced (lines_at lineCluster i0 i1 i2 i3) = true ->
          fle (range_of (lines_at lineCluster i0 i1 i2 i3))
              (range_of (lines_at lineCluster j0 j1 j2 j3)) = true /\
          (pattern j0 j1 j2 j3 < pattern i0 i1 i2 i3 ->
           flt (range_of (lines_at lineCluster i0 i1 i2 i3))
               (range_of (lines_at lineCluster j0 j1 j2 j3)) = true))).
Proof.
  split.
  { unfold FindPossiblePuzzleLines, sort_clusters, search_clusters.
    now rewrite fold_left_append. }
  intros lineCluster n. split.
  { intros Hn. unfold candidate_axis. fold n.
    destruct (Z.ltb_spec n 4); [reflexivity|].
    destruct (Z.ltb_spec 32 n); [reflexivity | lia]. }
  intros Hn.
  assert (Hcand : candidate_axis lineCluster
                  = match snd (search_cluster lineCluster) with
                    | [] => []
                    | _ => [snd (search_cluster lineCluster)]
                    end).
  { unfold candidate_axis. fold n.
    destruct (Z.ltb_spec n 4); [lia|]. destruct (Z.ltb_spec 32 n); [lia | reflexivity]. }
  assert (Hpat : forall i0 i1 i2 i3,
             chosen n i0 i1 i2 i3 ->
             evenly_spaced (lines_at lineCluster i0 i1 i2 i3) = true ->
             0 <= pattern i0 i1 i2 i3 < finalSubset_of n + 1 /\
             accepted lineCluster (pattern i0 i1 i2 i3) = true /\
             range_at lineCluster (pattern i0 i1 i2 i3)
             = range_of (lines_at lineCluster i0 i1 i2 i3)).
  { intros i0 i1 i2 i3 (H0 & H1 & H2 & H3) Hev.
    destruct (pattern_enumerated n i0 i1 i2 i3 H0 H1 H2 H3 (proj2 Hn)) as (Hr & Hp & _).
    pose proof (combination_of_pattern lineCluster n i0 i1 i2 i3 H0 H1 H2 H3 (proj2 Hn)) as Hc.
    fold (lines_at lineCluster i0 i1 i2 i3) in Hc.
    unfold accepted, range_at. rewrite Hc, Hp, Hev. split; [lia|]. split; reflexivity. }
  rewrite Hcand.
  destruct (search_cluster_searched lineCluster)
    as [[-> Hall]|(x0 & Hx0 & A0 & -> & N0 & Hall)]; fold n in Hall |- *.
  - left. split; [reflexivity|]. intros i0 i1 i2 i3 Hch Hev.
    destruct (Hpat i0 i1 i2 i3 Hch Hev) as (Hr & Ha & <-). now apply Hall.
  - right. fold n in Hx0.
    assert (Hp0 : popcount x0 = 4).
    { unfold accepted in A0. apply andb_prop in A0 as [A0 _]. now apply Z.eqb_eq. }
    assert (Hx0r : 0 <= x0 <= finalSubset_of n) by lia.
    destruct (pattern_of_combination lineCluster x0 Hn Hx0r Hp0)
      as (j0 & j1 & j2 & j3 & Hch0 & Hx0' & Hc0).
    exists j0, j1, j2, j3. unfold range_at in *. rewrite Hc0 in *. simpl snd.
    split; [exact Hch0|]. split; [reflexivity|].
    split.
    { unfold accepted in A0. apply andb_prop in A0 as [_ A0].
      rewrite Hc0 in A0. exact A0. }
    split; [exact N0|].
    intros i0 i1 i2 i3 Hch Hev.
    destruct (Hpat i0 i1 i2 i3 Hch Hev) as (Hr & Ha & Hrg).
    destruct (Hall _ Hr Ha) as [Hle Hlt]. unfold range_at in Hrg.
    rewrite Hrg in Hle, Hlt. split; [exact Hle|]. intros Hafter. apply Hlt. lia.
Qed.
End EvenSpacing.

(** The search on [tied_cluster], a cluster of 5 lines. *)
Lemma widest_evenly_spaced_lines_last_on_ties_witness :
  (candidate_axis tied_cluster = [] /\
   forall i0 i1 i2 i3,
     chosen 5 i0 i1 i2 i3 ->
     evenly_spaced (lines_at tied_cluster i0 i1 i2 i3) = true ->
     flt (range_of (lines_at tied_cluster i0 i1 i2 i3)) F32.zero = true)
  \/
  (exists j0 j1 j2 j3,
     chosen 5 j0 j1 j2 j3 /\
     candidate_axis tied_cluster = [lines_at tied_cluster j0 j1 j2 j3] /\
     evenly_spaced (lines_at tied_cluster j0 j1 j2 j3) = true /\
     flt (range_of (lines_at tied_cluster j0 j1 j2 j3)) F32.zero = false /\
     forall i0 i1 i2 i3,
       chosen 5 i0 i1 i2 i3 ->
       evenly_spaced (lines_at tied_cluster i0 i1 i2 i3) = true ->
       fle (range_of (lines_at tied_cluster i0 i1 i2 i3))
           (range_of (lines_at tied_cluster j0 j1 j2 j3)) = true /\
       (pattern j0 j1 j2 j3 < pattern i0 i1 i2 i3 ->
        flt (range_of (lines_at tied_cluster i0 i1 i2 i3))
            (range_of (lines_at tied_cluster j0 j1 j2 j3)) = true)).
Proof.
  apply (proj2 (proj2 (widest_evenly_spaced_lines_last_on_ties
                         (sorter := Reference.sorter) [] []) tied_cluster)).
  simpl. lia.
Defined.

(** C7, counterexample. In [tied_cluster] the choices of indexes 0,1,3,4
    and 0,2,3,4 are both evenly spaced with the same range 90; the first is
    found first (pattern 27 before 29), and the axis kept is the second. *)
Lemma tie_keeps_the_last_found :
  evenly_spaced (lines_at tied_cluster 0 1 3 4) = true /\
  evenly_spaced (lines_at tied_cluster 0 2 3 4) = true /\
  range_of (lines_at tied_cluster 0 1 3 4) = range_of (lines_at tied_cluster 0 2 3 4) /\
  pattern 0 1 3 4 < pattern 0 2 3 4 /\
  snd (FindPossiblePuzzleLines (sorter := Reference.sorter) [tied_cluster] [])
  = [lines_at tied_cluster 0 2 3 4] /\
  lines_at tied_cluster 0 2 3 4 <> lines_at tied_cluster 0 1 3 4.
Proof.
  split; [vm_compute; reflexivity|].
  split; [vm_compute; reflexivity|].
  split; [vm_compute; reflexivity|].
  split; [vm_compute; reflexivity|].
  split; [vm_compute; reflexivity|].
  vm_compute. discriminate.
Qed.

(** ** C8: the more horizontal axis comes first *)

Section PairFacts.
Context {libm : Libm} {geometry : Geometry}.

Lemma In_FindPuzzles (axes : list (list Line)) (buf : list (list Line * list Line))
      (pair : list Line * list Line) :
  In pair (FindPuzzles axes buf) <->
  exists y x, 0 <= y < x /\ x < Z.of_nat (length axes) /\
              orthogonal (axis_theta (axis_at axes y)) (axis_theta (axis_at axes x)) = true /\
              pair = order_pair (axis_at axes y) (axis_at axes x).
Proof.
  unfold FindPuzzles.
  destruct (Z.ltb_spec (Z.of_nat (length axes)) 2) as [Hs|Hs].
  { simpl. split; [tauto|]. intros (y & x & Hy & Hx & _). lia. }
  set (emit := fun y x =>
         if orthogonal (axis_theta (axis_at axes y)) (axis_theta (axis_at axes x))
         then [order_pair (axis_at axes y) (axis_at axes x)] else []).
  rewrite (fold_left_ext_in _
             (fun acc y => acc ++ flat_map (emit y)
                (map (fun k => y + 1 + k) (range (Z.of_nat (length axes) - (y + 1)))))).
  2:{ intros acc y _. rewrite <- fold_left_append. apply fold_left_ext_in.
      intros acc' x _. unfold emit.
      destruct (orthogonal _ _); [reflexivity | now rewrite app_nil_r]. }
  rewrite fold_left_append. simpl. rewrite in_flat_map. split.
  - intros (y & Hy & Hin). apply in_flat_map in Hin as (x & Hx & Hin).
    apply in_range in Hy. apply in_map_iff in Hx as (k & <- & Hk). apply in_range in Hk.
    unfold emit in Hin. destruct (orthogonal _ _) eqn:O; [|destruct Hin].
    destruct Hin as [<-|[]]. exists y, (y + 1 + k). repeat split; try lia; assumption.
  - intros (y & x & Hy & Hx & O & ->). exists y. split; [apply in_range; lia|].
    apply in_flat_map. exists x. split.
    + apply in_map_iff. exists (x - (y + 1)). split; [lia | apply in_range; lia].
    + unfold emit. rewrite O. now left.
Qed.

Lemma axis_at_In (axes : list (list Line)) (i : Z) :
  0 <= i < Z.of_nat (length axes) -> In (axis_at axes i) axes.
Proof. intros Hi. unfold axis_at. apply nth_In. lia. Qed.

(** C8. Every pair that [FindPuzzles] accepts is made of two candidate
    axes [y < x] whose angles are about pi/2 apart, in one order or the
    other, and the axis placed first has the larger or equal [cos(theta)]
    (the cosines being numbers). *)
Theorem more_horizontal_axis_first
        (axes : list (list Line)) (buf : list (list Line * list Line))
        (pair : list Line * list Line) :
  (forall axis, In axis axes -> is_nan (cos (axis_theta axis)) = false) ->
  In pair (FindPuzzles axes buf) ->
  fge (cos (axis_theta (fst pair))) (cos (axis_theta (snd pair))) = true /\
  exists y x,
    0 <= y < x /\ x < Z.of_nat (length axes) /\
    orthogonal (axis_theta (axis_at axes y)) (axis_theta (axis_at axes x)) = true /\
    (pair = (axis_at axes y, axis_at axes x) \/ pair = (axis_at axes x, axis_at axes y)).
Proof.
  intros Hnum Hin.
  apply In_FindPuzzles in Hin as (y & x & Hy & Hx & O & ->).
  pose proof (Hnum _ (axis_at_In axes y ltac:(lia))) as Ny.
  pose proof (Hnum _ (axis_at_In axes x ltac:(lia))) as Nx.
  unfold order_pair, fgt.
  destruct (SFltb (cos (axis_theta (axis_at axes x))) (cos (axis_theta (axis_at axes y)))) eqn:C;
    cbn [fst snd]; (split; [|exists y, x; auto]).
  - apply flt_fle, C.
  - unfold fge. apply not_flt_fle; assumption.
Qed.
End PairFacts.

(** The pair accepted from [axis_90] and [axis_0], given in that order. *)
Lemma more_horizontal_axis_first_witness :
  fge (cos (Libm := Reference.libm) (axis_theta (fst (axis_0, axis_90))))
      (cos (Libm := Reference.libm) (axis_theta (snd (axis_0, axis_90)))) = true /\
  exists y x,
    0 <= y < x /\ x < Z.of_nat (length [axis_90; axis_0]) /\
    orthogonal (geometry := Reference.geometry)
               (axis_theta (axis_at [axis_90; axis_0] y))
               (axis_theta (axis_at [axis_90; axis_0] x)) = true /\
    ((axis_0, axis_90) = (axis_at [axis_90; axis_0] y, axis_at [axis_90; axis_0] x) \/
     (axis_0, axis_90) = (axis_at [axis_90; axis_0] x, axis_at [axis_90; axis_0] y)).
Proof.
  apply (more_horizontal_axis_first (libm := Reference.libm) (geometry := Reference.geometry)
           [axis_90; axis_0] [] (axis_0, axis_90)).
  - intros axis [<-|[<-|[]]]; vm_compute; reflexivity.
  - vm_compute. left. reflexivity.
Defined.

(** ** C1 and C10: the result of Find *)

Lemma all_zero_votes_maximum (img : Image) :
  all_zero_votes img -> maximumValue_of img = 0.
Proof.
  intros Hz. unfold maximumValue_of.
  destruct (fold_left_max_attained (pixel_vote img)
              (range (u32 (width img * height img))) 0) as [E|(i & Hi & E)].
  - exact E.
  - rewrite E. apply Hz. now apply in_range.
Qed.

Lemma search_cluster_length (lineCluster : list Line) :
  snd (search_cluster lineCluster) = [] \/
  length (snd (search_cluster lineCluster)) = 4%nat.
Proof.
  destruct (search_cluster_searched lineCluster)
    as [[-> _]|(x0 & _ & _ & -> & _)]; [now left | now right].
Qed.

Lemma candidate_axis_length (lineCluster axis : list Line) :
  In axis (candidate_axis lineCluster) -> length axis = 4%nat.
Proof.
  unfold candidate_axis.
  destruct (Z.of_nat (length lineCluster) <? 4); [intros []|].
  destruct (32 <? Z.of_nat (length lineCluster)); [intros []|].
  destruct (search_cluster_length lineCluster) as [E|E].
  - rewrite E. intros [].
  - destruct (snd (search_cluster lineCluster)) as [|l0 rest] eqn:S; [intros []|].
    intros [<-|[]]. exact E.
Qed.

Lemma corners_four (puzzleLines1 puzzleLines2 : list Line) {geometry : Geometry} :
  corners puzzleLines1 puzzleLines2 []
  = [corner (at_index puzzleLines1 0) (at_index puzzleLines2 0);
     corner (at_index puzzleLines1 3) (at_index puzzleLines2 0);
     corner (at_index puzzleLines1 0) (at_index puzzleLines2 3);
     corner (at_index puzzleLines1 3) (at_index puzzleLines2 3)].
Proof. reflexivity. Qed.

Section FindFacts.
Context {libm : Libm} {geometry : Geometry} {sorter : StdSort}.

Lemma possible_axes_length (self : PuzzleFinder) (tw th : Z) (img : Image)
      (axis : list Line) :
  In axis (possiblePuzzleLineClusters (run_stages self tw th img)) ->
  length axis = 4%nat.
Proof.
  unfold run_stages. cbn [possiblePuzzleLineClusters].
  unfold FindPossiblePuzzleLines, search_clusters. cbn [snd].
  rewrite fold_left_append. cbn [app]. intros Hin.
  apply in_flat_map in Hin as (c & _ & Hin). exact (candidate_axis_length c axis Hin).
Qed.

Lemma puzzleLines_run_stages (self : PuzzleFinder) (tw th : Z) (img : Image) :
  puzzleLines (run_stages self tw th img)
  = FindPuzzles (possiblePuzzleLineClusters (run_stages self tw th img)) (puzzleLines self).
Proof. reflexivity. Qed.

Lemma Find_false (self : PuzzleFinder) (tw th : Z) (img : Image) (points : list Point) :
  puzzleLines (run_stages self tw th img) = [] ->
  Find self tw th img points = (false, run_stages self tw th img, points).
Proof. intros E. unfold Find. rewrite E. reflexivity. Qed.

(** C1. [Find] returns false, leaving the points as they were, when the
    accumulator holds no vote, when fewer than 2 candidate axes were found,
    and when no two candidate axes are about pi/2 apart. When it returns
    true, the first accepted pair is made of two candidate axes of 4 lines
    each, and the points are 4: what [IntersectLines] returns, from
    coordinates that start as [0.0f], for lines 0 and 3 of the first axis
    with lines 0 and 3 of the second, the second axis varying slowest. *)
Theorem Find_fails_or_gives_four_corners
        (self : PuzzleFinder) (targetWidth targetHeight : Z) (img : Image)
        (points : list Point) :
  let self' := run_stages self targetWidth targetHeight img in
  let axes := possiblePuzzleLineClusters self' in
  (all_zero_votes img ->
   Find self targetWidth targetHeight img points = (false, self', points)) /\
  (Z.of_nat (length axes) < 2 ->
   Find self targetWidth targetHeight img points = (false, self', points)) /\
  ((forall y x, 0 <= y < x -> x < Z.of_nat (length axes) ->
                orthogonal (axis_theta (axis_at axes y)) (axis_theta (axis_at axes x)) = false) ->
   Find self targetWidth targetHeight img points = (false, self', points)) /\
  (fst (fst (Find self targetWidth targetHeight img points)) = true ->
   exists axis1 axis2 rest,
     puzzleLines self' = (axis1, axis2) :: rest /\
     In axis1 axes /\ In axis2 axes /\
     length axis1 = 4%nat /\ length axis2 = 4%nat /\
     snd (Find self targetWidth targetHeight img points)
     = map (fun crossing : Line * Line =>
              mkPoint
                (fst (IntersectLines (fst crossing) (snd crossing) (F32.zero, F32.zero)))
                (snd (IntersectLines (fst crossing) (snd crossing) (F32.zero, F32.zero))))
           [(at_index axis1 0, at_index axis2 0);
            (at_index axis1 3, at_index axis2 0);
            (at_index axis1 0, at_index axis2 3);
            (at_index axis1 3, at_index axis2 3)]).
Proof.
  intros self' axes.
  assert (Hnone : (forall y x, 0 <= y < x -> x < Z.of_nat (length axes) ->
                     orthogonal (axis_theta (axis_at axes y))
                                (axis_theta (axis_at axes x)) = false) ->
                  puzzleLines self' = []).
  { intros Hno. unfold self'. rewrite puzzleLines_run_stages. fold self'. fold axes.
    destruct (FindPuzzles axes (puzzleLines self)) as [|pair rest] eqn:E; [reflexivity|].
    assert (Hin : In pair (FindPuzzles axes (puzzleLines self))) by (rewrite E; now left).
    apply In_FindPuzzles in Hin as (y & x & Hy & Hx & O & _).
    rewrite (Hno y x Hy Hx) in O. discriminate. }
  split; [|split; [|split]].
  - intros Hz. apply Find_false.
    assert (Hl : lines self' = []).
    { unfold self', run_stages. cbn [lines]. unfold FindLines.
      rewrite minimumValue_floor, (all_zero_votes_maximum img Hz). reflexivity. }
    unfold self', run_stages in Hl |- *. cbn [lines puzzleLines] in Hl |- *.
    rewrite Hl. reflexivity.
  - intros Hfew. apply Find_false. apply Hnone. intros y x Hy Hx. lia.
  - intros Hno. apply Find_false. now apply Hnone.
  - unfold Find. fold self'.
    destruct (puzzleLines self') as [|[axis1 axis2] rest] eqn:E; cbn [fst snd];
      [discriminate|]. intros _.
    exists axis1, axis2, rest. split; [reflexivity|].
    assert (Hin : In (axis1, axis2) (FindPuzzles axes (puzzleLines self))).
    { unfold axes, self'. rewrite <- puzzleLines_run_stages. fold self'.
      rewrite E. now left. }
    apply In_FindPuzzles in Hin as (y & x & Hy & Hx & _ & Hp).
    pose proof (axis_at_In axes y ltac:(lia)) as Iy.
    pose proof (axis_at_In axes x ltac:(lia)) as Ix.
    assert (I12 : In axis1 axes /\ In axis2 axes).
    { unfold order_pair in Hp. destruct (fgt _ _); injection Hp as -> ->; auto. }
    destruct I12 as [I1 I2].
    split; [exact I1|]. split; [exact I2|].
    split; [exact (possible_axes_length self _ _ img axis1 I1)|].
    split; [exact (possible_axes_length self _ _ img axis2 I2)|].
    rewrite corners_four. reflexivity.
Qed.

(** C10. When [Find] returns false the caller's points are untouched; when
    it returns true a pair was accepted and the points are the corners of
    that pair alone, none of the old points among them. *)
Theorem Find_failure_leaves_points_untouched
        (self : PuzzleFinder) (targetWidth targetHeight : Z) (img : Image)
        (points : list Point) :
  (fst (fst (Find self targetWidth targetHeight img points)) = false ->
   snd (Find self targetWidth targetHeight img points) = points) /\
  (fst (fst (Find self targetWidth targetHeight img points)) = true ->
   exists puzzle rest,
     puzzleLines (run_stages self targetWidth targetHeight img) = puzzle :: rest /\
     snd (Find self targetWidth targetHeight img points)
     = corners (fst puzzle) (snd puzzle) []).
Proof.
  unfold Find.
  destruct (puzzleLines (run_stages self targetWidth targetHeight img))
    as [|puzzle rest]; cbn [fst snd]; split; intros E; try discriminate.
  - reflexivity.
  - exists puzzle, rest. split; reflexivity.
Qed.
End FindFacts.

(** The result on a blank accumulator and on [planted_grid]. *)
Lemma Find_fails_or_gives_four_corners_witness :
  Find (libm := Reference.libm) (geometry := Reference.geometry)
       (sorter := Reference.sorter) fresh 300 400 blank_2x2 []
  = (false,
     run_stages (libm := Reference.libm) (geometry := Reference.geometry)
                (sorter := Reference.sorter) fresh 300 400 blank_2x2, []) /\
  exists axis1 axis2 rest,
    puzzleLines (run_stages (libm := Reference.libm) (geometry := Reference.geometry)
                            (sorter := Reference.sorter) fresh 150 200 planted_grid)
    = (axis1, axis2) :: rest /\
    In axis1 (possiblePuzzleLineClusters
                (run_stages (libm := Reference.libm) (geometry := Reference.geometry)
                            (sorter := Reference.sorter) fresh 150 200 planted_grid)) /\
    In axis2 (possiblePuzzleLineClusters
                (run_stages (libm := Reference.libm) (geometry := Reference.geometry)
                            (sorter := Reference.sorter) fresh 150 200 planted_grid)) /\
    length axis1 = 4%nat /\ length axis2 = 4%nat /\
    snd (Find (libm := Reference.libm) (geometry := Reference.geometry)
              (sorter := Reference.sorter) fresh 150 200 planted_grid [])
    = map (fun crossing : Line * Line =>
             mkPoint
               (fst (IntersectLines (Geometry := Reference.geometry)
                       (fst crossing) (snd crossing) (F32.zero, F32.zero)))
               (snd (IntersectLines (Geometry := Reference.geometry)
                       (fst crossing) (snd crossing) (F32.zero, F32.zero))))
          [(at_index axis1 0, at_index axis2 0);
           (at_index axis1 3, at_index axis2 0);
           (at_index axis1 0, at_index axis2 3);
           (at_index axis1 3, at_index axis2 3)].
Proof.
  split.
  - apply (proj1 (Find_fails_or_gives_four_corners
                    (libm := Reference.libm) (geometry := Reference.geometry)
                    (sorter := Reference.sorter) fresh 300 400 blank_2x2 [])).
    intros i Hi. change (u32 (width blank_2x2 * height blank_2x2)) with 4 in Hi.
    assert (Hc : i = 0 \/ i = 1 \/ i = 2 \/ i = 3) by lia.
    destruct Hc as [->|[->|[->| ->]]]; vm_compute; reflexivity.
  - apply (proj2 (proj2 (proj2 (Find_fails_or_gives_four_corners
                    (libm := Reference.libm) (geometry := Reference.geometry)
                    (sorter := Reference.sorter) fresh 150 200 planted_grid [])))).
    vm_compute. reflexivity.
Defined.

(** A call that fails on a blank accumulator keeps the caller's point. *)
Lemma Find_failure_leaves_points_untouched_witness :
  snd (Find (libm := Reference.libm) (geometry := Reference.geometry)
            (sorter := Reference.sorter) fresh 300 400 blank_2x2
            [mkPoint (F32.of_Z 1) (F32.of_Z 2)])
  = [mkPoint (F32.of_Z 1) (F32.of_Z 2)].
Proof.
  apply (proj1 (Find_failure_leaves_points_untouched
                  (libm := Reference.libm) (geometry := Reference.geometry)
                  (sorter := Reference.sorter) fresh 300 400 blank_2x2
                  [mkPoint (F32.of_Z 1) (F32.of_Z 2)])).
  vm_compute. reflexivity.
Defined.

(** ** C9: the cached solver reads the digits before checking them *)

Section CachedSolveFacts.
Context {solver : Solver}.

Lemma store_row_out (digits : list Z) (y : Z) (xs : list Z) :
  store_row digits y xs OutOfBounds = OutOfBounds.
Proof. induction xs as [|x xs IH]; [reflexivity | exact IH]. Qed.

Lemma store_rows_out (digits : list Z) (ys : list Z) :
  fold_left (fun game y => store_row digits y (range 9) game) ys OutOfBounds
  = OutOfBounds.
Proof.
  induction ys as [|y ys IH]; [reflexivity|].
  cbn [fold_left]. rewrite store_row_out. exact IH.
Qed.

Lemma element_out (digits : list Z) (i : Z) :
  Z.of_nat (length digits) <= i -> element digits i = OutOfBounds.
Proof.
  intros Hi. unfold element.
  destruct (nth_error digits (Z.to_nat i)) eqn:E; [|reflexivity].
  assert (Hs : nth_error digits (Z.to_nat i) <> None) by congruence.
  apply nth_error_Some in Hs. lia.
Qed.

(** A row that meets an index past the end of [digits] runs out of it. *)
Lemma store_row_short (digits : list Z) (y : Z) (xs : list Z) :
  forall game,
    (exists x, In x xs /\ Z.of_nat (length digits) <= y * 9 + x) ->
    store_row digits y xs game = OutOfBounds.
Proof.
  induction xs as [|x xs IH]; intros game (x0 & Hin & Hx0); [destruct Hin|].
  unfold store_row. cbn [fold_left]. fold (store_row digits y xs).
  destruct Hin as [->|Hin].
  - rewrite (element_out _ _ Hx0). destruct game; apply store_row_out.
  - apply IH. exists x0. auto.
Qed.

(** [DigitsToGame] reads [digits[80]]: a shorter vector is read past its end. *)
Lemma DigitsToGame_short (digits : list Z) :
  (length digits < 81)%nat -> DigitsToGame digits = OutOfBounds.
Proof.
  intros Hlen. unfold DigitsToGame.
  assert (Hrows : forall ys game,
             In 8 ys ->
             fold_left (fun game y => store_row digits y (range 9) game) ys game
             = OutOfBounds).
  { induction ys as [|y ys IH]; intros game Hin; [destruct Hin|].
    cbn [fold_left]. destruct Hin as [->|Hin].
    - rewrite (store_row_short digits 8 (range 9)).
      + apply store_rows_out.
      + exists 8. split; [apply in_range; lia | lia].
    - apply IH, Hin. }
  apply Hrows. apply in_range. lia.
Qed.

(** C9. [Solve] builds the game from [digits] before it checks their
    number: called with an empty vector, or with any vector of fewer than
    81 digits, it reads [digits] past its end. With 81 digits, a digit
    above 9, an unsolvable grid or fewer than 21 non-empty cells makes it
    return false with [solution] and the cache as they were. *)
Theorem Solve_reads_digits_before_checking_their_number
        (self : CachedPuzzleSolver) (solution : list Z) :
  CachedPuzzleSolver_Solve self [] solution = OutOfBounds /\
  (forall digits, (length digits < 81)%nat ->
                  CachedPuzzleSolver_Solve self digits solution = OutOfBounds) /\
  (forall digits game,
      DigitsToGame digits = Done game ->
      existsb (fun digit => 9 <? digit) digits = true \/
      Solvable game = false \/
      count_nonZeroDigits digits < 21 ->
      CachedPuzzleSolver_Solve self digits solution = Done (false, self, solution)).
Proof.
  assert (Hshort : forall digits, (length digits < 81)%nat ->
                     CachedPuzzleSolver_Solve self digits solution = OutOfBounds).
  { intros digits Hlen. unfold CachedPuzzleSolver_Solve.
    now rewrite (DigitsToGame_short digits Hlen). }
  split; [apply Hshort; simpl; lia|]. split; [exact Hshort|].
  intros digits game Hgame Hbad. unfold CachedPuzzleSolver_Solve. rewrite Hgame. simpl.
  destruct (negb (Z.of_nat (length digits) =? 81)); [reflexivity|].
  destruct (existsb (fun digit => 9 <? digit) digits) eqn:E9; [reflexivity|].
  destruct (Solvable game) eqn:ES; simpl; [|reflexivity].
  destruct (Z.ltb_spec (count_nonZeroDigits digits) 21); [reflexivity|].
  destruct Hbad as [Hb|[Hb|Hb]]; [discriminate | discriminate | lia].
Qed.
End CachedSolveFacts.

(** * Further properties of the code *)

(** ** FindLines: which accumulators give lines *)

Lemma ExtractValue_pixel_vote (img : Image) (x y : Z) :
  0 <= x < width img -> 0 <= y < height img ->
  ExtractValue img x y = pixel_vote img (y * width img + x).
Proof.
  intros Hx Hy. unfold ExtractValue, pixel_vote.
  destruct (Z.leb_spec (width img) x); [lia|].
  destruct (Z.leb_spec (height img) y); [lia|].
  reflexivity.
Qed.

Lemma pixel_number_in_range (img : Image) (x y : Z) :
  0 <= x < width img -> 0 <= y < height img ->
  width img * height img < 2 ^ 32 ->
  In (y * width img + x) (range (u32 (width img * height img))).
Proof.
  intros Hx Hy Hwh. apply in_range. unfold u32.
  rewrite Z.mod_small by nia. nia.
Qed.

Lemma vote_or_zero_le_maximum (img : Image) (X Y : Z) :
  width img * height img < 2 ^ 32 ->
  vote_or_zero img X Y <= maximumValue_of img.
Proof.
  intros Hwh. unfold vote_or_zero.
  destruct (Z.leb_spec 0 X); cbn [andb]; [|apply maximumValue_bounds].
  destruct (Z.ltb_spec X (width img)); cbn [andb]; [|apply maximumValue_bounds].
  destruct (Z.leb_spec 0 Y); cbn [andb]; [|apply maximumValue_bounds].
  destruct (Z.ltb_spec Y (height img)); cbn [andb]; [|apply maximumValue_bounds].
  rewrite ExtractValue_pixel_vote by lia.
  unfold maximumValue_of.
  apply (fold_left_max_upper (pixel_vote img)).
  apply pixel_number_in_range; lia.
Qed.

Lemma is_peak_no_greater (img : Image) (x y : Z) :
  0 <= x < width img -> 0 <= y < height img ->
  width img <= 2 ^ 31 -> height img <= 2 ^ 31 ->
  (forall nx ny, -1 <= nx <= 1 -> -1 <= ny <= 1 ->
                 vote_or_zero img (x + nx) (y + ny) <= ExtractValue img x y) ->
  is_peak img x y = true.
Proof.
  intros Hx Hy Hw Hh Hle. unfold is_peak.
  assert (Hr1 := radius_le_1 img).
  assert (Hr0 : 0 <= radius_of img) by (apply radius_nonneg; lia).
  apply forallb_forall. intros ny Hny. apply forallb_forall. intros nx Hnx.
  apply in_window in Hny. apply in_window in Hnx.
  destruct ((nx =? 0) && (ny =? 0)); [reflexivity|].
  rewrite neighbour_read by lia.
  apply negb_true_iff, Z.ltb_ge, Hle; lia.
Qed.

Section WhichAccumulators.
Context {libm : Libm}.

(** X1. For an accumulator whose pixels can be numbered without wrap-around,
    [FindLines] returns no line exactly when the threshold
    [maximumValue * 3 / 4] is 0. Every pixel that holds the largest vote is
    a peak, whatever its neighbours are, and as soon as the threshold is not
    0 its line is returned; and some pixel does hold the largest vote. *)
Theorem FindLines_empty_iff_threshold_zero
        (targetWidth targetHeight : Z) (img : Image) (lines0 : list Line) :
  0 < width img -> 0 < height img -> width img * height img * 3 < 2 ^ 32 ->
  (FindLines targetWidth targetHeight img lines0 = [] <->
   maximumValue_of img * 3 / 4 = 0) /\
  (forall x y,
      0 <= x < width img -> 0 <= y < height img ->
      ExtractValue img x y = maximumValue_of img ->
      is_peak img x y = true /\
      (maximumValue_of img * 3 / 4 <> 0 ->
       In (line_of_peak targetWidth targetHeight img x y)
          (FindLines targetWidth targetHeight img lines0))) /\
  (exists x y,
      0 <= x < width img /\ 0 <= y < height img /\
      ExtractValue img x y = maximumValue_of img).
Proof.
  intros Hw Hh Hwh.
  assert (Hsmall : width img * height img < 2 ^ 32) by nia.
  assert (Hw31 : width img <= 2 ^ 31) by nia.
  assert (Hh31 : height img <= 2 ^ 31) by nia.
  assert (Hall : forall x y,
    0 <= x < width img -> 0 <= y < height img ->
    ExtractValue img x y = maximumValue_of img ->
    is_peak img x y = true /\
    (maximumValue_of img * 3 / 4 <> 0 ->
     In (line_of_peak targetWidth targetHeight img x y)
        (FindLines targetWidth targetHeight img lines0))).
  { intros x y Hx Hy Hv.
    assert (Hp : is_peak img x y = true).
    { apply is_peak_no_greater; try assumption.
      intros nx ny _ _. rewrite Hv. apply vote_or_zero_le_maximum; assumption. }
    split; [exact Hp|]. intros Hne.
    apply In_FindLines. split; [rewrite minimumValue_floor; exact Hne|].
    exists x, y. split; [exact Hx|]. split; [exact Hy|].
    split; [|split; [exact Hp|reflexivity]].
    rewrite minimumValue_floor, Hv.
    assert (B := maximumValue_bounds img).
    apply Z.div_le_upper_bound; lia. }
  assert (Hsome : exists x y,
    0 <= x < width img /\ 0 <= y < height img /\
    ExtractValue img x y = maximumValue_of img).
  { destruct (fold_left_max_attained (pixel_vote img)
                (range (u32 (width img * height img))) 0) as [E | [i [Hi E]]].
    - exists 0, 0. split; [lia|]. split; [lia|].
      assert (B : 0 <= ExtractValue img 0 0 <= maximumValue_of img).
      { split.
        - unfold ExtractValue. destruct ((width img <=? 0) || (height img <=? 0));
            [lia|apply read_ushort_bounds].
        - pose proof (vote_or_zero_le_maximum img 0 0 Hsmall) as Hle.
          unfold vote_or_zero in Hle.
          destruct (Z.ltb_spec 0 (width img)); [|lia].
          destruct (Z.ltb_spec 0 (height img)); [|lia]. exact Hle. }
      unfold maximumValue_of in B |- *. rewrite E in B |- *. lia.
    - apply in_range in Hi. unfold u32 in Hi. rewrite Z.mod_small in Hi by nia.
      set (x := i mod width img). set (y := i / width img).
      assert (Hx : 0 <= x < width img) by (apply Z.mod_pos_bound; lia).
      assert (Hi' : i = y * width img + x).
      { unfold x, y. rewrite Z.mul_comm. apply Z.div_mod. lia. }
      assert (Hy : 0 <= y < height img).
      { split; [apply Z.div_pos; lia|]. apply Z.div_lt_upper_bound; lia. }
      exists x, y. split; [exact Hx|]. split; [exact Hy|].
      rewrite ExtractValue_pixel_vote by assumption.
      rewrite <- Hi'. symmetry. exact E. }
  split; [|split; [exact Hall|exact Hsome]]. split.
  - intros Hnil.
    destruct (Z.eq_dec (maximumValue_of img * 3 / 4) 0) as [E|Hne]; [exact E|].
    destruct Hsome as (x & y & Hx & Hy & Hv).
    destruct (Hall x y Hx Hy Hv) as [_ Hin]. specialize (Hin Hne).
    rewrite Hnil in Hin. destruct Hin.
  - intros E. rewrite FindLines_flat_map, minimumValue_floor, E. reflexivity.
Qed.
End WhichAccumulators.

(** The accumulator with a single vote of 4 at [(1,0)]. *)
Lemma FindLines_empty_iff_threshold_zero_witness :
  (FindLines (libm := Reference.libm) 3 4 single_peak_2x2 [] = [] <->
   maximumValue_of single_peak_2x2 * 3 / 4 = 0) /\
  (forall x y,
      0 <= x < width single_peak_2x2 -> 0 <= y < height single_peak_2x2 ->
      ExtractValue single_peak_2x2 x y = maximumValue_of single_peak_2x2 ->
      is_peak single_peak_2x2 x y = true /\
      (maximumValue_of single_peak_2x2 * 3 / 4 <> 0 ->
       In (line_of_peak (libm := Reference.libm) 3 4 single_peak_2x2 x y)
          (FindLines (libm := Reference.libm) 3 4 single_peak_2x2 []))) /\
  (exists x y,
      0 <= x < width single_peak_2x2 /\ 0 <= y < height single_peak_2x2 /\
      ExtractValue single_peak_2x2 x y = maximumValue_of single_peak_2x2).
Proof.
  apply (FindLines_empty_iff_threshold_zero (libm := Reference.libm) 3 4 single_peak_2x2 []);
    vm_compute; reflexivity.
Defined.

(** ** FindLines: accumulators below 48 pixels a side *)

Lemma lround_of_small_quotient :
  forallb (fun m => lround (F32.div (F32.of_Z m) (F32.of_Z 96)) =? 0) (range 48) = true.
Proof. vm_compute. reflexivity. Qed.

Lemma radius_of_small (img : Image) :
  0 <= width img < 48 -> 0 <= height img < 48 -> radius_of img = 0.
Proof.
  intros Hw Hh. unfold radius_of.
  assert (Hm : In (Z.max (width img) (height img)) (range 48)) by (apply in_range; lia).
  pose proof (proj1 (forallb_forall _ _) lround_of_small_quotient _ Hm) as E.
  apply Z.eqb_eq in E. rewrite E. reflexivity.
Qed.

Section SmallAccumulators.
Context {libm : Libm}.

(** X2. With [std::min] in the radius, an accumulator whose sides are both
    below 48 pixels gets the radius 0: the neighbourhood loops only visit the
    pixel itself, every pixel is a peak, and [FindLines] returns the line of
    every pixel whose vote reaches the threshold, whatever its neighbours. *)
Theorem small_accumulator_keeps_every_pixel_above_threshold
        (targetWidth targetHeight : Z) (img : Image) (lines0 : list Line) :
  0 <= width img < 48 -> 0 <= height img < 48 ->
  radius_of img = 0 /\
  (forall x y, is_peak img x y = true) /\
  (forall line,
      In line (FindLines targetWidth targetHeight img lines0) <->
      minimumValue_of img <> 0 /\
      exists x y, 0 <= x < width img /\ 0 <= y < height img /\
                  minimumValue_of img <= ExtractValue img x y /\
                  line = line_of_peak targetWidth targetHeight img x y).
Proof.
  intros Hw Hh.
  assert (Hr : radius_of img = 0) by (apply radius_of_small; assumption).
  assert (Hp : forall x y, is_peak img x y = true).
  { intros x y. unfold is_peak. rewrite Hr. reflexivity. }
  split; [exact Hr|]. split; [exact Hp|].
  intros line. rewrite In_FindLines. split.
  - intros [Hne (x & y & Hx & Hy & Hv & _ & E)].
    split; [exact Hne|]. exists x, y. auto.
  - intros [Hne (x & y & Hx & Hy & Hv & E)].
    split; [exact Hne|]. exists x, y. auto.
Qed.

Lemma FindLines_of_accumulator_without_pixels
        (targetWidth targetHeight : Z) (img : Image) (lines0 : list Line) :
  width img = 0 \/ height img = 0 ->
  maximumValue_of img = 0 /\
  FindLines targetWidth targetHeight img lines0 = [].
Proof.
  intros H0.
  assert (E : maximumValue_of img = 0).
  { unfold maximumValue_of.
    replace (width img * height img) with 0 by (destruct H0 as [E|E]; rewrite E; lia).
    reflexivity. }
  split; [exact E|].
  rewrite FindLines_flat_map, minimumValue_floor, E. reflexivity.
Qed.
End SmallAccumulators.

(** Votes 2 and 1 side by side: the pixel with vote 1 has a neighbour with
    more votes and still gives a line. *)
Lemma small_accumulator_keeps_every_pixel_above_threshold_witness :
  radius_of votes_2_1 = 0 /\
  (forall x y, is_peak votes_2_1 x y = true) /\
  (forall line,
      In line (FindLines (libm := Reference.libm) 3 4 votes_2_1 []) <->
      minimumValue_of votes_2_1 <> 0 /\
      exists x y, 0 <= x < width votes_2_1 /\ 0 <= y < height votes_2_1 /\
                  minimumValue_of votes_2_1 <= ExtractValue votes_2_1 x y /\
                  line = line_of_peak (libm := Reference.libm) 3 4 votes_2_1 x y).
Proof.
  apply (small_accumulator_keeps_every_pixel_above_threshold
           (libm := Reference.libm) 3 4 votes_2_1 []);
    vm_compute; split; congruence.
Defined.

(** ** ClusterizeLinesByTheta: what the clusters hold *)

Lemma drawn_from_more (lines : list Line) (line : Line) (c : list Line) :
  drawn_from lines c -> drawn_from (lines ++ [line]) c.
Proof.
  intros [(first & rest & E & Hin) Hall]. split.
  - exists first, rest. split; [exact E|]. apply in_or_app. left. exact Hin.
  - intros member Hm. destruct (Hall member Hm) as (l & Hl & Hor).
    exists l. split; [apply in_or_app; left; exact Hl|exact Hor].
Qed.

Section ClusterContents.
Context {geometry : Geometry}.

Lemma placed_drawn_from (lines : list Line) (line : Line)
      (clusters clusters' : list (list Line)) :
  placed line clusters clusters' ->
  (forall c, In c clusters -> drawn_from lines c) ->
  forall c, In c clusters' -> drawn_from (lines ++ [line]) c.
Proof.
  intros Hp Hall c Hc.
  assert (Hlast : In line (lines ++ [line])) by (apply in_or_app; right; left; reflexivity).
  destruct Hp as [before c0 after member E E' _ Hmember | _ E'].
  - subst clusters clusters'.
    apply in_app_or in Hc. destruct Hc as [Hc | [Hc | Hc]].
    + apply drawn_from_more, Hall, in_or_app. left. exact Hc.
    + subst c.
      destruct (Hall c0) as [(first & rest & E0 & Hin) Hmem];
        [apply in_or_app; right; left; reflexivity|].
      split.
      * exists first, (rest ++ [member]). split; [rewrite E0; reflexivity|].
        apply in_or_app. left. exact Hin.
      * intros m Hm. apply in_app_or in Hm. destruct Hm as [Hm | [Hm | []]].
        -- destruct (Hmem m Hm) as (l & Hl & Hor).
           exists l. split; [apply in_or_app; left; exact Hl|exact Hor].
        -- subst m. exists line. split; [exact Hlast|].
           destruct Hmember as [[E _] | [E _]]; [left|right]; exact E.
    + apply drawn_from_more, Hall, in_or_app. right. right. exact Hc.
  - subst clusters'. apply in_app_or in Hc. destruct Hc as [Hc | [Hc | []]].
    + apply drawn_from_more, Hall. exact Hc.
    + subst c. split.
      * exists line, []. split; [reflexivity|exact Hlast].
      * intros m [Hm | []]. subst m. exists line. split; [exact Hlast|left; reflexivity].
Qed.

Lemma placed_length (line : Line) (clusters clusters' : list (list Line)) :
  placed line clusters clusters' ->
  (length clusters <= length clusters' <= S (length clusters))%nat.
Proof.
  intros [before c0 after member E E' _ _ | _ E']; subst.
  - rewrite !length_app. cbn [length]. lia.
  - rewrite length_app. cbn [length]. lia.
Qed.

(** X3. The clusters [ClusterizeLinesByTheta] builds: there are no more of
    them than input lines, and none unless a line was given; no cluster is
    empty; the first member of a cluster is an input line as it was given
    (the line that started the cluster), and every member is an input line
    or the twin of one. *)
Theorem clusters_hold_input_lines_or_their_twins
        (lines : list Line) (buf : list (list Line)) :
  (length (ClusterizeLinesByTheta lines buf) <= length lines)%nat /\
  (ClusterizeLinesByTheta lines buf = [] <-> lines = []) /\
  (forall c, In c (ClusterizeLinesByTheta lines buf) -> drawn_from lines c).
Proof.
  induction lines as [|line prefix IH] using rev_ind.
  - split; [apply Nat.le_refl|]. split; [split; reflexivity|]. intros c [].
  - destruct IH as (Hlen & Hnil & Hall).
    rewrite (Clusterize_snoc prefix line buf buf).
    pose proof (cluster_line_placed (ClusterizeLinesByTheta prefix buf) line) as Hp.
    pose proof (placed_length _ _ _ Hp) as Hl.
    split; [rewrite length_app; cbn [length]; lia|].
    split.
    + split.
      * intros E. exfalso.
        pose proof (placed_count _ _ _ Hp) as Hc. rewrite E in Hc. discriminate Hc.
      * intros E. destruct prefix; discriminate E.
    + exact (placed_drawn_from prefix line _ _ Hp Hall).
Qed.
End ClusterContents.

(** ** The subset search: indexes, reads and the smallest cluster *)

Lemma In_firstn_In {A : Type} (n : nat) (l : list A) (a : A) :
  In a (firstn n l) -> In a l.
Proof.
  revert l. induction n as [|n IH]; intros l Hin.
  - destruct Hin.
  - destruct l as [|b l]; [destruct Hin|].
    destruct Hin as [E|Hin]; [left; exact E|right; exact (IH l Hin)].
Qed.

Lemma firstn_increasing (n : nat) (l : list Z) :
  increasing l -> increasing (firstn n l).
Proof.
  revert l. induction n as [|n IH]; intros [|b l] Hi; cbn [firstn]; try exact I.
  destruct Hi as [Hb Hi]. split; [|exact (IH l Hi)].
  intros y Hy. apply Hb. exact (In_firstn_In n l y Hy).
Qed.

(** X4. [GetSetBitIndexes] writes the indexes of the lowest four set bits
    among bits 0 to 31, lowest first: never more than four (the array of
    four is not overrun), fewer when fewer than four bits are set (the rest
    of the array is then left unwritten), each one the index of a set bit. *)
Theorem GetSetBitIndexes_lowest_four_set_bits (value : Z) :
  GetSetBitIndexes value = firstn 4 (filter (Z.testbit value) (range 32)) /\
  Z.of_nat (length (GetSetBitIndexes value)) = Z.min 4 (popcount value) /\
  increasing (GetSetBitIndexes value) /\
  (forall i, In i (GetSetBitIndexes value) -> 0 <= i < 32 /\ Z.testbit value i = true).
Proof.
  assert (E : GetSetBitIndexes value = firstn 4 (filter (Z.testbit value) (range 32))).
  { unfold GetSetBitIndexes. rewrite set_bits_from_firstn by lia. reflexivity. }
  split; [exact E|]. rewrite E. split.
  - rewrite length_firstn, popcount_length. lia.
  - split.
    + apply firstn_increasing, filter_increasing, range_increasing.
    + intros i Hi. apply In_firstn_In in Hi. apply filter_In in Hi as [Hr Hb].
      apply in_range in Hr. split; [exact Hr|exact Hb].
Qed.

Lemma at_index_In (lineCluster : list Line) (i : Z) :
  0 <= i < Z.of_nat (length lineCluster) -> In (at_index lineCluster i) lineCluster.
Proof. intros Hi. unfold at_index. apply nth_In. lia. Qed.

(** X5. In a cluster of 4 to 32 lines the subset loop reads the cluster
    inside its bounds and visits every choice of four lines once: a pattern
    [x <= finalSubset] with four set bits is the pattern of four increasing
    indexes below the cluster size, and only of those, so the four lines
    read are lines of the cluster; every four increasing indexes below the
    size have their pattern among those visited; and the bound
    [finalSubset + 1] of the loop does not wrap around. *)
Theorem subset_loop_visits_the_choices_of_four (lineCluster : list Line) :
  4 <= Z.of_nat (length lineCluster) <= 32 ->
  finalSubset_of (Z.of_nat (length lineCluster)) + 1 < 2 ^ 32 /\
  (forall x, 0 <= x <= finalSubset_of (Z.of_nat (length lineCluster)) ->
             popcount x = 4 ->
             exists i0 i1 i2 i3,
               chosen (Z.of_nat (length lineCluster)) i0 i1 i2 i3 /\
               GetSetBitIndexes x = [i0; i1; i2; i3] /\
               combination lineCluster x = lines_at lineCluster i0 i1 i2 i3 /\
               (forall line, In line (combination lineCluster x) -> In line lineCluster) /\
               forall j0 j1 j2 j3,
                 chosen (Z.of_nat (length lineCluster)) j0 j1 j2 j3 ->
                 x = pattern j0 j1 j2 j3 ->
                 (j0, j1, j2, j3) = (i0, i1, i2, i3)) /\
  (forall i0 i1 i2 i3,
      chosen (Z.of_nat (length lineCluster)) i0 i1 i2 i3 ->
      0 <= pattern i0 i1 i2 i3 <= finalSubset_of (Z.of_nat (length lineCluster)) /\
      popcount (pattern i0 i1 i2 i3) = 4).
Proof.
  intros Hn. set (n := Z.of_nat (length lineCluster)) in *.
  split; [|split].
  - rewrite finalSubset_value by exact Hn.
    assert (2 ^ (n - 4) <= 2 ^ 28) by (apply Z.pow_le_mono_r; lia).
    change (2 ^ 32) with (16 * 2 ^ 28). lia.
  - intros x Hx Hp.
    destruct (pattern_of_combination lineCluster x Hn Hx Hp)
      as (i0 & i1 & i2 & i3 & Hc & Ex & Ecomb).
    pose proof Hc as (H0 & H1 & H2 & H3).
    destruct (pattern_enumerated n i0 i1 i2 i3 H0 H1 H2 H3 (proj2 Hn)) as (_ & _ & Hidx).
    exists i0, i1, i2, i3. split; [exact Hc|]. split; [rewrite Ex; exact Hidx|].
    split; [exact Ecomb|]. split.
    + rewrite Ecomb. unfold lines_at. intros line Hin.
      destruct Hin as [E | [E | [E | [E | []]]]]; subst line; apply at_index_In;
        fold n; lia.
    + intros j0 j1 j2 j3 (J0 & J1 & J2 & J3) Ej.
      destruct (pattern_enumerated n j0 j1 j2 j3 J0 J1 J2 J3 (proj2 Hn)) as (_ & _ & Hjdx).
      rewrite <- Ej, Ex, Hidx in Hjdx. congruence.
  - intros i0 i1 i2 i3 (H0 & H1 & H2 & H3).
    destruct (pattern_enumerated n i0 i1 i2 i3 H0 H1 H2 H3 (proj2 Hn)) as (Hr & Hp & _).
    split; [exact Hr|exact Hp].
Qed.

(** The patterns over the five lines of [tied_cluster]. *)
Lemma subset_loop_visits_the_choices_of_four_witness :
  finalSubset_of (Z.of_nat (length tied_cluster)) + 1 < 2 ^ 32 /\
  (forall x, 0 <= x <= finalSubset_of (Z.of_nat (length tied_cluster)) ->
             popcount x = 4 ->
             exists i0 i1 i2 i3,
               chosen (Z.of_nat (length tied_cluster)) i0 i1 i2 i3 /\
               GetSetBitIndexes x = [i0; i1; i2; i3] /\
               combination tied_cluster x = lines_at tied_cluster i0 i1 i2 i3 /\
               (forall line, In line (combination tied_cluster x) -> In line tied_cluster) /\
               forall j0 j1 j2 j3,
                 chosen (Z.of_nat (length tied_cluster)) j0 j1 j2 j3 ->
                 x = pattern j0 j1 j2 j3 ->
                 (j0, j1, j2, j3) = (i0, i1, i2, i3)) /\
  (forall i0 i1 i2 i3,
      chosen (Z.of_nat (length tied_cluster)) i0 i1 i2 i3 ->
      0 <= pattern i0 i1 i2 i3 <= finalSubset_of (Z.of_nat (length tied_cluster)) /\
      popcount (pattern i0 i1 i2 i3) = 4).
Proof.
  apply (subset_loop_visits_the_choices_of_four tied_cluster).
  vm_compute. split; congruence.
Defined.

Lemma subset_loop_last (lineCluster : list Line) (n : nat) :
  forall x st,
    subset_loop lineCluster (S n) x st
    = subset_step lineCluster (x + Z.of_nat n) (subset_loop lineCluster n x st).
Proof.
  induction n as [|n IH]; intros x st.
  - cbn [subset_loop]. rewrite Z.add_0_r. reflexivity.
  - change (subset_loop lineCluster (S (S n)) x st)
      with (subset_loop lineCluster (S n) (x + 1) (subset_step lineCluster x st)).
    rewrite IH. cbn [subset_loop].
    replace (x + 1 + Z.of_nat n) with (x + Z.of_nat (S n)) by lia. reflexivity.
Qed.

Lemma subset_loop_skips (lineCluster : list Line) (n : nat) :
  forall x st,
    (forall k, x <= k < x + Z.of_nat n -> popcount k <> 4) ->
    subset_loop lineCluster n x st = st.
Proof.
  induction n as [|n IH]; intros x st Hskip; [reflexivity|].
  cbn [subset_loop].
  assert (E : subset_step lineCluster x st = st).
  { unfold subset_step. destruct (Z.eqb_spec (popcount x) 4) as [E|_]; [|reflexivity].
    exfalso. apply (Hskip x); [lia|exact E]. }
  rewrite E. apply IH. intros k Hk. apply Hskip. lia.
Qed.

Lemma no_four_bits_below_15 :
  forallb (fun k => negb (popcount k =? 4)) (range 15) = true.
Proof. vm_compute. reflexivity. Qed.

(** X6. A cluster of exactly four lines has one choice of four, the cluster
    itself: it becomes a candidate axis exactly when its lines are evenly
    spaced and the range from its first line to its last is not negative. *)
Theorem cluster_of_four_lines_is_kept_when_evenly_spaced (l0 l1 l2 l3 : Line) :
  candidate_axis [l0; l1; l2; l3]
  = if evenly_spaced [l0; l1; l2; l3]
       && negb (flt (range_of [l0; l1; l2; l3]) F32.zero)
    then [[l0; l1; l2; l3]] else [].
Proof.
  unfold candidate_axis, search_cluster.
  change (Z.of_nat (length [l0; l1; l2; l3])) with 4.
  change (4 <? 4) with false. change (32 <? 4) with false. cbv iota.
  change (Z.to_nat (finalSubset_of 4 + 1)) with 16%nat.
  rewrite (subset_loop_last [l0; l1; l2; l3] 15 0).
  rewrite subset_loop_skips.
  2:{ intros k Hk.
      assert (Hin : In k (range 15)) by (apply in_range; lia).
      pose proof (proj1 (forallb_forall _ _) no_four_bits_below_15 k Hin) as Hb.
      apply negb_true_iff, Z.eqb_neq in Hb. exact Hb. }
  change (0 + Z.of_nat 15) with 15.
  unfold subset_step.
  change (popcount 15 =? 4) with true.
  change (combination [l0; l1; l2; l3] 15) with [l0; l1; l2; l3].
  cbn [negb fst].
  destruct (flt (range_of [l0; l1; l2; l3]) F32.zero);
    destruct (evenly_spaced [l0; l1; l2; l3]); reflexivity.
Qed.

(** ** FindPossiblePuzzleLines: one axis per cluster at most *)

Lemma candidate_axis_of_cluster (lineCluster : list Line) :
  candidate_axis lineCluster = [] \/
  4 <= Z.of_nat (length lineCluster) <= 32 /\
  candidate_axis lineCluster = [snd (search_cluster lineCluster)].
Proof.
  unfold candidate_axis.
  destruct (Z.ltb_spec (Z.of_nat (length lineCluster)) 4); [left; reflexivity|].
  destruct (Z.ltb_spec 32 (Z.of_nat (length lineCluster))); [left; reflexivity|].
  destruct (snd (search_cluster lineCluster)); [left; reflexivity|].
  right. split; [lia|reflexivity].
Qed.

Lemma search_clusters_flat_map (lineClusters : list (list Line)) :
  search_clusters lineClusters = flat_map candidate_axis lineClusters.
Proof. unfold search_clusters. rewrite fold_left_append. reflexivity. Qed.

Lemma four_lines_per_axis (lineClusters : list (list Line)) :
  (4 * length (flat_map candidate_axis lineClusters) <= length (concat lineClusters))%nat.
Proof.
  induction lineClusters as [|c cs IH]; [apply Nat.le_refl|].
  cbn [flat_map concat]. rewrite !length_app.
  destruct (candidate_axis_of_cluster c) as [E | [Hn E]]; rewrite E; cbn [length]; lia.
Qed.

Lemma axes_no_more_than_clusters (lineClusters : list (list Line)) :
  (length (flat_map candidate_axis lineClusters) <= length lineClusters)%nat.
Proof.
  induction lineClusters as [|c cs IH]; [apply Nat.le_refl|].
  cbn [flat_map length]. rewrite length_app.
  destruct (candidate_axis_of_cluster c) as [E | [Hn E]]; rewrite E; cbn [length]; lia.
Qed.

Section AxesOfClusters.
Context {sorter : StdSort}.

(** X7. The candidate axes of [FindPossiblePuzzleLines]: there are no more
    of them than clusters; each one comes from a cluster that has, once
    sorted, between 4 and 32 lines, and consists of four lines of that
    sorted cluster, taken at increasing positions. *)
Theorem candidate_axes_are_four_lines_of_a_sorted_cluster
        (lineClusters buf : list (list Line)) :
  (length (snd (FindPossiblePuzzleLines lineClusters buf)) <= length lineClusters)%nat /\
  (forall axis,
      In axis (snd (FindPossiblePuzzleLines lineClusters buf)) ->
      exists lineCluster i0 i1 i2 i3,
        In lineCluster lineClusters /\
        4 <= Z.of_nat (length (std_sort by_abs_rho lineCluster)) <= 32 /\
        chosen (Z.of_nat (length (std_sort by_abs_rho lineCluster))) i0 i1 i2 i3 /\
        axis = lines_at (std_sort by_abs_rho lineCluster) i0 i1 i2 i3 /\
        (forall line, In line axis -> In line (std_sort by_abs_rho lineCluster))).
Proof.
  unfold FindPossiblePuzzleLines, sort_clusters. cbn [snd].
  rewrite search_clusters_flat_map. split.
  - rewrite <- (length_map (std_sort by_abs_rho) lineClusters).
    apply axes_no_more_than_clusters.
  - intros axis Hin. apply in_flat_map in Hin as (s & Hs & Hin).
    apply in_map_iff in Hs as (c & <- & Hc).
    destruct (candidate_axis_of_cluster (std_sort by_abs_rho c)) as [E | [Hn E]];
      [rewrite E in Hin; destruct Hin|].
    rewrite E in Hin. destruct Hin as [<- | []].
    destruct (search_cluster_searched (std_sort by_abs_rho c))
      as [[Est _] | (x0 & Hx0 & Hacc & Est & _)].
    + exfalso. unfold candidate_axis in E. rewrite Est in E.
      destruct (Z.of_nat (length (std_sort by_abs_rho c)) <? 4); [discriminate E|].
      destruct (32 <? Z.of_nat (length (std_sort by_abs_rho c))); discriminate E.
    + unfold accepted in Hacc. apply andb_true_iff in Hacc as [Hp _].
      apply Z.eqb_eq in Hp.
      destruct (pattern_of_combination (std_sort by_abs_rho c) x0 Hn ltac:(lia) Hp)
        as (i0 & i1 & i2 & i3 & Hch & _ & Ecomb).
      exists c, i0, i1, i2, i3. split; [exact Hc|]. split; [exact Hn|].
      split; [exact Hch|]. rewrite Est. cbn [snd]. split; [exact Ecomb|].
      rewrite Ecomb. destruct Hch as (H0 & H1 & H2 & H3).
      unfold lines_at. intros line Hl.
      destruct Hl as [El | [El | [El | [El | []]]]]; subst line; apply at_index_In; lia.
Qed.
End AxesOfClusters.

(** ** FindPuzzles: the pair that comes first *)

Lemma flat_map_first {A B : Type} (f : A -> list B) (l : list A) (b : B) (rest : list B) :
  flat_map f l = b :: rest ->
  exists before a after rest',
    l = before ++ a :: after /\
    (forall a', In a' before -> f a' = []) /\
    f a = b :: rest'.
Proof.
  induction l as [|a l IH]; intros E; [discriminate E|].
  cbn [flat_map] in E. destruct (f a) as [|b' fa] eqn:Efa.
  - destruct (IH E) as (before & a0 & after & rest' & El & Hb & Ea).
    exists (a :: before), a0, after, rest'. split; [rewrite El; reflexivity|].
    split; [|exact Ea]. intros a' [<- | Hin]; [exact Efa|exact (Hb a' Hin)].
  - cbn [app] in E. injection E as -> _.
    exists [], a, l, fa. split; [reflexivity|]. split; [intros a' []|exact Efa].
Qed.

Lemma increasing_app_before (before after : list Z) (a k : Z) :
  increasing (before ++ a :: after) ->
  In k (before ++ a :: after) -> k < a -> In k before.
Proof.
  induction before as [|b before IH]; cbn [app]; intros Hi Hin Hk.
  - destruct Hi as [Ha _]. destruct Hin as [E | Hin]; [lia|].
    specialize (Ha k Hin). lia.
  - destruct Hi as [_ Hi]. destruct Hin as [E | Hin]; [left; exact E|].
    right. exact (IH Hi Hin Hk).
Qed.

Lemma map_shift_increasing (c : Z) (l : list Z) :
  increasing l -> increasing (map (fun k => c + k) l).
Proof.
  induction l as [|a l IH]; [intros _; exact I|].
  intros [Ha Hi]. split; [|exact (IH Hi)].
  intros y Hy. apply in_map_iff in Hy as (k & <- & Hk). specialize (Ha k Hk). lia.
Qed.

Section FirstPair.
Context {libm : Libm} {geometry : Geometry}.

Lemma FindPuzzles_flat_map (axes : list (list Line)) (buf : list (list Line * list Line)) :
  FindPuzzles axes buf =
  if Z.of_nat (length axes) <? 2 then []
  else flat_map (fun y =>
         flat_map (fun x =>
           if orthogonal (axis_theta (axis_at axes y)) (axis_theta (axis_at axes x))
           then [order_pair (axis_at axes y) (axis_at axes x)] else [])
           (map (fun k => y + 1 + k) (range (Z.of_nat (length axes) - (y + 1)))))
         (range (Z.of_nat (length axes))).
Proof.
  unfold FindPuzzles.
  destruct (Z.of_nat (length axes) <? 2); [reflexivity|].
  set (emit := fun y x =>
         if orthogonal (axis_theta (axis_at axes y)) (axis_theta (axis_at axes x))
         then [order_pair (axis_at axes y) (axis_at axes x)] else []).
  rewrite (fold_left_ext_in _
             (fun acc y => acc ++ flat_map (emit y)
                (map (fun k => y + 1 + k) (range (Z.of_nat (length axes) - (y + 1)))))).
  2:{ intros acc y _. rewrite <- fold_left_append. apply fold_left_ext_in.
      intros acc' x _. unfold emit.
      destruct (orthogonal _ _); [reflexivity | rewrite app_nil_r; reflexivity]. }
  rewrite fold_left_append. reflexivity.
Qed.

(** X8. The pair [FindPuzzles] puts first, which is the only one
    [PuzzleFinder::Find] uses, is that of the first two axes [y < x], in
    the order of the loops ([y] outermost), that pass the right-angle test:
    no pair of axes before them passes it. *)
Theorem first_pair_is_the_first_right_angle_found
        (axes : list (list Line)) (buf : list (list Line * list Line))
        (pair : list Line * list Line) (rest : list (list Line * list Line)) :
  FindPuzzles axes buf = pair :: rest ->
  exists y x,
    0 <= y < x /\ x < Z.of_nat (length axes) /\
    orthogonal (axis_theta (axis_at axes y)) (axis_theta (axis_at axes x)) = true /\
    pair = order_pair (axis_at axes y) (axis_at axes x) /\
    forall y' x',
      0 <= y' < x' -> x' < Z.of_nat (length axes) ->
      y' < y \/ (y' = y /\ x' < x) ->
      orthogonal (axis_theta (axis_at axes y')) (axis_theta (axis_at axes x')) = false.
Proof.
  rewrite FindPuzzles_flat_map.
  destruct (Z.of_nat (length axes) <? 2); [discriminate|].
  set (n := Z.of_nat (length axes)).
  intros E.
  apply flat_map_first in E as (ys & y & ys' & rest1 & Eys & Hys & E).
  apply flat_map_first in E as (xs & x & xs' & rest2 & Exs & Hxs & E).
  assert (Hy : In y (range n)) by (rewrite Eys; apply in_or_app; right; left; reflexivity).
  apply in_range in Hy.
  assert (Hx : In x (map (fun k => y + 1 + k) (range (n - (y + 1)))))
    by (rewrite Exs; apply in_or_app; right; left; reflexivity).
  apply in_map_iff in Hx as (k & Ek & Hk). apply in_range in Hk.
  destruct (orthogonal (axis_theta (axis_at axes y)) (axis_theta (axis_at axes x))) eqn:O;
    [|discriminate E].
  injection E as E _.
  exists y, x. split; [lia|]. split; [lia|]. split; [exact O|].
  split; [symmetry; exact E|].
  assert (Hrows : forall y0 x0, In y0 ys -> 0 <= y0 < x0 -> x0 < n ->
            orthogonal (axis_theta (axis_at axes y0)) (axis_theta (axis_at axes x0)) = false).
  { intros y0 x0 Hin Hy0 Hx0. specialize (Hys y0 Hin). cbv beta in Hys.
    destruct (orthogonal (axis_theta (axis_at axes y0)) (axis_theta (axis_at axes x0)))
      eqn:O0; [|reflexivity].
    exfalso.
    assert (Hin' : In (order_pair (axis_at axes y0) (axis_at axes x0)) []);
      [|destruct Hin'].
    rewrite <- Hys. apply in_flat_map. exists x0. split.
    - apply in_map_iff. exists (x0 - (y0 + 1)). split; [lia|apply in_range; lia].
    - rewrite O0. left. reflexivity. }
  assert (Hrow : forall x0, In x0 xs ->
            orthogonal (axis_theta (axis_at axes y)) (axis_theta (axis_at axes x0)) = false).
  { intros x0 Hin. specialize (Hxs x0 Hin). cbv beta in Hxs.
    destruct (orthogonal _ _); [discriminate Hxs|reflexivity]. }
  intros y' x' Hy' Hx' Hbefore.
  destruct Hbefore as [Hlt | [-> Hlt]].
  - apply Hrows; try assumption.
    apply (increasing_app_before ys ys' y y').
    + rewrite <- Eys. apply range_increasing.
    + rewrite <- Eys. apply in_range. lia.
    + exact Hlt.
  - apply Hrow.
    apply (increasing_app_before xs xs' x x').
    + rewrite <- Exs. apply map_shift_increasing, range_increasing.
    + rewrite <- Exs. apply in_map_iff. exists (x' - (y + 1)).
      split; [lia|apply in_range; lia].
    + exact Hlt.
Qed.
End FirstPair.

(** Three axes, the first two parallel: the pair of the first and the third
    comes first. *)
Lemma first_pair_is_the_first_right_angle_found_witness :
  exists y x,
    0 <= y < x /\ x < Z.of_nat (length [axis_0; axis_0; axis_90]) /\
    orthogonal (geometry := Reference.geometry)
               (axis_theta (axis_at [axis_0; axis_0; axis_90] y))
               (axis_theta (axis_at [axis_0; axis_0; axis_90] x)) = true /\
    (axis_0, axis_90)
    = order_pair (libm := Reference.libm)
                 (axis_at [axis_0; axis_0; axis_90] y)
                 (axis_at [axis_0; axis_0; axis_90] x) /\
    forall y' x',
      0 <= y' < x' -> x' < Z.of_nat (length [axis_0; axis_0; axis_90]) ->
      y' < y \/ (y' = y /\ x' < x) ->
      orthogonal (geometry := Reference.geometry)
                 (axis_theta (axis_at [axis_0; axis_0; axis_90] y'))
                 (axis_theta (axis_at [axis_0; axis_0; axis_90] x')) = false.
Proof.
  apply (first_pair_is_the_first_right_angle_found
           (libm := Reference.libm) (geometry := Reference.geometry)
           [axis_0; axis_0; axis_90] [] (axis_0, axis_90) [(axis_0, axis_90)]).
  vm_compute. reflexivity.
Defined.

(** ** PuzzleFinder::Find: what a call needs and what it leaves *)

Section ClusterCount.
Context {geometry : Geometry}.

Lemma Clusterize_count (lines : list Line) (buf : list (list Line)) :
  length (concat (ClusterizeLinesByTheta lines buf)) = length lines.
Proof.
  induction lines as [|line prefix IH] using rev_ind; [reflexivity|].
  rewrite (Clusterize_snoc prefix line buf buf).
  rewrite (placed_count line _ _ (cluster_line_placed _ line)).
  rewrite IH, length_app. cbn [length]. lia.
Qed.
End ClusterCount.

Lemma concat_sorted_length (sort : list Line -> list Line) (lineClusters : list (list Line)) :
  (forall l, length (sort l) = length l) ->
  length (concat (map sort lineClusters)) = length (concat lineClusters).
Proof.
  intros Hs. induction lineClusters as [|c cs IH]; [reflexivity|].
  cbn [map concat]. rewrite !length_app, Hs, IH. reflexivity.
Qed.

Lemma insert_length (lt : Line -> Line -> bool) (x : Line) (l : list Line) :
  length (Reference.insert lt x l) = S (length l).
Proof.
  induction l as [|y l IH]; [reflexivity|].
  cbn [Reference.insert]. destruct (lt x y); cbn [length]; [reflexivity|].
  rewrite IH. reflexivity.
Qed.

Lemma insertion_sort_length (lt : Line -> Line -> bool) (l : list Line) :
  length (Reference.insertion_sort lt l) = length l.
Proof.
  unfold Reference.insertion_sort.
  assert (G : forall acc, length (fold_left (fun acc x => Reference.insert lt x acc) l acc)
                          = (length acc + length l)%nat).
  { induction l as [|x l IH]; intros acc; cbn [fold_left length]; [lia|].
    rewrite IH, insert_length. lia. }
  rewrite G. reflexivity.
Qed.

Section FindNeeds.
Context {libm : Libm} {geometry : Geometry} {sorter : StdSort}.

(** X9. When [std::sort] keeps the number of lines of a cluster, [Find]
    returns true only if [FindLines] extracted at least eight lines: two
    candidate axes are needed, each one takes a cluster of its own with at
    least four lines, and each line is in one cluster. *)
Theorem Find_needs_eight_lines
        (self : PuzzleFinder) (targetWidth targetHeight : Z) (img : Image)
        (points : list Point) :
  (forall lt l, length (std_sort lt l) = length l) ->
  fst (fst (Find self targetWidth targetHeight img points)) = true ->
  (2 <= length (possiblePuzzleLineClusters
                  (snd (fst (Find self targetWidth targetHeight img points)))))%nat /\
  (8 <= length (FindLines targetWidth targetHeight img (lines self)))%nat.
Proof.
  intros Hsort Htrue.
  assert (Hstate : snd (fst (Find self targetWidth targetHeight img points))
                   = run_stages self targetWidth targetHeight img).
  { unfold Find. destruct (puzzleLines (run_stages self targetWidth targetHeight img));
      reflexivity. }
  assert (Hpairs : puzzleLines (run_stages self targetWidth targetHeight img) <> []).
  { intros E. rewrite (Find_false self targetWidth targetHeight img points E) in Htrue.
    discriminate Htrue. }
  rewrite Hstate.
  rewrite puzzleLines_run_stages in Hpairs.
  assert (Haxes : (2 <= length (possiblePuzzleLineClusters
                                  (run_stages self targetWidth targetHeight img)))%nat).
  { unfold FindPuzzles in Hpairs.
    destruct (Z.ltb_spec
                (Z.of_nat (length (possiblePuzzleLineClusters
                                     (run_stages self targetWidth targetHeight img)))) 2)
      as [Hs|Hs]; [exfalso; apply Hpairs; reflexivity|lia]. }
  split; [exact Haxes|].
  revert Haxes. unfold run_stages. cbn [possiblePuzzleLineClusters].
  unfold FindPossiblePuzzleLines, sort_clusters. cbn [snd].
  rewrite search_clusters_flat_map. intros Haxes.
  pose proof (four_lines_per_axis
                (map (std_sort by_abs_rho)
                     (ClusterizeLinesByTheta
                        (FindLines targetWidth targetHeight img (lines self))
                        (lineClusters self)))) as H4.
  rewrite (concat_sorted_length (std_sort by_abs_rho)) in H4 by (intros l; apply Hsort).
  rewrite Clusterize_count in H4. lia.
Qed.

(** X10. An accumulator of width 0 or of height 0 has no pixel to scan:
    [Find] returns false, leaves all four of its buffers empty and does not
    touch the caller's points. *)
Theorem Find_on_accumulator_without_pixels
        (self : PuzzleFinder) (targetWidth targetHeight : Z) (img : Image)
        (points : list Point) :
  width img = 0 \/ height img = 0 ->
  Find self targetWidth targetHeight img points
  = (false, mkPuzzleFinder [] [] [] [], points).
Proof.
  intros H0.
  assert (E : run_stages self targetWidth targetHeight img = mkPuzzleFinder [] [] [] []).
  { unfold run_stages.
    rewrite (proj2 (FindLines_of_accumulator_without_pixels
                      targetWidth targetHeight img (lines self) H0)).
    reflexivity. }
  rewrite Find_false; rewrite E; reflexivity.
Qed.

(** X11. [Find] starts every stage by clearing the buffer it fills: the
    result, the buffers it leaves and the points do not depend on what the
    buffers held before the call, so calling it again on the same input
    gives the same answer. *)
Theorem Find_does_not_depend_on_earlier_calls
        (self self' : PuzzleFinder) (targetWidth targetHeight : Z) (img : Image)
        (points : list Point) :
  Find self targetWidth targetHeight img points
  = Find self' targetWidth targetHeight img points /\
  Find (snd (fst (Find self targetWidth targetHeight img points)))
       targetWidth targetHeight img points
  = Find self targetWidth targetHeight img points.
Proof. split; reflexivity. Qed.
End FindNeeds.

(** The planted grid: eight peaks, two axes. *)
Lemma Find_needs_eight_lines_witness :
  (2 <= length (possiblePuzzleLineClusters
                  (snd (fst (Find (libm := Reference.libm) (geometry := Reference.geometry)
                                  (sorter := Reference.sorter)
                                  fresh 150 200 planted_grid [])))))%nat /\
  (8 <= length (FindLines (libm := Reference.libm) 150 200 planted_grid (lines fresh)))%nat.
Proof.
  apply (Find_needs_eight_lines (libm := Reference.libm) (geometry := Reference.geometry)
           (sorter := Reference.sorter) fresh 150 200 planted_grid []).
  - intros lt l. apply insertion_sort_length.
  - vm_compute. reflexivity.
Defined.

(** An accumulator of height 0, with buffers left by an earlier call. *)
Lemma Find_on_accumulator_without_pixels_witness :
  Find (libm := Reference.libm) (geometry := Reference.geometry)
       (sorter := Reference.sorter) used 3 4 (mkImage 5 0 []) []
  = (false, mkPuzzleFinder [] [] [] [], []).
Proof.
  apply (Find_on_accumulator_without_pixels
           (libm := Reference.libm) (geometry := Reference.geometry)
           (sorter := Reference.sorter) used 3 4 (mkImage 5 0 []) []).
  right. reflexivity.
Defined.

(** ** Game: cells written and read *)

Lemma store_length (l : list Z) (i : nat) (value : Z) :
  length (Game.store l i value) = length l.
Proof.
  revert i. induction l as [|v l IH]; intros i; [reflexivity|].
  destruct i as [|i]; cbn [Game.store length]; [reflexivity|]. rewrite IH. reflexivity.
Qed.

Lemma nth_store_same (l : list Z) (i : nat) (value d : Z) :
  (i < length l)%nat -> nth i (Game.store l i value) d = value.
Proof.
  revert i. induction l as [|v l IH]; intros i Hi; cbn [length] in Hi; [lia|].
  destruct i as [|i]; cbn [Game.store nth]; [reflexivity|]. apply IH. lia.
Qed.

Lemma nth_store_other (l : list Z) (i j : nat) (value d : Z) :
  i <> j -> nth j (Game.store l i value) d = nth j l d.
Proof.
  revert i j. induction l as [|v l IH]; intros i j Hij; [reflexivity|].
  destruct i as [|i]; destruct j as [|j]; cbn [Game.store nth]; try reflexivity.
  - exfalso. apply Hij. reflexivity.
  - apply IH. intros E. apply Hij. rewrite E. reflexivity.
Qed.

Lemma nth_cleared (l : list Z) (i : nat) : nth i (map (fun _ => Game.EMPTY_VALUE) l) 0 = 0.
Proof.
  revert i. induction l as [|v l IH]; intros [|i]; cbn [map nth]; try reflexivity.
  apply IH.
Qed.

(** X12. [Game::Set] followed by [Game::Get], on a game of 81 cells and
    coordinates that are unsigned: [Set] succeeds exactly when the
    coordinates are below 9 and the value is at most 9; when it fails the
    game is as it was; when it succeeds [Get] at the same cell returns the
    value written and every other cell reads as before. *)
Theorem Set_then_Get (game : Game.t) (x y value : Z) :
  full_size game -> 0 <= x -> 0 <= y ->
  (fst (Game.Set_ game x y value) = true <-> x < 9 /\ y < 9 /\ value <= 9) /\
  (fst (Game.Set_ game x y value) = false -> snd (Game.Set_ game x y value) = game) /\
  (fst (Game.Set_ game x y value) = true ->
   full_size (snd (Game.Set_ game x y value)) /\
   Game.Get (snd (Game.Set_ game x y value)) x y = value /\
   forall x' y', 0 <= x' -> 0 <= y' -> (x', y') <> (x, y) ->
                 Game.Get (snd (Game.Set_ game x y value)) x' y' = Game.Get game x' y').
Proof.
  intros Hsize Hx Hy. unfold full_size in *. unfold Game.Set_, Game.WIDTH, Game.HEIGHT, Game.MAX_VALUE.
  destruct (Z.leb_spec 9 x) as [Hx9|Hx9]; cbn [orb fst snd].
  { split; [split; [discriminate|lia]|]. split; [reflexivity|discriminate]. }
  destruct (Z.leb_spec 9 y) as [Hy9|Hy9]; cbn [orb fst snd].
  { split; [split; [discriminate|lia]|]. split; [reflexivity|discriminate]. }
  destruct (Z.ltb_spec 9 value) as [Hv|Hv]; cbn [orb fst snd].
  { split; [split; [discriminate|lia]|]. split; [reflexivity|discriminate]. }
  split; [split; [lia|reflexivity]|]. split; [discriminate|]. intros _.
  split; [cbn [Game.state]; rewrite store_length; exact Hsize|].
  split.
  - unfold Game.Get, Game.WIDTH, Game.HEIGHT.
    destruct (Z.leb_spec 9 x); [lia|]. destruct (Z.leb_spec 9 y); [lia|].
    cbn [orb Game.state]. apply nth_store_same.
    unfold Game.Index, Game.WIDTH. lia.
  - intros x' y' Hx' Hy' Hne. unfold Game.Get, Game.WIDTH, Game.HEIGHT.
    destruct ((9 <=? x') || (9 <=? y')) eqn:Hout; [reflexivity|].
    apply orb_false_iff in Hout as [Hx'9 Hy'9].
    apply Z.leb_gt in Hx'9. apply Z.leb_gt in Hy'9.
    cbn [Game.state]. apply nth_store_other.
    unfold Game.Index, Game.WIDTH. intros E. apply Hne.
    assert (y * 9 + x = y' * 9 + x') by lia.
    assert (y = y') by lia. assert (x = x') by lia. subst. reflexivity.
Qed.

(** Writing 7 at cell [(2,3)] of a new game. *)
Lemma Set_then_Get_witness :
  (fst (Game.Set_ Game.create 2 3 7) = true <-> 2 < 9 /\ 3 < 9 /\ 7 <= 9) /\
  (fst (Game.Set_ Game.create 2 3 7) = false -> snd (Game.Set_ Game.create 2 3 7) = Game.create) /\
  (fst (Game.Set_ Game.create 2 3 7) = true ->
   full_size (snd (Game.Set_ Game.create 2 3 7)) /\
   Game.Get (snd (Game.Set_ Game.create 2 3 7)) 2 3 = 7 /\
   forall x' y', 0 <= x' -> 0 <= y' -> (x', y') <> (2, 3) ->
                 Game.Get (snd (Game.Set_ Game.create 2 3 7)) x' y' = Game.Get Game.create x' y').
Proof.
  apply (Set_then_Get Game.create 2 3 7); [reflexivity|lia|lia].
Defined.


(** ** DigitsToGame: the grid of 81 digits *)

Lemma range_succ (n : nat) : range (Z.of_nat (S n)) = range (Z.of_nat n) ++ [Z.of_nat n].
Proof.
  unfold range. rewrite !Nat2Z.id, seq_S, map_app. reflexivity.
Qed.

Lemma store_digits_cell_by_cell (digits : list Z) (game : Game.t) :
  store_digits digits game = fold_left (store_cell digits) (range 81) (Done game).
Proof. reflexivity. Qed.

Lemma element_in (digits : list Z) (n : nat) :
  (n < length digits)%nat -> element digits (Z.of_nat n) = Done (nth n digits 0).
Proof.
  intros Hn. unfold element. rewrite Nat2Z.id.
  rewrite (nth_error_nth' digits 0 Hn). reflexivity.
Qed.

Lemma store_cells_out (digits : list Z) (indexes : list Z) :
  fold_left (store_cell digits) indexes OutOfBounds = OutOfBounds.
Proof. induction indexes as [|index indexes IH]; [reflexivity|exact IH]. Qed.

Lemma store_cells_short (digits : list Z) (indexes : list Z) :
  forall game,
    (exists index, In index indexes /\ Z.of_nat (length digits) <= index) ->
    fold_left (store_cell digits) indexes game = OutOfBounds.
Proof.
  induction indexes as [|index indexes IH]; intros game (i & Hin & Hi); [destruct Hin|].
  cbn [fold_left]. destruct Hin as [->|Hin].
  - unfold store_cell at 2. rewrite (element_out _ _ Hi).
    destruct game; apply store_cells_out.
  - apply IH. exists i. auto.
Qed.

Lemma store_cells (digits state0 : list Z) (n : nat) :
  length state0 = 81%nat ->
  (n <= 81)%nat -> (n <= length digits)%nat ->
  exists game,
    fold_left (store_cell digits) (range (Z.of_nat n)) (Done (Game.construct state0))
    = Done game /\
    full_size game /\
    forall j, nth j (Game.state game) 0
              = if (j <? n)%nat then cell_of_digit (nth j digits 0) else 0.
Proof.
  intros Hstate0. induction n as [|n IH]; intros H81 Hlen.
  - exists (Game.construct state0). split; [reflexivity|].
    split; [unfold full_size, Game.construct, Game.Clear; cbn [Game.state];
            rewrite length_map; exact Hstate0|].
    intros j. cbn [Nat.ltb Nat.leb]. apply nth_cleared.
  - destruct IH as (game & Erun & Hsize & Hcells); [lia|lia|].
    rewrite range_succ, fold_left_app, Erun. cbn [fold_left].
    unfold store_cell. cbn [bind]. rewrite element_in by lia. cbn [bind].
    assert (Hx : 0 <= Z.of_nat n mod 9 < 9) by (apply Z.mod_pos_bound; lia).
    assert (Hy : 0 <= Z.of_nat n / 9 < 9).
    { split; [apply Z.div_pos; lia|apply Z.div_lt_upper_bound; lia]. }
    assert (Hidx : Z.to_nat (Game.Index (Z.of_nat n mod 9) (Z.of_nat n / 9)) = n).
    { unfold Game.Index, Game.WIDTH.
      rewrite Z.mul_comm, <- Z.div_mod by lia. apply Nat2Z.id. }
    unfold Game.Set_, Game.WIDTH, Game.HEIGHT, Game.MAX_VALUE.
    destruct (Z.leb_spec 9 (Z.of_nat n mod 9)); [lia|].
    destruct (Z.leb_spec 9 (Z.of_nat n / 9)); [lia|]. cbn [orb].
    unfold full_size in *.
    destruct (Z.ltb_spec 9 (nth n digits 0)) as [Hbig|Hok]; cbn [snd].
    + exists game. split; [reflexivity|]. split; [exact Hsize|].
      intros j. rewrite Hcells.
      destruct (Nat.ltb_spec j n) as [Hj|Hj]; destruct (Nat.ltb_spec j (S n)) as [Hj'|Hj'];
        try reflexivity; try lia.
      assert (j = n) by lia. subst j. unfold cell_of_digit.
      destruct (Z.ltb_spec 9 (nth n digits 0)); [reflexivity|lia].
    + eexists. split; [reflexivity|]. cbn [Game.state].
      split; [rewrite store_length; exact Hsize|].
      intros j. rewrite Hidx.
      destruct (Nat.eq_dec n j) as [<-|Hne].
      * rewrite nth_store_same by lia.
        destruct (Nat.ltb_spec n (S n)); [|lia]. unfold cell_of_digit.
        destruct (Z.ltb_spec 9 (nth n digits 0)); [lia|reflexivity].
      * rewrite nth_store_other by exact Hne. rewrite Hcells.
        destruct (Nat.ltb_spec j n); destruct (Nat.ltb_spec j (S n)); try reflexivity; lia.
Qed.

Lemma cells_cell_by_cell (game : Game.t) :
  cells game = map (fun index => Game.Get game (index mod 9) (index / 9)) (range 81).
Proof. reflexivity. Qed.

Lemma firstn_as_map (l : list Z) (n : nat) :
  (n <= length l)%nat -> firstn n l = map (fun j => nth j l 0) (seq 0 n).
Proof.
  intros Hn. apply (nth_ext _ _ 0 0).
  - rewrite length_firstn, length_map, length_seq. lia.
  - intros j Hj. rewrite length_firstn in Hj.
    rewrite nth_firstn. destruct (Nat.ltb_spec j n); [|lia].
    rewrite (nth_indep (map (fun j => nth j l 0) (seq 0 n)) 0 ((fun j => nth j l 0) 0%nat))
      by (rewrite length_map, length_seq; lia).
    rewrite (map_nth (fun j => nth j l 0)), seq_nth by lia. reflexivity.
Qed.

(** X14. [DigitsToGame] runs its two loops over the game it constructs.
    Whatever that game, a vector of fewer than 81 digits is read past its
    end. When the constructed game has 81 cells (the number of cells is a
    hypothesis: the constructor is given a state of 81 cells) and at least
    81 digits are given, the loops stay inside the vector and end with a
    game of 81 cells in which cell [(x,y)] holds digit [y * 9 + x], or is
    empty when that digit is above 9 ([Game::Set] refuses it and its result
    is not looked at); read back row by row, the game gives the first 81
    digits when none of them is above 9. *)
Theorem DigitsToGame_stores_each_digit_in_its_cell (digits state0 : list Z) :
  DigitsToGame digits = store_digits digits Game.create /\
  ((length digits < 81)%nat ->
   store_digits digits (Game.construct state0) = OutOfBounds) /\
  (length state0 = 81%nat -> (81 <= length digits)%nat ->
   exists game,
     store_digits digits (Game.construct state0) = Done game /\
     full_size game /\
     (forall x y, 0 <= x < 9 -> 0 <= y < 9 ->
                  Game.Get game x y
                  = cell_of_digit (nth (Z.to_nat (y * 9 + x)) digits 0)) /\
     ((forall digit, In digit (firstn 81 digits) -> digit <= 9) ->
      cells game = firstn 81 digits)).
Proof.
  split; [reflexivity|]. split.
  { intros Hshort. rewrite store_digits_cell_by_cell. apply store_cells_short.
    exists (Z.of_nat (length digits)). split; [apply in_range; lia|lia]. }
  intros Hstate0 Hlen.
  destruct (store_cells digits state0 81 Hstate0 (Nat.le_refl 81) Hlen)
    as (game & Erun & Hsize & Hcells).
  exists game. split; [rewrite store_digits_cell_by_cell; exact Erun|].
  split; [exact Hsize|].
  assert (Hget : forall x y, 0 <= x < 9 -> 0 <= y < 9 ->
            Game.Get game x y = cell_of_digit (nth (Z.to_nat (y * 9 + x)) digits 0)).
  { intros x y Hx Hy. unfold Game.Get, Game.WIDTH, Game.HEIGHT.
    destruct (Z.leb_spec 9 x); [lia|]. destruct (Z.leb_spec 9 y); [lia|]. cbn [orb].
    unfold Game.Index, Game.WIDTH. rewrite Hcells.
    destruct (Nat.ltb_spec (Z.to_nat (y * 9 + x)) 81); [reflexivity|lia]. }
  split; [exact Hget|].
  intros Hdigits. rewrite cells_cell_by_cell, (firstn_as_map digits 81 Hlen).
  unfold range. change (Z.to_nat 81) with 81%nat. rewrite map_map.
  apply map_ext_in. intros j Hj. apply in_seq in Hj.
  assert (Hx : 0 <= Z.of_nat j mod 9 < 9) by (apply Z.mod_pos_bound; lia).
  assert (Hy : 0 <= Z.of_nat j / 9 < 9).
  { split; [apply Z.div_pos; lia|apply Z.div_lt_upper_bound; lia]. }
  rewrite Hget by assumption.
  replace (Z.of_nat j / 9 * 9 + Z.of_nat j mod 9) with (Z.of_nat j)
    by (rewrite Z.mul_comm; apply Z.div_mod; lia).
  rewrite Nat2Z.id. unfold cell_of_digit.
  destruct (Z.ltb_spec 9 (nth j digits 0)) as [Hbig|]; [|reflexivity].
  exfalso. assert (nth j digits 0 <= 9); [|lia].
  apply Hdigits. rewrite (firstn_as_map digits 81 Hlen).
  apply in_map_iff. exists j. split; [reflexivity|apply in_seq; lia].
Qed.

(** The grid [full_grid], over a constructed game of 81 cells. *)
Lemma DigitsToGame_stores_each_digit_in_its_cell_witness :
  exists game,
    store_digits full_grid (Game.construct (repeat 0 81)) = Done game /\
    full_size game /\
    (forall x y, 0 <= x < 9 -> 0 <= y < 9 ->
                 Game.Get game x y
                 = cell_of_digit (nth (Z.to_nat (y * 9 + x)) full_grid 0)) /\
    ((forall digit, In digit (firstn 81 full_grid) -> digit <= 9) ->
     cells game = firstn 81 full_grid).
Proof.
  apply (proj2 (proj2 (DigitsToGame_stores_each_digit_in_its_cell full_grid (repeat 0 81)))).
  - reflexivity.
  - apply Nat.le_refl.
Defined.

(** ** The number of digits given *)

Lemma count_from (digits : list Z) :
  forall previous,
    0 <= previous -> previous + Z.of_nat (length digits) <= 256 ->
    fold_left (fun previous digit => previous mod 256 + (if 0 <? digit then 1 else 0))
              digits previous
    = previous + Z.of_nat (length (filter (fun digit => 0 <? digit) digits)).
Proof.
  induction digits as [|digit digits IH]; intros previous H0 Hle.
  - cbn [fold_left filter length]. lia.
  - cbn [fold_left filter]. cbn [length] in Hle.
    rewrite Z.mod_small by lia.
    destruct (0 <? digit); rewrite IH by lia; cbn [length]; lia.
Qed.

(** X15. [nonZeroDigits], accumulated through an [unsigned char], is the
    number of digits above 0 as long as the vector has at most 256 digits,
    which the check of the size (81) ensures where it is used; beyond that
    the count wraps around: 257 digits above 0 count as 1. *)
Theorem nonZeroDigits_counts_the_digits_given (digits : list Z) :
  ((length digits <= 256)%nat ->
   count_nonZeroDigits digits
   = Z.of_nat (length (filter (fun digit => 0 <? digit) digits))) /\
  count_nonZeroDigits (repeat 1 257) = 1.
Proof.
  split; [|vm_compute; reflexivity].
  intros Hlen. unfold count_nonZeroDigits. rewrite count_from by lia. lia.
Qed.

(** ** CachedPuzzleSolver: the cache *)

Lemma existsb_false_all {A : Type} (f : A -> bool) (l : list A) :
  existsb f l = false -> forall a, In a l -> f a = false.
Proof.
  induction l as [|b l IH]; intros E a Hin; [destruct Hin|].
  cbn [existsb] in E. apply orb_false_iff in E as [Eb El].
  destruct Hin as [<-|Hin]; [exact Eb|exact (IH El a Hin)].
Qed.







Section CacheFacts.
Context {solver : Solver}.

(** The ways [CachedPuzzleSolver::Solve] ends once the digits are read. *)
Lemma Solve_ends (self self' : CachedPuzzleSolver) (digits solution solution' : list Z)
      (result : bool) :
  CachedPuzzleSolver_Solve self digits solution = Done (result, self', solution') ->
  (result = false /\ self' = self /\ solution' = solution)
  \/
  (result = true /\ checked_digits digits /\
   exists game,
     DigitsToGame digits = Done game /\ Solvable game = true /\
     ((exists entry,
          find_solved digits (solvedPuzzles self) = Some entry /\
          self' = mkCachedPuzzleSolver (solvedPuzzles self) (Some entry) /\
          solution' = snd entry)
      \/
      (find_solved digits (solvedPuzzles self) = None /\
       fst (Solve game) = true /\
       solution' = cells (snd (Solve game)) /\
       self' = mkCachedPuzzleSolver (solvedPuzzles self ++ [(digits, solution')])
                                    (Some (digits, solution'))))).
Proof.
  unfold CachedPuzzleSolver_Solve.
  destruct (DigitsToGame digits) as [|game] eqn:Egame; cbn [bind]; [discriminate|].
  destruct (Z.eqb_spec (Z.of_nat (length digits)) 81) as [Hlen|Hlen]; cbn [negb];
    [|intros E; injection E as <- <- <-; left; auto].
  destruct (existsb (fun digit => 9 <? digit) digits) eqn:Ebig;
    [intros E; injection E as <- <- <-; left; auto|].
  destruct (Solvable game) eqn:Esolvable; cbn [negb];
    [|intros E; injection E as <- <- <-; left; auto].
  destruct (Z.ltb_spec (count_nonZeroDigits digits) 21) as [Hcount|Hcount];
    [intros E; injection E as <- <- <-; left; auto|].
  assert (Hchecked : checked_digits digits).
  { split; [lia|]. split; [|exact Hcount].
    intros digit Hin. pose proof (existsb_false_all _ _ Ebig digit Hin) as Hd.
    cbv beta in Hd. apply Z.ltb_ge in Hd. exact Hd. }
  destruct (find_solved digits (solvedPuzzles self)) as [entry|] eqn:Efind.
  - intros E; injection E as <- <- <-. right. split; [reflexivity|].
    split; [exact Hchecked|]. exists game. split; [reflexivity|].
    split; [exact Esolvable|]. left. exists entry. auto.
  - destruct (fst (Solve game)) eqn:Esolved; cbn [negb];
      [|intros E; injection E as <- <- <-; left; auto].
    intros E; injection E as <- <- <-. right. split; [reflexivity|].
    split; [exact Hchecked|]. exists game. split; [reflexivity|].
    split; [exact Esolvable|]. right. auto.
Qed.

(** X16. Whenever [CachedPuzzleSolver::Solve] returns false, for whichever
    reason (a wrong number of digits, a digit above 9, an infeasible grid,
    fewer than 21 digits given, or the solver failing), the cache, the
    solution used last and the caller's [solution] are as before the call. *)
Theorem failed_Solve_changes_nothing
        (self self' : CachedPuzzleSolver) (digits solution solution' : list Z) :
  CachedPuzzleSolver_Solve self digits solution = Done (false, self', solution') ->
  self' = self /\ solution' = solution.
Proof.
  intros E. apply Solve_ends in E as [(_ & Hself & Hsol) | (Habs & _)];
    [split; assumption|discriminate Habs].
Qed.

(** X18. [GetLastUsedSolution] returns false and leaves [solution] alone on
    a new solver; after a call of [Solve] that returned true it returns true
    with the solution of that call, and a call of [Solve] that returned
    false does not change what it returns. *)
Theorem GetLastUsedSolution_gives_the_last_solution :
  (forall solution,
      GetLastUsedSolution CachedPuzzleSolver_new solution = (false, solution)) /\
  (forall self self' digits solution solution' result,
      CachedPuzzleSolver_Solve self digits solution = Done (result, self', solution') ->
      (result = true ->
       forall other, GetLastUsedSolution self' other = (true, solution')) /\
      (result = false ->
       forall other, GetLastUsedSolution self' other = GetLastUsedSolution self other)).
Proof.
  split; [reflexivity|].
  intros self self' digits solution solution' result E.
  apply Solve_ends in E as [(-> & -> & ->) | (-> & _ & game & _ & _ & Hcase)].
  - split; [discriminate|reflexivity].
  - split; [|discriminate]. intros _ other.
    destruct Hcase as [(entry & _ & -> & ->) | (_ & _ & _ & ->)]; reflexivity.
Qed.

End CacheFacts.


(** A grid without a digit, on a new solver. *)
Lemma failed_Solve_changes_nothing_witness :
  CachedPuzzleSolver_Solve (solver := solver_of_full_grids)
    CachedPuzzleSolver_new (repeat 0 81) [1; 2; 3]
  = Done (false, CachedPuzzleSolver_new, [1; 2; 3]) /\
  CachedPuzzleSolver_new = CachedPuzzleSolver_new /\ [1; 2; 3] = [1; 2; 3].
Proof.
  split; [vm_compute; reflexivity|].
  apply (failed_Solve_changes_nothing (solver := solver_of_full_grids)
           CachedPuzzleSolver_new CachedPuzzleSolver_new (repeat 0 81) [1; 2; 3] [1; 2; 3]).
  vm_compute. reflexivity.
Defined.


